(** * activity-report.py: a shallow embedding of the GitHub activity audit

    The script walks the repositories of a list of organizations through the
    GitHub REST API and records, for every tracked user, three activity flags
    with their provenance, a fallback "last push" date, and a per-repository
    audit list.  Everything the script does to the outside world (HTTP
    requests, sleeping, appending to the error log, rewriting the cache file,
    writing the spreadsheet) is recorded in a chronological trace of events,
    together with every payload the fetcher handed back.  The remote API,
    the clock and the text Python gives to the values the script only
    formats are supplied by a [world].  Exceptions are outcomes of the
    commands; the [while True] loop over pages runs on fuel.  Writing to the
    three files is taken to succeed, and console output ([print]) is not
    part of the model. *)

From Stdlib Require Import String Ascii List ZArith Bool Lia PeanoNat DecimalString.
From Stdlib Require Import OrderedTypeEx.
Import ListNotations.
Open Scope string_scope.

(** ** JSON payloads as the script consults them *)

(** The members the script reads out of API objects are strings, nested
    objects or null (a missing member reads as Python's [None] or as the
    default handed to [.get]).  Members it never reads are not represented. *)
#[warnings="-register-all"]
Inductive value : Type :=
| VNull
| VStr (s : string)
| VObj (members : list (string * value)).

(** What [response.json()] yields at top level: an array of items or a bare
    value.  Python's [None] is [BVal VNull]. *)
Inductive body : Type :=
| BArr (items : list value)
| BVal (v : value).

Definition py_None : body := BVal VNull.

(** ** Exceptions *)

Inductive exn : Type :=
| ConnectionError (detail : string)
| HTTPError (status : Z)
| JSONDecodeError
| ValueError
| OverflowError
| KeyError (key : string)
| AttributeError
| TypeError.

(** ** The outside world *)

(** A header value as [int(...)] sees it. *)
Inductive header_value : Type :=
| HInt (z : Z)
| HNotInt.

Record response : Type := mkResponse {
  status_code : Z;
  x_ratelimit_remaining : option header_value;
  x_ratelimit_reset : option header_value;
  json : option body          (* [None]: the body is not JSON *)
}.

Inductive get_result : Type :=
| GetRaises (e : exn)
| GetResponse (r : response).

(** The n-th request of a run is answered by [session_get n url auth]; the
    clock readings are indexed the same way, by the number of requests
    issued so far, and so is the text of an exception, which may name the
    request it comes from (as that of an HTTP error does). *)
Record world : Type := mkWorld {
  session_get : nat -> string -> string -> get_result;
  time_time : nat -> Z;                   (* int(time.time()) *)
  utcnow_isoformat : nat -> string;       (* datetime.utcnow().isoformat() *)
  utcnow_minus_days : nat -> Z -> string; (* (utcnow() - timedelta(days=d)).isoformat() *)
  repr_dict : list (string * value) -> string;  (* str() of a dict *)
  exn_text : nat -> exn -> string         (* str(e) *)
}.

(** ** Program state *)

Record user_record : Type := mkUser {
  default_commit : bool;
  any_commit : bool;
  any_activity : bool;
  default_commit_source : option string;
  any_commit_source : option string;
  any_activity_source : option string;
  last_push_date : value
}.

Record audit_entry : Type := mkAudit {
  audit_repo : string;
  audit_default_branch : value
}.

Record summary_row : Type := mkRow {
  row_user_id : string;
  row_default_commit : bool;
  row_any_commit : bool;
  row_any_activity : bool;
  row_last_push : value;
  row_source_default : option string;
  row_source_any_commit : option string;
  row_source_any_activity : option string
}.

Definition dict (V : Type) : Type := list (string * V).

Inductive event : Type :=
| EGet (url : string)
| EReturn (payload : body)       (* what [github_request] handed back *)
| ESleep (seconds : Z)
| ELogError (line : string)
| ESaveCache (c : dict value)
| EWriteReport (summary : list summary_row) (audit : list audit_entry).

Record state : Type := mkState {
  tick : nat;
  trace : list event;
  cache : dict value;
  user_summary : dict user_record;
  user_ids : list string;
  repo_audit : list audit_entry
}.

Definition with_io (n : nat) (t : list event) (s : state) : state :=
  mkState n t (cache s) (user_summary s) (user_ids s) (repo_audit s).
Definition with_cache (c : dict value) (s : state) : state :=
  mkState (tick s) (trace s) c (user_summary s) (user_ids s) (repo_audit s).
Definition with_user_summary (u : dict user_record) (s : state) : state :=
  mkState (tick s) (trace s) (cache s) u (user_ids s) (repo_audit s).
Definition with_user_ids (l : list string) (s : state) : state :=
  mkState (tick s) (trace s) (cache s) (user_summary s) l (repo_audit s).
Definition with_repo_audit (a : list audit_entry) (s : state) : state :=
  mkState (tick s) (trace s) (cache s) (user_summary s) (user_ids s) a.

Definition emit (e : event) (s : state) : state :=
  with_io (tick s) (trace s ++ [e]) s.

(** ** A state-and-exception monad *)

Inductive result (A : Type) : Type :=
| Ok (a : A) (s : state)
| Raise (e : exn) (s : state)
| OutOfFuel (s : state).
Arguments Ok {A} a s.
Arguments Raise {A} e s.
Arguments OutOfFuel {A} s.

Definition M (A : Type) : Type := state -> result A.

Definition ret {A} (a : A) : M A := fun s => Ok a s.
Definition raise {A} (e : exn) : M A := fun s => Raise e s.
Definition bind {A B} (m : M A) (k : A -> M B) : M B :=
  fun s => match m s with
           | Ok a s' => k a s'
           | Raise e s' => Raise e s'
           | OutOfFuel s' => OutOfFuel s'
           end.
Definition try_except {A} (m : M A) (handler : exn -> M A) : M A :=
  fun s => match m s with
           | Raise e s' => handler e s'
           | r => r
           end.
Definition gets {A} (f : state -> A) : M A := fun s => Ok (f s) s.
Definition modify (f : state -> state) : M unit := fun s => Ok tt (f s).

Notation "x <- m ;; k" := (bind m (fun x => k))
  (at level 61, m at next level, right associativity).
Notation "m ;;; k" := (bind m (fun _ => k))
  (at level 61, right associativity).

Definition final_state {A} (r : result A) : state :=
  match r with Ok _ s | Raise _ s | OutOfFuel s => s end.

Definition when (b : bool) (m : M unit) : M unit := if b then m else ret tt.

Fixpoint for_each {A} (xs : list A) (loop_body : A -> M unit) : M unit :=
  match xs with
  | [] => ret tt
  | x :: xs' => loop_body x ;;; for_each xs' loop_body
  end.

(** ** Python operations on the modelled values *)

Fixpoint dict_get {V} (k : string) (d : dict V) : option V :=
  match d with
  | [] => None
  | (k', v) :: d' => if String.eqb k k' then Some v else dict_get k d'
  end.

(** [d[k] = v]: an existing key keeps its position. *)
Fixpoint dict_set {V} (k : string) (v : V) (d : dict V) : dict V :=
  match d with
  | [] => [(k, v)]
  | (k', v') :: d' =>
      if String.eqb k k' then (k, v) :: d' else (k', v') :: dict_set k v d'
  end.

Definition dict_mem {V} (k : string) (d : dict V) : bool :=
  match dict_get k d with Some _ => true | None => false end.

Definition value_truthy (v : value) : bool :=
  match v with
  | VNull => false
  | VStr s => negb (String.eqb s "")
  | VObj m => match m with [] => false | _ => true end
  end.

Definition truthy (b : body) : bool :=
  match b with
  | BArr items => match items with [] => false | _ => true end
  | BVal v => value_truthy v
  end.

(** [len(b)] *)
Definition py_len (b : body) : M nat :=
  match b with
  | BArr items => ret (List.length items)
  | BVal (VStr s) => ret (String.length s)
  | BVal (VObj m) => ret (List.length m)
  | BVal VNull => raise TypeError
  end.

(** What [for x in b] ranges over: the items of an array, the keys of an
    object, the characters of a string; a [None] never gets this far. *)
Definition py_iter (b : body) : list value :=
  match b with
  | BArr items => items
  | BVal (VObj m) => map (fun kv => VStr (fst kv)) m
  | BVal (VStr s) => map (fun c => VStr (String c EmptyString)) (list_ascii_of_string s)
  | BVal VNull => []
  end.

(** [v.get(key, default)]: only objects have [.get]. *)
Definition get_member (v : value) (key : string) (default : value) : option value :=
  match v with
  | VObj m => Some (match dict_get key m with Some x => x | None => default end)
  | _ => None
  end.

Definition py_get (v : value) (key : string) (default : value) : M value :=
  match get_member v key default with
  | Some x => ret x
  | None => raise AttributeError
  end.

(** [v in l] for a list of strings. *)
Definition py_in (v : value) (l : list string) : bool :=
  match v with
  | VStr s => existsb (String.eqb s) l
  | _ => false
  end.

(** [a > b]: defined between strings only. *)
Definition py_gt (a b : value) : M bool :=
  match a, b with
  | VStr x, VStr y => ret (String.ltb y x)
  | _, _ => raise TypeError
  end.

(** Formatting inside an f-string. *)
Definition py_str (w : world) (v : value) : string :=
  match v with
  | VNull => "None"
  | VStr s => s
  | VObj m => repr_dict w m
  end.

Definition str_of_nat (n : nat) : string :=
  NilEmpty.string_of_uint (Nat.to_uint n).

Definition newline : string := String (ascii_of_nat 10) EmptyString.

(** ** CONFIG *)

Definition GITHUB_API : string := "https://api.github.com".

(** ** UTILS *)

(** Lines 18-21: one line appended to the error log. *)
Definition log_error (w : world) (message : string) : M unit :=
  fun s => Ok tt (emit (ELogError (utcnow_isoformat w (tick s) ++ " - " ++ message ++ newline)) s).

(** [int(...)] of a header value. *)
Definition py_int (h : header_value) : M Z :=
  match h with
  | HInt z => ret z
  | HNotInt => raise ValueError
  end.

(** [name.lower()] of an ASCII name. *)
Definition lower_char (c : ascii) : ascii :=
  let n := nat_of_ascii c in
  if Nat.leb 65 n && Nat.leb n 90 then ascii_of_nat (n + 32) else c.

Fixpoint str_lower (s : string) : string :=
  match s with
  | EmptyString => EmptyString
  | String c rest => String (lower_char c) (str_lower rest)
  end.

(** [response.headers[name]]: the headers are a case-insensitive dict, which
    looks the lower-cased name up and raises [KeyError] with it. *)
Definition header_lookup (name : string) (h : option header_value) : M header_value :=
  match h with
  | Some v => ret v
  | None => raise (KeyError (str_lower name))
  end.

(** The longest sleep, in seconds, that fits the interpreter's clock (a
    signed 64-bit count of nanoseconds). *)
Definition SLEEP_MAX : Z := 9223372036.

(** [time.sleep]: a length that does not fit the clock raises
    [OverflowError]; otherwise a negative length is refused. *)
Definition time_sleep (seconds : Z) : M unit :=
  fun s => if (SLEEP_MAX <? seconds)%Z || (seconds <? - SLEEP_MAX)%Z
           then Raise OverflowError s
           else if (seconds <? 0)%Z then Raise ValueError s
           else Ok tt (emit (ESleep seconds) s).

Definition is_some {A} (o : option A) : bool :=
  match o with Some _ => true | None => false end.

(** Lines 23-31. *)
Definition rate_limit_guard (w : world) (r : response) : M unit :=
  if (status_code r =? 403)%Z && is_some (x_ratelimit_remaining r) then
    h <- header_lookup "X-RateLimit-Remaining" (x_ratelimit_remaining r) ;;
    remaining <- py_int h ;;
    if (remaining =? 0)%Z then
      h' <- header_lookup "X-RateLimit-Reset" (x_ratelimit_reset r) ;;
      reset <- py_int h' ;;
      now <- gets (fun s => time_time w (tick s)) ;;
      let sleep_time := (reset - now + 1)%Z in
      time_sleep sleep_time
    else ret tt
  else ret tt.

(** ** GITHUB HELPERS *)

(** [session.get(url, headers=headers)]: the request is issued, the world
    answers it, the request counter advances. *)
Definition http_get (w : world) (url auth : string) : M response :=
  fun s =>
    let s' := with_io (S (tick s)) (trace s ++ [EGet url]) s in
    match session_get w (tick s) url auth with
    | GetRaises e => Raise e s'
    | GetResponse r => Ok r s'
    end.

(** The statuses [raise_for_status] turns into an exception. *)
Definition http_error (r : response) : bool :=
  (400 <=? status_code r)%Z && (status_code r <? 600)%Z.

(** [response.raise_for_status()] *)
Definition raise_for_status (r : response) : M unit :=
  if http_error r then raise (HTTPError (status_code r)) else ret tt.

(** [response.json()] *)
Definition response_json (r : response) : M body :=
  match json r with
  | Some b => ret b
  | None => raise JSONDecodeError
  end.

(** Lines 34-43.  The payload handed back is also noted in the trace. *)
Definition github_request (w : world) (url auth : string) : M body :=
  payload <-
    try_except
      (r <- http_get w url auth ;;
       rate_limit_guard w r ;;;
       raise_for_status r ;;;
       response_json r)
      (fun e =>
         n <- gets tick ;;
         log_error w ("Failed request to " ++ url ++ ": " ++ exn_text w n e) ;;;
         ret py_None) ;;
  modify (emit (EReturn payload)) ;;;
  ret payload.

(** ** MAIN FUNCTION *)

Definition initial_record : user_record :=
  mkUser false false false None None None VNull.

(** The dict comprehension over [user_ids]: one fresh record per distinct
    identifier, in order of first occurrence. *)
Definition init_user_summary (uids : list string) : dict user_record :=
  fold_left (fun d uid => dict_set uid initial_record d) uids [].

Definition set_default_commit (r : user_record) : user_record :=
  mkUser true (any_commit r) (any_activity r) (default_commit_source r)
         (any_commit_source r) (any_activity_source r) (last_push_date r).
Definition set_default_commit_source (src : string) (r : user_record) : user_record :=
  mkUser (default_commit r) (any_commit r) (any_activity r) (Some src)
         (any_commit_source r) (any_activity_source r) (last_push_date r).
Definition set_any_commit (r : user_record) : user_record :=
  mkUser (default_commit r) true (any_activity r) (default_commit_source r)
         (any_commit_source r) (any_activity_source r) (last_push_date r).
Definition set_any_commit_source (src : string) (r : user_record) : user_record :=
  mkUser (default_commit r) (any_commit r) (any_activity r) (default_commit_source r)
         (Some src) (any_activity_source r) (last_push_date r).
Definition set_any_activity (r : user_record) : user_record :=
  mkUser (default_commit r) (any_commit r) true (default_commit_source r)
         (any_commit_source r) (any_activity_source r) (last_push_date r).
Definition set_any_activity_source (src : string) (r : user_record) : user_record :=
  mkUser (default_commit r) (any_commit r) (any_activity r) (default_commit_source r)
         (any_commit_source r) (Some src) (last_push_date r).
Definition set_last_push_date (d : value) (r : user_record) : user_record :=
  mkUser (default_commit r) (any_commit r) (any_activity r) (default_commit_source r)
         (any_commit_source r) (any_activity_source r) d.

(** [user_summary[key]] *)
Definition summary_get (key : value) : M user_record :=
  fun s =>
    match key with
    | VStr uid =>
        match dict_get uid (user_summary s) with
        | Some r => Ok r s
        | None => Raise (KeyError uid) s
        end
    | VNull => Raise (KeyError "None") s
    | VObj _ => Raise TypeError s
    end.

(** [user_summary[key][field] = ...] *)
Definition summary_update (key : value) (f : user_record -> user_record) : M unit :=
  r <- summary_get key ;;
  match key with
  | VStr uid => modify (fun s => with_user_summary (dict_set uid (f r) (user_summary s)) s)
  | _ => ret tt
  end.

(** [commit.get("author", {}).get("login")] *)
Definition login_of (item : value) (member : string) : M value :=
  a <- py_get item member (VObj []) ;;
  py_get a "login" VNull.

(** The test at every match site:
    [who in user_ids and not user_summary[who][flag]]. *)
Definition still_lacks (flag : user_record -> bool) (who : value) : M bool :=
  uids <- gets user_ids ;;
  if py_in who uids then
    r <- summary_get who ;;
    ret (negb (flag r))
  else ret false.

(** Lines 112-116: one commit of the default branch. *)
Definition default_commit_step (repo_key : string) (commit : value) : M unit :=
  author <- login_of commit "author" ;;
  hit <- still_lacks default_commit author ;;
  if hit then
    summary_update author set_default_commit ;;;
    summary_update author (set_default_commit_source repo_key)
  else ret tt.

(** Lines 129-133: one commit of a branch, 30-day window. *)
Definition any_commit_step (w : world) (repo_key : string) (branch_name : value)
    (commit : value) : M unit :=
  author <- login_of commit "author" ;;
  hit <- still_lacks any_commit author ;;
  if hit then
    summary_update author set_any_commit ;;;
    summary_update author
      (set_any_commit_source (repo_key ++ "@" ++ py_str w branch_name))
  else ret tt.

(** Lines 139-143: one repository event. *)
Definition event_step (w : world) (repo_key : string) (ev : value) : M unit :=
  actor <- login_of ev "actor" ;;
  hit <- still_lacks any_activity actor ;;
  if hit then
    summary_update actor set_any_activity ;;;
    ty <- py_get ev "type" VNull ;;
    summary_update actor
      (set_any_activity_source (repo_key ++ ":" ++ py_str w ty))
  else ret tt.

(** Lines 152-158: one commit of a branch, 90-day window. *)
Definition fallback_step (commit : value) : M unit :=
  author <- login_of commit "author" ;;
  c <- py_get commit "commit" (VObj []) ;;
  ca <- py_get c "author" (VObj []) ;;
  date <- py_get ca "date" VNull ;;
  hit <- still_lacks any_commit author ;;
  if hit then
    r <- summary_get author ;;
    let prev_date := last_push_date r in
    later <- (if negb (value_truthy prev_date) then ret true
              else py_gt date prev_date) ;;
    if later then summary_update author (set_last_push_date date)
    else ret tt
  else ret tt.

Definition commits_url (w : world) (org : string) (repo_name sha : value)
    (since : string) : string :=
  GITHUB_API ++ "/repos/" ++ org ++ "/" ++ py_str w repo_name
    ++ "/commits?sha=" ++ py_str w sha ++ "&since=" ++ since ++ "&per_page=100".

Definition branches_url (w : world) (org : string) (repo_name : value) : string :=
  GITHUB_API ++ "/repos/" ++ org ++ "/" ++ py_str w repo_name
    ++ "/branches?per_page=100".

Definition events_url (w : world) (org : string) (repo_name : value) : string :=
  GITHUB_API ++ "/repos/" ++ org ++ "/" ++ py_str w repo_name ++ "/events".

Definition repos_url (org : string) : string :=
  GITHUB_API ++ "/orgs/" ++ org ++ "/repos?per_page=100&type=all".

Definition page_url (org : string) (page : nat) : string :=
  repos_url org ++ "&page=" ++ str_of_nat page.

(** [(datetime.utcnow() - timedelta(days=d)).isoformat() + "Z"] *)
Definition since_days (w : world) (d : Z) : M string :=
  gets (fun s => utcnow_minus_days w (tick s) d ++ "Z").

(** Lines 101-102. *)
Definition cache_touch (repo_key : string) : M unit :=
  modify (fun s => if dict_mem repo_key (cache s) then s
                   else with_cache (dict_set repo_key (VObj []) (cache s)) s).

(** Lines 124-133: every branch, commits of the last 30 days. *)
Definition scan_branches_recent (w : world) (auth org : string)
    (repo_name : value) (repo_key since_30 : string) (branches : body) : M unit :=
  for_each (py_iter branches) (fun branch =>
    branch_name <- py_get branch "name" VNull ;;
    branch_commits <-
      github_request w (commits_url w org repo_name branch_name since_30) auth ;;
    when (truthy branch_commits)
      (for_each (py_iter branch_commits) (any_commit_step w repo_key branch_name))).

(** Lines 136-143. *)
Definition scan_events (w : world) (auth org : string) (repo_name : value)
    (repo_key : string) : M unit :=
  events <- github_request w (events_url w org repo_name) auth ;;
  when (truthy events) (for_each (py_iter events) (event_step w repo_key)).

(** Lines 146-158: every branch again, commits of the last 90 days. *)
Definition scan_fallback (w : world) (auth org : string) (repo_name : value)
    (branches : body) : M unit :=
  since_90 <- since_days w 90 ;;
  for_each (py_iter branches) (fun branch =>
    branch_name <- py_get branch "name" VNull ;;
    commits <-
      github_request w (commits_url w org repo_name branch_name since_90) auth ;;
    when (truthy commits) (for_each (py_iter commits) fallback_step)).

(** Lines 161-162. *)
Definition save_progress : M unit :=
  modify (fun s => emit (ESaveCache (cache s)) s).

Definition all_three (r : user_record) : bool :=
  default_commit r && any_commit r && any_activity r.

(** Lines 165-169: the list comprehension that narrows [user_ids]. *)
Fixpoint still_missing (uids : list string) : M (list string) :=
  match uids with
  | [] => ret []
  | uid :: rest =>
      r <- summary_get (VStr uid) ;;
      kept <- still_missing rest ;;
      ret (if all_three r then kept else uid :: kept)
  end.

Definition narrow_user_ids : M unit :=
  uids <- gets user_ids ;;
  kept <- still_missing uids ;;
  modify (with_user_ids kept).

Inductive control : Type := Next | Break.

(** Lines 96-121: up to and including the branch-list request. *)
Definition repo_begin (w : world) (auth org : string) (repo : value)
    : M (value * string * string * body) :=
  repo_name <- py_get repo "name" VNull ;;
  full_name <- py_get repo "full_name" VNull ;;
  default_branch <- py_get repo "default_branch" VNull ;;
  let repo_key := org ++ "/" ++ py_str w repo_name in
  cache_touch repo_key ;;;
  modify (fun s => with_repo_audit (repo_audit s ++ [mkAudit repo_key default_branch]) s) ;;;
  since_60 <- since_days w 60 ;;
  default_commits <-
    github_request w (commits_url w org repo_name default_branch since_60) auth ;;
  when (truthy default_commits)
    (for_each (py_iter default_commits) (default_commit_step repo_key)) ;;;
  since_30 <- since_days w 30 ;;
  branches <- github_request w (branches_url w org repo_name) auth ;;
  ret (repo_name, repo_key, since_30, branches).

(** Lines 124-171: what follows a non-empty branch list. *)
Definition repo_finish (w : world) (auth org : string) (repo_name : value)
    (repo_key since_30 : string) (branches : body) : M control :=
  scan_branches_recent w auth org repo_name repo_key since_30 branches ;;;
  scan_events w auth org repo_name repo_key ;;;
  scan_fallback w auth org repo_name branches ;;;
  save_progress ;;;
  narrow_user_ids ;;;
  uids <- gets user_ids ;;
  match uids with
  | [] => ret Break
  | _ => ret Next
  end.

(** The body of [for repo in repos]. *)
Definition process_repo (w : world) (auth org : string) (repo : value) : M control :=
  x <- repo_begin w auth org repo ;;
  let '(repo_name, repo_key, since_30, branches) := x in
  if negb (truthy branches) then ret Next          (* continue *)
  else repo_finish w auth org repo_name repo_key since_30 branches.

Fixpoint for_repos (loop_body : value -> M control) (repos : list value) : M unit :=
  match repos with
  | [] => ret tt
  | repo :: rest =>
      c <- loop_body repo ;;
      match c with
      | Break => ret tt
      | Next => for_repos loop_body rest
      end
  end.

(** Lines 85-175: the [while True] loop over the pages of one organization;
    [fuel] bounds the number of iterations. *)
Fixpoint page_loop (fuel : nat) (w : world) (auth org : string) (page : nat) : M unit :=
  match fuel with
  | O => fun s => OutOfFuel s
  | S fuel' =>
      repos <- github_request w (page_url org page) auth ;;
      if negb (truthy repos) then ret tt
      else
        n <- py_len repos ;;
        if Nat.eqb n 0 then ret tt
        else
          for_repos (process_repo w auth org) (py_iter repos) ;;;
          uids <- gets user_ids ;;
          match uids with
          | [] => ret tt
          | _ => page_loop fuel' w auth org (page + 1)
          end
  end.

(** Lines 82-175. *)
Definition scan_orgs (fuel : nat) (w : world) (auth : string) (orgs : list string) : M unit :=
  for_each orgs (fun org => page_loop fuel w auth org 1).

(** Lines 178-190: one row per key of [user_summary], in dict order. *)
Definition summary_rows (us : dict user_record) : list summary_row :=
  map (fun kv =>
         let r := snd kv in
         mkRow (fst kv) (default_commit r) (any_commit r) (any_activity r)
               (last_push_date r) (default_commit_source r)
               (any_commit_source r) (any_activity_source r)) us.

(** Lines 193-198. *)
Definition write_report : M unit :=
  modify (fun s => emit (EWriteReport (summary_rows (user_summary s)) (repo_audit s)) s).

(** What [CACHE_FILE] holds when the run starts. *)
Inductive cache_file : Type :=
| NoFile
| FileJson (c : dict value)
| FileCorrupt.

(** Lines 62-66. *)
Definition load_cache (f : cache_file) : M unit :=
  match f with
  | NoFile => modify (with_cache [])
  | FileJson c => modify (with_cache c)
  | FileCorrupt => raise JSONDecodeError
  end.

Definition start : state := mkState 0 [] [] [] [] [].

(** Lines 46-200.  [fuel] bounds the turns of each page loop. *)
Definition check_user_activity (fuel : nat) (w : world) (file : cache_file)
    (token : string) (orgs uids : list string) : result unit :=
  (let auth := "token " ++ token in
   load_cache file ;;;
   modify (with_user_ids uids) ;;;
   modify (with_user_summary (init_user_summary uids)) ;;;
   scan_orgs fuel w auth orgs ;;;
   write_report) start.

(** ** Views of the trace *)

(** The contents of [CACHE_FILE] after a trace, given what it held before. *)
Definition cache_file_after (before : cache_file) (t : list event) : cache_file :=
  fold_left (fun f e => match e with ESaveCache c => FileJson c | _ => f end) t before.

(** The lines appended to [ERROR_LOG_FILE]. *)
Definition error_log (t : list event) : list string :=
  flat_map (fun e => match e with ELogError l => [l] | _ => [] end) t.

Definition requests (t : list event) : list string :=
  flat_map (fun e => match e with EGet u => [u] | _ => [] end) t.

(** The items of the non-empty payloads handed back, in order. *)
Definition observed (t : list event) : list value :=
  flat_map (fun e => match e with
                     | EReturn b => if truthy b then py_iter b else []
                     | _ => []
                     end) t.

Definition sleeps (t : list event) : list Z :=
  flat_map (fun e => match e with ESleep z => [z] | _ => [] end) t.

Definition saves (t : list event) : list (dict value) :=
  flat_map (fun e => match e with ESaveCache c => [c] | _ => [] end) t.

(** * Auxiliary notions used in the statements *)

(** ** What one loop iteration can do to a user record *)

Inductive record_step : user_record -> user_record -> Prop :=
| rs_default r src :
    default_commit r = false -> src <> "" ->
    record_step r (set_default_commit_source src (set_default_commit r))
| rs_any_commit r src :
    any_commit r = false -> src <> "" ->
    record_step r (set_any_commit_source src (set_any_commit r))
| rs_any_activity r src :
    any_activity r = false -> src <> "" ->
    record_step r (set_any_activity_source src (set_any_activity r))
| rs_last_push r d :
    any_commit r = false ->
    record_step r (set_last_push_date d r).

(** Nothing happened between [s] and [s'], or the record of one active
    user was replaced along [P]. *)
Definition updates (P : user_record -> user_record -> Prop) (s s' : state) : Prop :=
  s' = s \/
  exists uid r r',
    In uid (user_ids s) /\ dict_get uid (user_summary s) = Some r /\
    P r r' /\
    s' = with_user_summary (dict_set uid r' (user_summary s)) s.

Definition record_update : state -> state -> Prop := updates record_step.

(** The replacement each match site makes. *)
Definition default_hit (src : string) (r r' : user_record) : Prop :=
  default_commit r = false /\
  r' = set_default_commit_source src (set_default_commit r).
Definition any_commit_hit (src : string) (r r' : user_record) : Prop :=
  any_commit r = false /\
  r' = set_any_commit_source src (set_any_commit r).
Definition any_activity_hit (repo_key : string) (r r' : user_record) : Prop :=
  any_activity r = false /\
  exists ty,
    r' = set_any_activity_source (repo_key ++ ":" ++ ty) (set_any_activity r).
Definition last_push_hit (r r' : user_record) : Prop :=
  any_commit r = false /\ exists d, r' = set_last_push_date d r.

(** ** The comprehension that narrows [user_ids] *)

Definition missing_some (us : dict user_record) (uid : string) : bool :=
  match dict_get uid us with
  | Some r => negb (all_three r)
  | None => true
  end.

(** ** Relations kept by a command, whatever its outcome *)

Definition preserves (R : state -> state -> Prop) {A} (m : M A) : Prop :=
  forall s, R s (final_state (m s)).

(** ** The fetcher seen from outside *)

(** The line [log_error] appends for a failed request. *)
Definition failure_line (w : world) (n : nat) (url : string) (e : exn) : string :=
  utcnow_isoformat w n ++ " - "
    ++ ("Failed request to " ++ url ++ ": " ++ exn_text w n e) ++ newline.

(** The payload of the n-th request when it goes through: the transport
    answers, the status is no error, the body is JSON. *)
Definition parsed_payload (w : world) (n : nat) (url auth : string) : option body :=
  match session_get w n url auth with
  | GetRaises _ => None
  | GetResponse r => if http_error r then None else json r
  end.

(** The answer carries status 403 and both rate-limit headers. *)
Definition throttled (w : world) (n : nat) (url auth : string) : bool :=
  match session_get w n url auth with
  | GetRaises _ => false
  | GetResponse r =>
      (status_code r =? 403)%Z && is_some (x_ratelimit_remaining r)
      && is_some (x_ratelimit_reset r)
  end.

(** Events that neither request nor hand back anything nor touch the cache
    file: sleeps and log lines. *)
Definition quiet (e : event) : Prop :=
  match e with
  | ESleep _ | ELogError _ => True
  | _ => False
  end.

(** ** First match wins *)






(** ** The active-user set *)

(** The user's record is out of reach of the scans: all three flags are
    set, or the user is no longer in [user_ids]. *)
Definition settled (s : state) (uid : string) (r : user_record) : Prop :=
  dict_get uid (user_summary s) = Some r /\
  (all_three r = true \/ ~ In uid (user_ids s)).

(** The relation the scans keep between an earlier and a later state. *)
Definition only_narrows (s s' : state) : Prop :=
  (exists keep, user_ids s' = filter keep (user_ids s)) /\
  forall uid r, settled s uid r -> dict_get uid (user_summary s') = Some r.

(** What the claim says of an earlier state [s] and a later state [s']:
    the active set did not grow, nobody joined it, a settled user's record
    is untouched and the user fails the test of every match site. *)
Definition narrowing (s s' : state) : Prop :=
  List.length (user_ids s') <= List.length (user_ids s) /\
  incl (user_ids s') (user_ids s) /\
  forall uid r, settled s uid r ->
    dict_get uid (user_summary s') = Some r /\
    still_lacks default_commit (VStr uid) s' = Ok false s' /\
    still_lacks any_commit (VStr uid) s' = Ok false s' /\
    still_lacks any_activity (VStr uid) s' = Ok false s'.

(** ** The state in which the organization loop starts *)

Definition loaded (c : dict value) (uids : list string) : state :=
  mkState 0 [] c (init_user_summary uids) uids [].

(** ** What a repository without branches may change *)

(** Two records agree on everything but the default-branch flag and its
    source. *)
Definition off_default_same (r r' : user_record) : Prop :=
  any_commit r' = any_commit r /\
  any_activity r' = any_activity r /\
  any_commit_source r' = any_commit_source r /\
  any_activity_source r' = any_activity_source r /\
  last_push_date r' = last_push_date r.

Definition only_default_flags (s s' : state) : Prop :=
  forall uid,
    match dict_get uid (user_summary s), dict_get uid (user_summary s') with
    | Some r, Some r' => off_default_same r r'
    | None, None => True
    | _, _ => False
    end.

(** Only [user_summary] differs between [s] and [s']. *)
Definition summary_only (s s' : state) : Prop :=
  s' = with_user_summary (user_summary s') s.

(** The default-branch scan touches nothing but default flags. *)
Definition default_scan_frame (s s' : state) : Prop :=
  summary_only s s' /\ only_default_flags s s'.

(** ** What the scans of a repository leave alone *)

Definition scans_frame (s s' : state) : Prop :=
  cache s' = cache s /\ repo_audit s' = repo_audit s /\
  exists t, trace s' = (trace s ++ t)%list.

(** * The fallback scan, seen as a fold over the commits it observed *)

(** [item.get(member, {}).get("login")], when nothing raises. *)
Definition author_login (item : value) (member : string) : option value :=
  match get_member item member (VObj []) with
  | Some a => get_member a "login" VNull
  | None => None
  end.

(** [commit.get("commit", {}).get("author", {}).get("date")], when nothing
    raises. *)
Definition commit_date (commit : value) : option value :=
  match get_member commit "commit" (VObj []) with
  | Some c =>
      match get_member c "author" (VObj []) with
      | Some ca => get_member ca "date" VNull
      | None => None
      end
  | None => None
  end.

(** [not prev or d > prev], when the comparison is defined. *)
Definition later (d prev : value) : bool :=
  negb (value_truthy prev)
  || match d, prev with
     | VStr x, VStr y => String.ltb y x
     | _, _ => false
     end.

(** What one observed commit does to the record of user [uid]. *)
Definition push_one (ids : list string) (uid : string) (r : user_record)
    (c : value) : user_record :=
  match author_login c "author", commit_date c with
  | Some (VStr a), Some d =>
      if String.eqb a uid && existsb (String.eqb uid) ids
         && negb (any_commit r) && later d (last_push_date r)
      then set_last_push_date d r
      else r
  | _, _ => r
  end.

(** The dates of the commits authored by [uid], in order. *)
Definition dates_by (uid : string) (cs : list value) : list value :=
  flat_map (fun c =>
              match author_login c "author", commit_date c with
              | Some (VStr a), Some d => if String.eqb a uid then [d] else []
              | _, _ => []
              end) cs.

Definition keep_later (acc d : value) : value :=
  if later d acc then d else acc.

(** A timestamp is a non-empty string. *)
Definition timestamp (v : value) : Prop :=
  exists text, v = VStr text /\ text <> "".

(** The order of timestamps as Python compares them, with [None] below. *)
Definition value_le (a b : value) : Prop :=
  match a, b with
  | VNull, _ => True
  | VStr x, VStr y => String.leb x y = true
  | _, _ => False
  end.

(** [result] is the latest among a previous value and the dates [ds]. *)
Definition latest_of (prev : value) (ds : list value) (result : value) : Prop :=
  (ds = [] -> result = prev) /\
  In result (prev :: ds) /\
  (Forall timestamp ds -> prev = VNull \/ timestamp prev ->
   forall d, In d (prev :: ds) -> value_le d result).

(** Two records carry the same flags and sources. *)
Definition same_flags (r r' : user_record) : Prop :=
  default_commit r' = default_commit r /\
  any_commit r' = any_commit r /\
  any_activity r' = any_activity r /\
  default_commit_source r' = default_commit_source r /\
  any_commit_source r' = any_commit_source r /\
  any_activity_source r' = any_activity_source r.

(** Records of the same users, related pointwise. *)
Definition records_related (P : string -> user_record -> user_record -> Prop)
    (s s' : state) : Prop :=
  forall uid,
    match dict_get uid (user_summary s), dict_get uid (user_summary s') with
    | Some r, Some r' => P uid r r'
    | None, None => True
    | _, _ => False
    end.

(** Between [s] and [s']: the records moved as the fold of [push_one] over
    the commits observed in between. *)
Definition fallback_fold (s s' : state) : Prop :=
  user_ids s' = user_ids s /\
  exists t,
    trace s' = (trace s ++ t)%list /\
    records_related
      (fun uid r r' => r' = fold_left (push_one (user_ids s) uid) (observed t) r)
      s s'.

(** Between [s] and [s']: flags and sources are as they were, and only
    active users without a recent commit may have a new last-push date. *)
Definition fallback_frame (s s' : state) : Prop :=
  user_ids s' = user_ids s /\
  records_related
    (fun uid r r' =>
       same_flags r r' /\
       (any_commit r = true \/ ~ In uid (user_ids s) -> r' = r))
    s s'.

(** ** What the fallback scan asks for and is handed *)

(** What [github_request] hands back for request number [n]. *)
Definition answer (w : world) (n : nat) (url auth : string) : body :=
  match parsed_payload w n url auth with
  | Some p => p
  | None => py_None
  end.

(** [item.get(key)] of an object. *)
Definition member (item : value) (key : string) : value :=
  match get_member item key VNull with
  | Some x => x
  | None => VNull
  end.

(** The locators of the fallback scan when it starts after [n] requests:
    for every branch of the list, in order, its commits since 90 days
    before that moment. *)
Definition fallback_urls (w : world) (org : string) (repo_name : value)
    (branches : body) (n : nat) : list string :=
  map (fun b => commits_url w org repo_name (member b "name")
                  (utcnow_minus_days w n 90 ++ "Z"))
      (py_iter branches).

(** The items handed back for the requests [urls] issued in a row, the
    first being request number [n]: those of the payloads that are not
    falsy, in order. *)
Fixpoint handed_back (w : world) (auth : string) (n : nat) (urls : list string)
    : list value :=
  match urls with
  | [] => []
  | url :: rest =>
      ((if truthy (answer w n url auth) then py_iter (answer w n url auth) else [])
       ++ handed_back w auth (S n) rest)%list
  end.

(** Between [s] and [s'] the requests [urls] were issued and their payloads
    handed back, and nothing else was asked for or handed back. *)
Definition fetched_in_a_row (w : world) (auth : string) (urls : list string)
    (s s' : state) : Prop :=
  tick s' = tick s + List.length urls /\
  exists t,
    trace s' = (trace s ++ t)%list /\
    requests t = urls /\
    observed t = handed_back w auth (tick s) urls.

(** ** When the fallback scan is sure to complete *)

(** A commit the fallback scan can digest: its author member is absent or an
    object, and its commit date is a string. *)
Definition wf_commit (c : value) : Prop :=
  (exists a, author_login c "author" = Some a) /\
  exists text, commit_date c = Some (VStr text).

(** Every commit list the remote side hands out for the repository is made
    of such commits. *)
Definition answers_commits (w : world) (org : string) (repo_name : value) : Prop :=
  forall n sha since auth b,
    parsed_payload w n (commits_url w org repo_name sha since) auth = Some b ->
    Forall wf_commit (py_iter b).

Definition is_object (v : value) : Prop := exists m, v = VObj m.

(** Every active user has a record, and every last-push date is [None] or a
    string. *)
Definition fallback_ready (s : state) : Prop :=
  (forall uid, In uid (user_ids s) -> dict_mem uid (user_summary s) = true) /\
  (forall uid r, dict_get uid (user_summary s) = Some r ->
     last_push_date r = VNull \/ exists text, last_push_date r = VStr text).

(** * The report *)

(** The mapping the run starts from, when the cache file can be read. *)
Definition initial_cache (file : cache_file) : option (dict value) :=
  match file with
  | NoFile => Some []
  | FileJson c => Some c
  | FileCorrupt => None
  end.

(** The Summary row of a user record. *)
Definition row_of (uid : string) (r : user_record) : summary_row :=
  mkRow uid (default_commit r) (any_commit r) (any_activity r)
        (last_push_date r) (default_commit_source r)
        (any_commit_source r) (any_activity_source r).

(** The same users are tracked, in the same order. *)
Definition same_keys (s s' : state) : Prop :=
  map fst (user_summary s') = map fst (user_summary s).

(** * The page loop, in the words of the specification *)


(** The requests of a trace that ask for a page of [org]'s repositories. *)
Definition page_requests (org : string) (t : list event) : list string :=
  filter (String.prefix (repos_url org ++ "&page=")) (requests t).

Definition same_page_requests (org : string) (s s' : state) : Prop :=
  page_requests org (trace s') = page_requests org (trace s).

(** * Mock remote sides for the concrete runs *)

Module Mock.

Definition ok_json (b : body) : get_result :=
  GetResponse (mkResponse 200 None None (Some b)).

Definition not_found : get_result :=
  GetResponse
    (mkResponse 404 None None (Some (BVal (VObj [("message", VStr "Not Found")])))).

Definition commit_by (login date : string) : value :=
  VObj [("author", VObj [("login", VStr login)]);
        ("commit", VObj [("author", VObj [("date", VStr date)])])].

Definition event_by (login ty : string) : value :=
  VObj [("actor", VObj [("login", VStr login)]); ("type", VStr ty)].

Definition repo_item (name branch : string) : value :=
  VObj [("name", VStr name); ("full_name", VStr name); ("default_branch", VStr branch)].

Definition branch_item (name : string) : value := VObj [("name", VStr name)].

Definition since (d : Z) : string :=
  match d with
  | 60%Z => "2026-09-05T12:00:00"
  | 30%Z => "2026-10-05T12:00:00"
  | _ => "2026-08-06T12:00:00"
  end.

Definition text_of (e : exn) : string :=
  match e with
  | ConnectionError detail => detail
  | HTTPError _ => "HTTP error"
  | JSONDecodeError => "Expecting value"
  | ValueError => "invalid value"
  | OverflowError => "timestamp too large to convert to C _PyTime_t"
  | KeyError key => key
  | AttributeError => "no attribute 'get'"
  | TypeError => "unsupported operand"
  end.

(** A remote side that answers by locator alone, from a table; a locator
    outside the table is answered 404. *)
Definition serve (table : dict get_result) : world :=
  mkWorld
    (fun _ url _ => match dict_get url table with Some r => r | None => not_found end)
    (fun _ => 1000%Z)
    (fun _ => "2026-11-04T12:00:00")
    (fun _ d => since d)
    (fun _ => "{}")
    (fun _ => text_of).

Definition api : string := "https://api.github.com".

(** Two organizations with one repository each; alice satisfies all three
    conditions in the first. *)
Definition two_orgs : world :=
  serve
    [(page_url "acme" 1, ok_json (BArr [repo_item "site" "main"]));
     (api ++ "/repos/acme/site/commits?sha=main&since=2026-09-05T12:00:00Z&per_page=100",
      ok_json (BArr [commit_by "alice" "2026-10-25T09:00:00Z"]));
     (api ++ "/repos/acme/site/branches?per_page=100",
      ok_json (BArr [branch_item "main"]));
     (api ++ "/repos/acme/site/commits?sha=main&since=2026-10-05T12:00:00Z&per_page=100",
      ok_json (BArr [commit_by "alice" "2026-10-25T09:00:00Z"]));
     (api ++ "/repos/acme/site/events",
      ok_json (BArr [event_by "alice" "PushEvent"]));
     (page_url "beta" 1, ok_json (BArr [repo_item "tool" "main"]));
     (api ++ "/repos/beta/tool/branches?per_page=100",
      ok_json (BArr [branch_item "main"]))].

(** One repository whose branch list cannot be fetched. *)
Definition no_branches : world :=
  serve
    [(page_url "acme" 1, ok_json (BArr [repo_item "site" "main"]));
     (api ++ "/repos/acme/site/commits?sha=main&since=2026-09-05T12:00:00Z&per_page=100",
      ok_json (BArr [commit_by "alice" "2026-10-25T09:00:00Z"]))].

(** One organization whose repositories come in three pages of one
    repository each; the fourth page is empty.  alice satisfies all three
    conditions in the repository of the first page. *)
Definition three_pages : world :=
  serve
    [(page_url "acme" 1, ok_json (BArr [repo_item "site" "main"]));
     (page_url "acme" 2, ok_json (BArr [repo_item "docs" "main"]));
     (page_url "acme" 3, ok_json (BArr [repo_item "blog" "main"]));
     (page_url "acme" 4, ok_json (BArr []));
     (api ++ "/repos/acme/site/commits?sha=main&since=2026-09-05T12:00:00Z&per_page=100",
      ok_json (BArr [commit_by "alice" "2026-10-25T09:00:00Z"]));
     (api ++ "/repos/acme/site/branches?per_page=100",
      ok_json (BArr [branch_item "main"]));
     (api ++ "/repos/acme/site/commits?sha=main&since=2026-10-05T12:00:00Z&per_page=100",
      ok_json (BArr [commit_by "alice" "2026-10-25T09:00:00Z"]));
     (api ++ "/repos/acme/site/events",
      ok_json (BArr [event_by "alice" "PushEvent"]))].

(** One repository with two branches; bob has no commit in the last 30 days
    and three within the last 90. *)
Definition old_commits : world :=
  serve
    [(api ++ "/repos/acme/site/branches?per_page=100",
      ok_json (BArr [branch_item "main"; branch_item "dev"]));
     (api ++ "/repos/acme/site/commits?sha=main&since=2026-08-06T12:00:00Z&per_page=100",
      ok_json (BArr [commit_by "bob" "2026-08-20T10:00:00Z";
                     commit_by "alice" "2026-09-30T10:00:00Z"]));
     (api ++ "/repos/acme/site/commits?sha=dev&since=2026-08-06T12:00:00Z&per_page=100",
      ok_json (BArr [commit_by "bob" "2026-09-01T08:00:00Z";
                     commit_by "bob" "2026-08-25T17:30:00Z"]))].

(** A throttled answer whose quota resets at [reset]. *)
Definition throttled_answer (reset : Z) : response :=
  mkResponse 403 (Some (HInt 0)) (Some (HInt reset)) None.

End Mock.

(** * Further notions: the elementary moves of a run *)

(** The reports written in a trace. *)
Definition reports (t : list event) : list (list summary_row * list audit_entry) :=
  flat_map (fun e => match e with EWriteReport r a => [(r, a)] | _ => [] end) t.

(** Every active user has a record. *)
Definition ids_tracked (s : state) : Prop :=
  forall uid, In uid (user_ids s) -> dict_mem uid (user_summary s) = true.

(** The exceptions a payload of unexpected shape provokes. *)
Definition payload_exn (e : exn) : Prop :=
  e = AttributeError \/ e = TypeError.

(** Lines 101-102 on the cache alone. *)
Definition touch (k : string) (c : dict value) : dict value :=
  if dict_mem k c then c else dict_set k (VObj []) c.

(** The cache after the repositories [ks] were visited in turn. *)
Definition visited (ks : list string) (c : dict value) : dict value :=
  fold_left (fun c k => touch k c) ks c.

(** The events of one call of the fetcher after the request itself, the
    request being number [n]: sleeps and log lines, then the payload handed
    back.  A request that goes through logs nothing and hands back its
    payload; one that fails logs one line and hands back [None]. *)
Definition fetched (w : world) (auth : string) (n : nat) (url : string)
    (t : list event) (b : body) : Prop :=
  Forall quiet t /\
  match parsed_payload w n url auth with
  | Some p => b = p /\ t = []
  | None => b = py_None /\ exists e, error_log t = [failure_line w (S n) url e]
  end.

(** The outcome is a result, or one of the exceptions of [payload_exn];
    the fuel has run out only if [F]. *)
Definition raises_payload (F : Prop) {A} (r : result A) : Prop :=
  match r with
  | Ok _ _ => True
  | Raise e _ => payload_exn e
  | OutOfFuel _ => F
  end.

Section Moves.
Variables (w : world) (auth : string).

(** One elementary move of the organization loop: a call of the fetcher,
    the visit of a repository (its cache entry and its audit entry), the
    update of one record at a match site, a save of the cache, the
    narrowing of [user_ids]. *)
Inductive step : state -> state -> Prop :=
| step_fetch s url t b :
    fetched w auth (tick s) url t b ->
    step s (with_io (S (tick s)) (trace s ++ EGet url :: t ++ [EReturn b]) s)
| step_visit s k b :
    step s (with_repo_audit (repo_audit s ++ [mkAudit k b])
              (with_cache (touch k (cache s)) s))
| step_record s s' :
    record_update s s' -> step s s'
| step_save s :
    step s (emit (ESaveCache (cache s)) s)
| step_narrow s :
    step s (with_user_ids (filter (missing_some (user_summary s)) (user_ids s)) s).

(** Any number of moves. *)
Inductive reach : state -> state -> Prop :=
| reach_refl s : reach s s
| reach_step s1 s2 s3 : reach s1 s2 -> step s2 s3 -> reach s1 s3.

(** Started where every active user has a record, the command moves by
    elementary moves only and ends as [raises_payload] says. *)
Definition judged (F : Prop) {A} (m : M A) : Prop :=
  forall s, ids_tracked s ->
    reach s (final_state (m s)) /\ raises_payload F (m s).

End Moves.

Arguments step_fetch {w auth} s url t b _.
Arguments step_visit {w auth} s k b.
Arguments step_record {w auth} s s' _.
Arguments step_save {w auth} s.
Arguments step_narrow {w auth} s.
Arguments reach_refl {w auth} s.
Arguments reach_step {w auth} s1 s2 s3 _ _.

(** An event of the organization loop that started with the cache [c0] and
    has audited [audit] since: it is not the report, and a save holds the
    cache as it was after a first part of [audit]. *)
Definition scan_event (c0 : dict value) (audit : list audit_entry) (e : event) : Prop :=
  match e with
  | EWriteReport _ _ => False
  | ESaveCache c =>
      exists a1 a2, audit = (a1 ++ a2)%list /\ c = visited (map audit_repo a1) c0
  | _ => True
  end.

(** From [s] to [s'] the trace and the audit list were extended, by events
    of the organization loop only, and the cache followed the audit list. *)
Definition moved (s s' : state) : Prop :=
  exists t a,
    trace s' = (trace s ++ t)%list /\
    repo_audit s' = (repo_audit s ++ a)%list /\
    cache s' = visited (map audit_repo a) (cache s) /\
    Forall (scan_event (cache s) a) t.

(** The ways a run can end, from the state [s1] the organization loop
    ended in. *)
Definition run_ends (r : result unit) (s1 : state) : Prop :=
  r = Ok tt (emit (EWriteReport (summary_rows (user_summary s1)) (repo_audit s1)) s1)
  \/ (exists e, payload_exn e /\ r = Raise e s1)
  \/ r = OutOfFuel s1.

(** * Further notions: a run seen without the cache *)

Definition blind_event (e : event) : event :=
  match e with
  | ESaveCache _ => ESaveCache []
  | _ => e
  end.

(** The state with the cache, and the contents of every save, left out. *)
Definition blind (s : state) : state :=
  mkState (tick s) (map blind_event (trace s)) [] (user_summary s) (user_ids s)
          (repo_audit s).

Definition blind_result {A} (r : result A) : result A :=
  match r with
  | Ok a s => Ok a (blind s)
  | Raise e s => Raise e (blind s)
  | OutOfFuel s => OutOfFuel (blind s)
  end.

(** The command behaves alike in states that differ in the cache only. *)
Definition oblivious {A} (m : M A) : Prop :=
  forall s s', blind s = blind s' -> blind_result (m s) = blind_result (m s').

(** * Further notions: when a run comes to an end *)

(** The listing of [org] has nothing on page [last]: whenever that page is
    asked for, the request fails or the payload is empty. *)
Definition listing_ends (w : world) (auth org : string) (last : nat) : Prop :=
  forall n,
    match parsed_payload w n (page_url org last) auth with
    | Some b => truthy b = false
    | None => True
    end.

(** * Further notions: answers a run can digest *)

(** An item every scan can digest: it is an object, its author and actor
    members are absent or objects, so is its commit member and the author
    inside, and when the author's login is a string the commit date is a
    string too. *)
Definition wf_item (item : value) : bool :=
  match author_login item "author", author_login item "actor", commit_date item with
  | Some (VStr _), Some _, Some (VStr _) => true
  | Some (VStr _), Some _, Some _ => false
  | Some _, Some _, Some _ => true
  | _, _, _ => false
  end.

(** A payload is a list of such items, or something falsy. *)
Definition wf_body (b : body) : bool :=
  match b with
  | BArr items => forallb wf_item items
  | BVal v => negb (value_truthy v)
  end.

(** Every payload the remote side hands out is of that kind. *)
Definition well_formed (w : world) (auth : string) : Prop :=
  forall n url b, parsed_payload w n url auth = Some b -> wf_body b = true.

(** Started where [fallback_ready] holds, the command returns, with a
    result that satisfies [Q], where it holds again. *)
Definition returns {A} (m : M A) (Q : A -> Prop) : Prop :=
  forall s, fallback_ready s ->
    exists a s', m s = Ok a s' /\ fallback_ready s' /\ Q a.

(** * Further notions: who leaves the active set *)

(** Whoever has a record is still active or has all three flags. *)
Definition dropped_complete (s : state) : Prop :=
  forall uid r, dict_get uid (user_summary s) = Some r ->
    In uid (user_ids s) \/ all_three r = true.

(** * Further notions: the requests a repository takes *)

(** The requests one repository takes when nothing raises, the first being
    request number [n]: the commits of the default branch, the branch list
    and, unless that list came back empty or could not be fetched, the
    commits of every branch (30 days), the events, and the commits of every
    branch again (90 days). *)
Definition repo_schedule (w : world) (auth org : string) (repo : value) (n : nat)
    : list string :=
  let name := member repo "name" in
  let head :=
    [commits_url w org name (member repo "default_branch")
       (utcnow_minus_days w n 60 ++ "Z");
     branches_url w org name] in
  let branches := answer w (S n) (branches_url w org name) auth in
  if truthy branches then
    let names := map (fun b => member b "name") (py_iter branches) in
    (head
     ++ map (fun b => commits_url w org name b (utcnow_minus_days w (S n) 30 ++ "Z")) names
     ++ [events_url w org name]
     ++ map (fun b => commits_url w org name b
                        (utcnow_minus_days w (n + 3 + List.length names) 90 ++ "Z")) names)%list
  else head.

(** Between [s] and [s'] exactly the requests [urls] were issued. *)
Definition asked (urls : list string) (s s' : state) : Prop :=
  requests (trace s') = (requests (trace s) ++ urls)%list /\
  tick s' = tick s + List.length urls.

(** * Further notions: the error log against the requests *)

(** The requests of [urls] that fail, each with its number, the first of
    [urls] being request number [n]. *)
Fixpoint failed (w : world) (auth : string) (n : nat) (urls : list string)
    : list (nat * string) :=
  match urls with
  | [] => []
  | url :: rest =>
      match parsed_payload w n url auth with
      | Some _ => failed w auth (S n) rest
      | None => (n, url) :: failed w auth (S n) rest
      end
  end.

(** A log line that reports the failure of a numbered request. *)
Definition reports_failure (w : world) (line : string) (f : nat * string) : Prop :=
  exists e, line = failure_line w (S (fst f)) (snd f) e.

(** The log has one line for every failed request, in order. *)
Definition log_faithful (w : world) (auth : string) (s : state) : Prop :=
  tick s = List.length (requests (trace s)) /\
  Forall2 (reports_failure w) (error_log (trace s))
          (failed w auth 0 (requests (trace s))).

(** * Further notions: the evidence behind a record *)

(** What the trace [t] holds in support of the record [r] of [uid]: for
    every flag that is set an item handed back whose author (or actor) is
    [uid], and for the last-push date an item authored by [uid] that
    carries this date. *)
Definition evidence (t : list event) (uid : string) (r : user_record) : Prop :=
  (default_commit r = true ->
     exists item, In item (observed t) /\
                  author_login item "author" = Some (VStr uid)) /\
  (any_commit r = true ->
     exists item, In item (observed t) /\
                  author_login item "author" = Some (VStr uid)) /\
  (any_activity r = true ->
     exists item, In item (observed t) /\
                  author_login item "actor" = Some (VStr uid)) /\
  (last_push_date r <> VNull ->
     exists item, In item (observed t) /\
                  author_login item "author" = Some (VStr uid) /\
                  commit_date item = Some (last_push_date r)).

Definition evidenced (s : state) : Prop :=
  forall uid r, dict_get uid (user_summary s) = Some r -> evidence (trace s) uid r.

(** Started where every record has its evidence and the items [known] have
    been handed back, the command only extends the trace and every record
    has its evidence afterwards. *)
Definition keeps (known : list value) {A} (m : M A) : Prop :=
  forall s, evidenced s -> incl known (observed (trace s)) ->
    evidenced (final_state (m s)) /\
    exists t, trace (final_state (m s)) = (trace s ++ t)%list.

(** Mock data for the concrete runs of this part. *)
Module Probe.

(** A remote side that answers one locator with a throttled 403. *)
Definition throttling (url : string) (reset : Z) : world :=
  Mock.serve [(url, GetResponse (Mock.throttled_answer reset))].

(** A commit as GitHub lists it when the author has no account. *)
Definition orphan_commit : value :=
  VObj [("author", VNull);
        ("commit", VObj [("author", VObj [("date", VStr "2026-10-20T10:00:00Z")])])].

(** One repository whose default branch lists such a commit. *)
Definition orphan : world :=
  Mock.serve
    [(page_url "acme" 1, Mock.ok_json (BArr [Mock.repo_item "site" "main"]));
     (Mock.api ++ "/repos/acme/site/commits?sha=main&since=2026-09-05T12:00:00Z&per_page=100",
      Mock.ok_json (BArr [orphan_commit]))].

(** An answer that fails, or whose payload is well formed. *)
Definition digestible (r : get_result) : bool :=
  match r with
  | GetRaises _ => true
  | GetResponse r =>
      if http_error r then true
      else match json r with
           | Some b => wf_body b
           | None => true
           end
  end.

End Probe.
(** * Reasoning principles *)

(** ** Dictionaries *)

Lemma dict_get_set_same {V} (k : string) (v : V) (d : dict V) :
  dict_get k (dict_set k v d) = Some v.
Proof.
  induction d as [|[k' v'] d IH]; simpl.
  - now rewrite String.eqb_refl.
  - destruct (String.eqb k k') eqn:E; simpl; rewrite ?String.eqb_refl, ?E; auto.
Qed.

Lemma dict_get_set_other {V} (k k' : string) (v : V) (d : dict V) :
  k <> k' -> dict_get k' (dict_set k v d) = dict_get k' d.
Proof.
  intros Hne. induction d as [|[k0 v0] d IH]; simpl.
  - destruct (String.eqb k' k) eqn:E; auto.
    apply String.eqb_eq in E. congruence.
  - destruct (String.eqb k k0) eqn:E; simpl.
    + apply String.eqb_eq in E. subst k0.
      destruct (String.eqb k' k) eqn:E'; auto.
      apply String.eqb_eq in E'. congruence.
    + now rewrite IH.
Qed.

Lemma dict_set_set {V} (k : string) (v1 v2 : V) (d : dict V) :
  dict_set k v2 (dict_set k v1 d) = dict_set k v2 d.
Proof.
  induction d as [|[k' v'] d IH]; simpl.
  - now rewrite String.eqb_refl.
  - destruct (String.eqb k k') eqn:E; simpl; rewrite ?String.eqb_refl, ?E; auto.
    now rewrite IH.
Qed.

Lemma dict_set_keys {V} (k : string) (v v0 : V) (d : dict V) :
  dict_get k d = Some v0 -> map fst (dict_set k v d) = map fst d.
Proof.
  induction d as [|[k' v'] d IH]; simpl; [discriminate|].
  destruct (String.eqb k k') eqn:E; simpl.
  - apply String.eqb_eq in E. now subst.
  - intros H. now rewrite IH.
Qed.

Lemma existsb_eqb_In (x : string) (l : list string) :
  existsb (String.eqb x) l = true <-> In x l.
Proof.
  rewrite existsb_exists. split.
  - intros [y [Hy E]]. apply String.eqb_eq in E. now subst.
  - intros H. exists x. split; auto. apply String.eqb_refl.
Qed.

Lemma append_nonempty (a b : string) (c : ascii) : a ++ String c b <> "".
Proof. destruct a; discriminate. Qed.

(** Case analysis on every [match] a straight-line command goes through. *)
Ltac crush_step :=
  repeat (simpl in *;
    match goal with
    | |- context [match ?x with _ => _ end] =>
        lazymatch x with
        | context [match _ with _ => _ end] => fail
        | _ => destruct x eqn:?
        end
    end); simpl in *.

Ltac unfold_step :=
  unfold default_commit_step, any_commit_step, event_step, fallback_step,
    still_lacks, login_of, summary_update, summary_get, bind, gets, modify,
    ret, raise, py_get, get_member, py_gt.

Ltac one_update uid r r' :=
  right; exists uid, r, r'; split; [|split; [|split]];
  [ now apply existsb_eqb_In | assumption | | now rewrite ?dict_set_set ].

Lemma updates_weaken (P Q : user_record -> user_record -> Prop) (s s' : state) :
  (forall r r', P r r' -> Q r r') -> updates P s s' -> updates Q s s'.
Proof.
  intros H [->|(uid & r & r' & H1 & H2 & H3 & H4)]; [now left|].
  right. exists uid, r, r'. auto.
Qed.

Lemma default_commit_step_exact (k : string) (c : value) (s : state) :
  updates (default_hit k) s (final_state (default_commit_step k c s)).
Proof.
  unfold_step. crush_step; try (now left).
  all: rewrite ?dict_get_set_same in *; try discriminate.
  repeat match goal with H : Some _ = Some _ |- _ => inversion H; subst; clear H end.
  one_update s0 u (set_default_commit_source k (set_default_commit u)).
  split; auto. now apply negb_true_iff.
Qed.

Lemma any_commit_step_exact (w : world) (k : string) (b c : value) (s : state) :
  updates (any_commit_hit (k ++ "@" ++ py_str w b)) s
    (final_state (any_commit_step w k b c s)).
Proof.
  unfold_step. crush_step; try (now left).
  all: rewrite ?dict_get_set_same in *; try discriminate.
  all: repeat match goal with H : Some _ = Some _ |- _ => inversion H; subst; clear H end.
  match goal with
  | H : dict_get ?uid (user_summary _) = Some ?u |- _ =>
      one_update uid u (set_any_commit_source (k ++ "@" ++ py_str w b) (set_any_commit u))
  end.
  split; auto. now apply negb_true_iff.
Qed.

Lemma event_step_exact (w : world) (k : string) (ev : value) (s : state) :
  updates (any_activity_hit k) s (final_state (event_step w k ev s)).
Proof.
  unfold_step. crush_step; try (now left).
  all: rewrite ?dict_get_set_same in *; try discriminate.
  all: repeat match goal with H : Some _ = Some _ |- _ => inversion H; subst; clear H end.
  all: match goal with
       | H : dict_get ?uid (user_summary _) = Some ?u
         |- context [set_any_activity_source ?src _] =>
           one_update uid u (set_any_activity_source src (set_any_activity u))
       end.
  all: split; [now apply negb_true_iff|].
  all: eexists; reflexivity.
Qed.

Lemma fallback_step_exact (c : value) (s : state) :
  updates last_push_hit s (final_state (fallback_step c s)).
Proof.
  unfold_step. crush_step; try (now left).
  all: repeat match goal with H : Some _ = Some _ |- _ => inversion H; subst; clear H end.
  all: match goal with
       | H : dict_get ?uid (user_summary _) = Some ?u |- context [set_last_push_date ?d _] =>
           one_update uid u (set_last_push_date d u)
       end.
  all: split; [now apply negb_true_iff|eexists; reflexivity].
Qed.

Lemma default_commit_step_update (k : string) (c : value) (s : state) :
  k <> "" -> record_update s (final_state (default_commit_step k c s)).
Proof.
  intros Hk. eapply updates_weaken; [|apply default_commit_step_exact].
  intros r r' [F ->]. now constructor.
Qed.

Lemma any_commit_step_update (w : world) (k : string) (b c : value) (s : state) :
  record_update s (final_state (any_commit_step w k b c s)).
Proof.
  eapply updates_weaken; [|apply any_commit_step_exact].
  intros r r' [F ->]. constructor; auto. apply append_nonempty.
Qed.

Lemma event_step_update (w : world) (k : string) (ev : value) (s : state) :
  record_update s (final_state (event_step w k ev s)).
Proof.
  eapply updates_weaken; [|apply event_step_exact].
  intros r r' [F [ty ->]]. constructor; auto. apply append_nonempty.
Qed.

Lemma fallback_step_update (c : value) (s : state) :
  record_update s (final_state (fallback_step c s)).
Proof.
  eapply updates_weaken; [|apply fallback_step_exact].
  intros r r' [F [d ->]]. now constructor.
Qed.

Lemma still_missing_spec (uids : list string) (s : state) :
  match still_missing uids s with
  | Ok kept s' => s' = s /\ kept = filter (missing_some (user_summary s)) uids
  | Raise _ s' => s' = s
  | OutOfFuel _ => False
  end.
Proof.
  induction uids as [|u us IH]; simpl.
  - now split.
  - unfold bind, summary_get, missing_some.
    destruct (dict_get u (user_summary s)) as [r|] eqn:E; auto.
    destruct (still_missing us s) as [kept s'|e s'|s']; auto.
    destruct IH as [-> ->]. unfold ret. split; auto.
    now destruct (all_three r).
Qed.

Lemma narrow_user_ids_spec (s : state) :
  narrow_user_ids s =
    Ok tt (with_user_ids (filter (missing_some (user_summary s)) (user_ids s)) s)
  \/ exists e, narrow_user_ids s = Raise e s.
Proof.
  unfold narrow_user_ids, bind, gets, modify.
  pose proof (still_missing_spec (user_ids s) s) as H.
  destruct (still_missing (user_ids s) s) as [kept s'|e s'|s']; simpl.
  - destruct H as [-> ->]. now left.
  - subst. right. now exists e.
  - contradiction.
Qed.

(** ** Relations kept by every command of a program *)

Section Preserve.
Variable R : state -> state -> Prop.
Hypothesis R_refl : forall s, R s s.
Hypothesis R_trans : forall a b c, R a b -> R b c -> R a c.

Lemma preserves_ret {A} (a : A) : preserves R (ret a).
Proof. intros s. apply R_refl. Qed.

Lemma preserves_raise {A} (e : exn) : preserves R (@raise A e).
Proof. intros s. apply R_refl. Qed.

Lemma preserves_gets {A} (f : state -> A) : preserves R (gets f).
Proof. intros s. apply R_refl. Qed.

Lemma preserves_out_of_fuel {A} : preserves R (fun s => @OutOfFuel A s).
Proof. intros s. apply R_refl. Qed.

Lemma preserves_bind {A B} (m : M A) (k : A -> M B) :
  preserves R m -> (forall a, preserves R (k a)) -> preserves R (bind m k).
Proof.
  intros Hm Hk s. unfold bind. specialize (Hm s).
  destruct (m s) as [a s'| |]; simpl in *; auto.
  eapply R_trans; [exact Hm | apply Hk].
Qed.

Lemma preserves_try {A} (m : M A) (h : exn -> M A) :
  preserves R m -> (forall e, preserves R (h e)) -> preserves R (try_except m h).
Proof.
  intros Hm Hh s. unfold try_except. specialize (Hm s).
  destruct (m s) as [a s'|e s'|s']; simpl in *; auto.
  eapply R_trans; [exact Hm | apply Hh].
Qed.

Lemma preserves_when (b : bool) (m : M unit) :
  preserves R m -> preserves R (when b m).
Proof. destruct b; simpl; auto using preserves_ret. Qed.

Lemma preserves_for_each {A} (xs : list A) (f : A -> M unit) :
  (forall x, preserves R (f x)) -> preserves R (for_each xs f).
Proof.
  intros Hf. induction xs as [|x xs IH]; simpl.
  - apply preserves_ret.
  - apply preserves_bind; auto.
Qed.

Lemma preserves_for_repos (f : value -> M control) (repos : list value) :
  (forall x, preserves R (f x)) -> preserves R (for_repos f repos).
Proof.
  intros Hf. induction repos as [|x xs IH]; simpl.
  - apply preserves_ret.
  - apply preserves_bind; auto. intros [|]; auto using preserves_ret.
Qed.

Lemma preserves_modify (f : state -> state) :
  (forall s, R s (f s)) -> preserves R (modify f).
Proof. intros H s. apply H. Qed.

Lemma preserves_py_get (v : value) (k : string) (d : value) :
  preserves R (py_get v k d).
Proof. destruct v; simpl; auto using preserves_ret, preserves_raise. Qed.

Lemma preserves_py_len (b : body) : preserves R (py_len b).
Proof. destruct b as [|[| |]]; simpl; auto using preserves_ret, preserves_raise. Qed.

Lemma preserves_py_int (h : header_value) : preserves R (py_int h).
Proof. destruct h; simpl; auto using preserves_ret, preserves_raise. Qed.

Lemma preserves_header_lookup (n : string) (h : option header_value) :
  preserves R (header_lookup n h).
Proof. destruct h; simpl; auto using preserves_ret, preserves_raise. Qed.

Lemma preserves_summary_get (k : value) : preserves R (summary_get k).
Proof.
  intros s. unfold summary_get.
  destruct k; simpl; auto. destruct (dict_get _ _); simpl; auto.
Qed.

(** What remains to be shown for a particular relation: the commands that
    change the state.  Requests are let through for the locators in
    [get_ok] only. *)
Variable get_ok : string -> Prop.
Hypothesis R_emit :
  forall s e, (forall u, e <> EGet u) -> R s (emit e s).
Hypothesis R_get :
  forall s url, get_ok url ->
    R s (with_io (S (tick s)) (trace s ++ [EGet url]) s).

Lemma preserves_emit (f : state -> event) :
  (forall s u, f s <> EGet u) -> preserves R (modify (fun s => emit (f s) s)).
Proof. intros H. apply preserves_modify. intros s. apply R_emit. apply H. Qed.

Lemma preserves_log_error (w : world) (msg : string) : preserves R (log_error w msg).
Proof. intros s. apply R_emit. discriminate. Qed.

Lemma preserves_time_sleep (z : Z) : preserves R (time_sleep z).
Proof.
  intros s. unfold time_sleep.
  destruct (_ || _); simpl; auto. destruct (z <? 0)%Z; simpl; auto.
  apply R_emit. discriminate.
Qed.

Lemma preserves_http_get (w : world) (url auth : string) :
  get_ok url -> preserves R (http_get w url auth).
Proof.
  intros H s. unfold http_get.
  destruct (session_get _ _ _ _); simpl; now apply R_get.
Qed.

Lemma preserves_rate_limit_guard (w : world) (r : response) :
  preserves R (rate_limit_guard w r).
Proof.
  unfold rate_limit_guard.
  destruct (_ && _); [|apply preserves_ret].
  apply preserves_bind; [apply preserves_header_lookup|intros h].
  apply preserves_bind; [apply preserves_py_int|intros z].
  destruct (z =? 0)%Z; [|apply preserves_ret].
  apply preserves_bind; [apply preserves_header_lookup|intros h'].
  apply preserves_bind; [apply preserves_py_int|intros z'].
  apply preserves_bind; [apply preserves_gets|intros now].
  apply preserves_time_sleep.
Qed.

Lemma preserves_github_request (w : world) (url auth : string) :
  get_ok url -> preserves R (github_request w url auth).
Proof.
  intros Hurl. unfold github_request.
  apply preserves_bind.
  - apply preserves_try.
    + apply preserves_bind; [now apply preserves_http_get|intros r].
      apply preserves_bind; [apply preserves_rate_limit_guard|intros _].
      apply preserves_bind.
      * unfold raise_for_status.
        destruct (http_error r); auto using preserves_ret, preserves_raise.
      * intros _. unfold response_json.
        destruct (json r); auto using preserves_ret, preserves_raise.
    + intros e. apply preserves_bind; [apply preserves_gets|intros n].
      apply preserves_bind; [apply preserves_log_error|intros _].
      apply preserves_ret.
  - intros b. apply preserves_bind; [|intros _; apply preserves_ret].
    apply (preserves_emit (fun _ => EReturn b)). discriminate.
Qed.

Hypothesis R_cache : forall s c, R s (with_cache c s).
Hypothesis R_audit :
  forall s e, R s (with_repo_audit (repo_audit s ++ [e]) s).
Hypothesis R_default :
  forall k c, k <> "" -> preserves R (default_commit_step k c).
Hypothesis R_any_commit : forall w k b c, preserves R (any_commit_step w k b c).
Hypothesis R_event : forall w k e, preserves R (event_step w k e).
Hypothesis R_fallback : forall c, preserves R (fallback_step c).
Hypothesis R_narrow :
  forall s,
    R s (with_user_ids (filter (missing_some (user_summary s)) (user_ids s)) s).
Hypothesis get_ok_repo :
  forall rest, get_ok (GITHUB_API ++ "/repos/" ++ rest).

Lemma preserves_scan_branches_recent w auth org repo_name repo_key since_30 branches :
  preserves R (scan_branches_recent w auth org repo_name repo_key since_30 branches).
Proof.
  apply preserves_for_each. intros branch.
  apply preserves_bind; [apply preserves_py_get|intros name].
  apply preserves_bind; [apply preserves_github_request, get_ok_repo|intros b].
  apply preserves_when, preserves_for_each. intros c. apply R_any_commit.
Qed.

Lemma preserves_scan_events w auth org repo_name repo_key :
  preserves R (scan_events w auth org repo_name repo_key).
Proof.
  apply preserves_bind; [apply preserves_github_request, get_ok_repo|intros b].
  apply preserves_when, preserves_for_each. intros c. apply R_event.
Qed.

Lemma preserves_scan_fallback w auth org repo_name branches :
  preserves R (scan_fallback w auth org repo_name branches).
Proof.
  apply preserves_bind; [apply preserves_gets|intros since].
  apply preserves_for_each. intros branch.
  apply preserves_bind; [apply preserves_py_get|intros name].
  apply preserves_bind; [apply preserves_github_request, get_ok_repo|intros b].
  apply preserves_when, preserves_for_each. intros c. apply R_fallback.
Qed.

Lemma preserves_narrow_user_ids : preserves R narrow_user_ids.
Proof.
  intros s. destruct (narrow_user_ids_spec s) as [H|[e H]]; rewrite H; simpl; auto.
Qed.

Lemma preserves_repo_begin w auth org repo :
  preserves R (repo_begin w auth org repo).
Proof.
  unfold repo_begin.
  apply preserves_bind; [apply preserves_py_get|intros repo_name].
  apply preserves_bind; [apply preserves_py_get|intros full_name].
  apply preserves_bind; [apply preserves_py_get|intros default_branch].
  apply preserves_bind.
  { apply preserves_modify. intros s. destruct (dict_mem _ _); auto. }
  intros _. apply preserves_bind; [apply preserves_modify; auto|intros _].
  apply preserves_bind; [apply preserves_gets|intros since_60].
  apply preserves_bind; [apply preserves_github_request, get_ok_repo|intros b].
  apply preserves_bind.
  { apply preserves_when, preserves_for_each. intros c.
    apply R_default, append_nonempty. }
  intros _. apply preserves_bind; [apply preserves_gets|intros since_30].
  apply preserves_bind; [apply preserves_github_request, get_ok_repo|intros b'].
  apply preserves_ret.
Qed.

Lemma preserves_repo_finish w auth org repo_name repo_key since_30 branches :
  preserves R (repo_finish w auth org repo_name repo_key since_30 branches).
Proof.
  unfold repo_finish.
  apply preserves_bind; [apply preserves_scan_branches_recent|intros _].
  apply preserves_bind; [apply preserves_scan_events|intros _].
  apply preserves_bind; [apply preserves_scan_fallback|intros _].
  apply preserves_bind.
  { apply (preserves_emit (fun s => ESaveCache (cache s))). discriminate. }
  intros _. apply preserves_bind; [apply preserves_narrow_user_ids|intros _].
  apply preserves_bind; [apply preserves_gets|intros [|u us]]; apply preserves_ret.
Qed.

Lemma preserves_process_repo w auth org repo :
  preserves R (process_repo w auth org repo).
Proof.
  unfold process_repo.
  apply preserves_bind; [apply preserves_repo_begin|].
  intros [[[repo_name repo_key] since_30] branches].
  destruct (negb (truthy branches)); [apply preserves_ret|].
  apply preserves_repo_finish.
Qed.

Hypothesis get_ok_page : forall org page, get_ok (page_url org page).

Lemma preserves_page_loop fuel w auth org page :
  preserves R (page_loop fuel w auth org page).
Proof.
  revert page. induction fuel as [|fuel IH]; intros page; simpl.
  - apply preserves_out_of_fuel.
  - apply preserves_bind; [apply preserves_github_request, get_ok_page|intros repos].
    destruct (negb (truthy repos)); [apply preserves_ret|].
    apply preserves_bind; [apply preserves_py_len|intros n].
    destruct (Nat.eqb n 0); [apply preserves_ret|].
    apply preserves_bind.
    { apply preserves_for_repos. intros r. apply preserves_process_repo. }
    intros _. apply preserves_bind; [apply preserves_gets|intros [|u us]].
    + apply preserves_ret.
    + apply IH.
Qed.

Lemma preserves_scan_orgs fuel w auth orgs :
  preserves R (scan_orgs fuel w auth orgs).
Proof. apply preserves_for_each. intros org. apply preserves_page_loop. Qed.
End Preserve.

(** A relation that holds across every record update holds across every
    iteration of the four scans. *)
Section RecordRelation.
Variable R : state -> state -> Prop.
Hypothesis R_record : forall s s', record_update s s' -> R s s'.

Lemma record_relation_default k c :
  k <> "" -> preserves R (default_commit_step k c).
Proof. intros Hk s. now apply R_record, default_commit_step_update. Qed.

Lemma record_relation_any_commit w k b c : preserves R (any_commit_step w k b c).
Proof. intros s. apply R_record, any_commit_step_update. Qed.

Lemma record_relation_event w k e : preserves R (event_step w k e).
Proof. intros s. apply R_record, event_step_update. Qed.

Lemma record_relation_fallback c : preserves R (fallback_step c).
Proof. intros s. apply R_record, fallback_step_update. Qed.
End RecordRelation.

Ltac record_relation H :=
  first [ apply record_relation_default; exact H
        | apply record_relation_any_commit; exact H
        | apply record_relation_event; exact H
        | apply record_relation_fallback; exact H ].

(** ** Views of the trace *)

Lemma sleeps_app (t1 t2 : list event) :
  sleeps (t1 ++ t2) = (sleeps t1 ++ sleeps t2)%list.
Proof. apply flat_map_app. Qed.

Lemma requests_app (t1 t2 : list event) :
  requests (t1 ++ t2) = (requests t1 ++ requests t2)%list.
Proof. apply flat_map_app. Qed.

Lemma saves_app (t1 t2 : list event) :
  saves (t1 ++ t2) = (saves t1 ++ saves t2)%list.
Proof. apply flat_map_app. Qed.

Lemma observed_app (t1 t2 : list event) :
  observed (t1 ++ t2) = (observed t1 ++ observed t2)%list.
Proof. apply flat_map_app. Qed.

Lemma quiet_views (t : list event) :
  Forall quiet t -> requests t = [] /\ saves t = [] /\ observed t = [].
Proof.
  induction 1 as [|e t He _ IH]; [now repeat split|].
  destruct IH as (H1 & H2 & H3).
  destruct e; simpl in *; try contradiction; now repeat split.
Qed.

(** * The rate-limited fetcher *)

Local Arguments String.append : simpl never.

Ltac fetched b t :=
  exists b, t; split;
  [ unfold log_error, modify, ret, emit, with_io; simpl;
    rewrite <- ?app_assoc; reflexivity
  | split; [ repeat constructor
    | split; [ try (split; [reflexivity|eexists; reflexivity]); try (now split)
             | try reflexivity; try exact I;
               try (match goal with |- if ?c then _ else _ => destruct c end;
                    [exact I|reflexivity]) ] ] ].

Ltac fetched_auto :=
  match goal with
  | |- context [emit (EReturn ?b) (emit (ELogError ?l) (emit (ESleep ?z) _))] =>
      fetched b [ESleep z; ELogError l]
  | |- context [emit (EReturn ?b) (emit (ELogError ?l) _)] =>
      fetched b [ELogError l]
  | |- context [emit (EReturn ?b) _] => fetched b (@nil event)
  end.

(** Every call of the fetcher returns; what it leaves in the trace is the
    request, at most one sleep, at most one log line, and the payload. *)
Lemma github_request_spec (w : world) (url auth : string) (s : state) :
  exists b t,
    github_request w url auth s
      = Ok b (with_io (S (tick s)) (trace s ++ EGet url :: t ++ [EReturn b]) s) /\
    Forall quiet t /\
    match parsed_payload w (tick s) url auth with
    | Some p => b = p /\ t = []
    | None =>
        b = py_None /\
        exists e, error_log t = [failure_line w (S (tick s)) url e]
    end /\
    if throttled w (tick s) url auth then True else sleeps t = [].
Proof.
  unfold github_request, try_except, bind, http_get, parsed_payload, throttled.
  destruct (session_get w (tick s) url auth) as [e|r] eqn:Eget.
  - unfold log_error, modify, ret, gets. fetched_auto.
  - unfold rate_limit_guard, bind, header_lookup, py_int, gets, time_sleep,
      raise_for_status, response_json, log_error, modify, ret, raise, http_error.
    destruct r as [st rem rst js]; simpl.
    destruct (st =? 403)%Z eqn:E403.
    + apply Z.eqb_eq in E403. subst st. simpl.
      destruct rem as [[z|]|]; simpl; [destruct (z =? 0)%Z; simpl| |];
        [destruct rst as [[z'|]|]; simpl;
           [destruct (_ || _); simpl;
              [|destruct (z' - time_time w (S (tick s)) + 1 <? 0)%Z; simpl]| |]| | |];
        fetched_auto.
    + simpl. destruct ((400 <=? st)%Z && (st <? 600)%Z); simpl;
        [|destruct js as [p|]; simpl]; fetched_auto.
Qed.


(** The guard, for a throttled answer with no quota left. *)
Lemma rate_limit_guard_throttled (w : world) (r : response) (s : state) (reset : Z) :
  status_code r = 403%Z ->
  x_ratelimit_remaining r = Some (HInt 0) ->
  x_ratelimit_reset r = Some (HInt reset) ->
  rate_limit_guard w r s = time_sleep (reset - time_time w (tick s) + 1) s.
Proof.
  intros H1 H2 H3. unfold rate_limit_guard. rewrite H1, H2, H3. reflexivity.
Qed.

(** C4, as the code has it.  For a 403 answer with zero remaining quota the
    guard sleeps [reset - now + 1] seconds; with [reset = now + 5] that is
    6 seconds, one more than the distance to the reset. *)
Theorem rate_limit_guard_sleeps_six (w : world) (r : response) (s : state) :
  status_code r = 403%Z ->
  x_ratelimit_remaining r = Some (HInt 0) ->
  x_ratelimit_reset r = Some (HInt (time_time w (tick s) + 5)) ->
  rate_limit_guard w r s = Ok tt (emit (ESleep 6) s) /\
  sleeps (trace (final_state (rate_limit_guard w r s))) = (sleeps (trace s) ++ [6%Z])%list.
Proof.
  intros H1 H2 H3.
  rewrite (rate_limit_guard_throttled w r s _ H1 H2 H3).
  replace (time_time w (tick s) + 5 - time_time w (tick s) + 1)%Z with 6%Z by lia.
  change (time_sleep 6 s) with (Ok tt (emit (ESleep 6) s)).
  simpl. split; auto. now rewrite sleeps_app.
Qed.

Lemma rate_limit_guard_sleeps_six_witness :
  let w := Mock.serve [] in
  let r := Mock.throttled_answer 1005 in
  status_code r = 403%Z /\
  x_ratelimit_remaining r = Some (HInt 0) /\
  x_ratelimit_reset r = Some (HInt (time_time w (tick start) + 5)) /\
  rate_limit_guard w r start = Ok tt (emit (ESleep 6) start).
Proof.
  intros w r. do 3 (split; [reflexivity|]).
  exact (proj1 (rate_limit_guard_sleeps_six w r start eq_refl eq_refl eq_refl)).
Defined.

(** C4 as stated fails: with the reset five seconds away the guard does not
    sleep for less than six seconds. *)
Lemma guard_sleep_not_below_six :
  ~ (forall w r s,
       status_code r = 403%Z ->
       x_ratelimit_remaining r = Some (HInt 0) ->
       x_ratelimit_reset r = Some (HInt (time_time w (tick s) + 5)) ->
       exists seconds,
         rate_limit_guard w r s = Ok tt (emit (ESleep seconds) s) /\
         (5 <= seconds < 6)%Z).
Proof.
  intros H.
  destruct (H (Mock.serve []) (Mock.throttled_answer 1005) start
              eq_refl eq_refl eq_refl) as (z & E & Hz).
  vm_compute in E. inversion E. lia.
Qed.

(** * The run as a whole *)

Lemma check_user_activity_unfold fuel w file token orgs uids :
  check_user_activity fuel w file token orgs uids =
    match file with
    | FileCorrupt => Raise JSONDecodeError start
    | NoFile =>
        (scan_orgs fuel w ("token " ++ token) orgs ;;; write_report) (loaded [] uids)
    | FileJson c =>
        (scan_orgs fuel w ("token " ++ token) orgs ;;; write_report) (loaded c uids)
    end.
Proof. destruct file; reflexivity. Qed.


Lemma init_user_summary_records (uids : list string) (uid : string) (r : user_record) :
  dict_get uid (init_user_summary uids) = Some r -> r = initial_record.
Proof.
  unfold init_user_summary.
  assert (G : forall acc,
             (forall r0, dict_get uid acc = Some r0 -> r0 = initial_record) ->
             forall r0,
               dict_get uid (fold_left (fun d u => dict_set u initial_record d) uids acc)
                 = Some r0 -> r0 = initial_record).
  { induction uids as [|u us IH]; simpl; intros acc Hacc r0 H; [now apply Hacc|].
    apply (IH (dict_set u initial_record acc)); auto.
    intros r1. destruct (string_dec u uid) as [->|Hne].
    - rewrite dict_get_set_same. congruence.
    - rewrite dict_get_set_other by assumption. apply Hacc. }
  apply G. simpl. discriminate.
Qed.

(** * First match wins (C5) *)











(** * The active-user set (C6) *)

Lemma filter_all {A} (l : list A) : filter (fun _ => true) l = l.
Proof. induction l; simpl; congruence. Qed.

Lemma filter_twice {A} (f g : A -> bool) (l : list A) :
  filter g (filter f l) = filter (fun x => f x && g x) l.
Proof.
  induction l as [|x l IH]; simpl; auto.
  destruct (f x); simpl; [destruct (g x)|]; simpl; congruence.
Qed.

Lemma only_narrows_same (s s' : state) :
  user_ids s' = user_ids s -> user_summary s' = user_summary s ->
  only_narrows s s'.
Proof.
  intros Hi Hs. split.
  - exists (fun _ => true). now rewrite filter_all.
  - intros uid r [H _]. now rewrite Hs.
Qed.

Lemma only_narrows_trans (a b c : state) :
  only_narrows a b -> only_narrows b c -> only_narrows a c.
Proof.
  intros [[f Hf] Hab] [[g Hg] Hbc]. split.
  - exists (fun x => f x && g x). now rewrite Hg, Hf, filter_twice.
  - intros uid r [Hget Hs]. apply Hbc. split.
    + apply Hab. now split.
    + destruct Hs as [Hs|Hs]; auto. right. rewrite Hf. intros Hin.
      apply filter_In in Hin. tauto.
Qed.

Lemma record_step_unsettled (r r' : user_record) :
  record_step r r' -> all_three r = false.
Proof.
  unfold all_three.
  destruct 1 as [r src F _|r src F _|r src F _|r d F]; rewrite F;
    destruct (default_commit r), (any_commit r), (any_activity r);
    reflexivity || discriminate.
Qed.

Lemma only_narrows_record (s s' : state) :
  record_update s s' -> only_narrows s s'.
Proof.
  intros [->|(uid & r & r' & Hin & Hget & Hstep & ->)].
  - now apply only_narrows_same.
  - split.
    + exists (fun _ => true). simpl. now rewrite filter_all.
    + intros u ru [Hu Hs]. simpl.
      destruct (string_dec uid u) as [<-|Hne].
      * exfalso. destruct Hs as [Hs|Hs]; [|contradiction].
        apply record_step_unsettled in Hstep. congruence.
      * now rewrite dict_get_set_other.
Qed.

Lemma only_narrows_narrow (s : state) :
  only_narrows s
    (with_user_ids (filter (missing_some (user_summary s)) (user_ids s)) s).
Proof.
  split.
  - now exists (missing_some (user_summary s)).
  - intros uid r [H _]. exact H.
Qed.

Ltac same_state := intros; apply only_narrows_same; reflexivity.

Lemma only_narrows_process_repo w auth org repo :
  preserves only_narrows (process_repo w auth org repo).
Proof.
  apply preserves_process_repo with (get_ok := fun _ => True); auto;
    try apply only_narrows_trans; try record_relation only_narrows_record;
    try apply only_narrows_narrow; now same_state.
Qed.

Lemma only_narrows_page_loop fuel w auth org page :
  preserves only_narrows (page_loop fuel w auth org page).
Proof.
  apply preserves_page_loop with (get_ok := fun _ => True); auto;
    try apply only_narrows_trans; try record_relation only_narrows_record;
    try apply only_narrows_narrow; now same_state.
Qed.

Lemma only_narrows_scan_orgs fuel w auth orgs :
  preserves only_narrows (scan_orgs fuel w auth orgs).
Proof.
  apply preserves_scan_orgs with (get_ok := fun _ => True); auto;
    try apply only_narrows_trans; try record_relation only_narrows_record;
    try apply only_narrows_narrow; now same_state.
Qed.

Lemma all_three_flags (r : user_record) :
  all_three r = true ->
  default_commit r = true /\ any_commit r = true /\ any_activity r = true.
Proof.
  unfold all_three. intros H.
  apply andb_true_iff in H. destruct H as [H H3].
  apply andb_true_iff in H. tauto.
Qed.

Lemma settled_fails_test (flag : user_record -> bool) (s : state) (uid : string)
    (r : user_record) :
  dict_get uid (user_summary s) = Some r ->
  flag r = true \/ ~ In uid (user_ids s) ->
  still_lacks flag (VStr uid) s = Ok false s.
Proof.
  intros Hget Hs. unfold still_lacks, bind, gets, summary_get, ret. simpl.
  destruct (existsb (String.eqb uid) (user_ids s)) eqn:E; auto.
  rewrite Hget. destruct Hs as [->|Hs]; auto.
  apply existsb_eqb_In in E. contradiction.
Qed.

Lemma only_narrows_narrowing (s s' : state) :
  only_narrows s s' -> narrowing s s'.
Proof.
  intros [[keep Hk] Hfrozen]. unfold narrowing. rewrite Hk.
  split; [apply filter_length_le|]. split; [apply incl_filter|].
  intros uid r Hs. pose proof (Hfrozen uid r Hs) as Hget.
  assert (Hs' : all_three r = true \/ ~ In uid (filter keep (user_ids s))).
  { destruct Hs as [_ [Hs|Hs]]; auto. right. intros Hin.
    apply filter_In in Hin. tauto. }
  rewrite <- Hk in Hs'.
  split; auto.
  split; [|split]; apply settled_fails_test with r; auto;
    (destruct Hs' as [Hs'|Hs']; [left; apply all_three_flags in Hs'; tauto|now right]).
Qed.

(** C6.  Across the processing of a repository, the page loop of an
    organization and the whole organization loop, whatever their outcome:
    the active-user set does not grow and gains no member; the record of a
    user who has all three flags, or who has left the set, is left as it
    was; and such a user fails the test of every match site afterwards. *)
Theorem active_set_only_shrinks (w : world) (fuel : nat) (auth : string) :
  (forall org repo, preserves narrowing (process_repo w auth org repo)) /\
  (forall org page, preserves narrowing (page_loop fuel w auth org page)) /\
  (forall orgs, preserves narrowing (scan_orgs fuel w auth orgs)).
Proof.
  split; [|split]; intros; intros s; apply only_narrows_narrowing.
  - apply only_narrows_process_repo.
  - apply only_narrows_page_loop.
  - apply only_narrows_scan_orgs.
Qed.

(** * One repository *)

Lemma updates_summary_only (P : user_record -> user_record -> Prop) (s s' : state) :
  updates P s s' -> summary_only s s'.
Proof.
  intros [->|(uid & r & r' & _ & _ & _ & ->)]; unfold summary_only.
  - now destruct s.
  - reflexivity.
Qed.

Lemma summary_only_refl (s : state) : summary_only s s.
Proof. unfold summary_only. now destruct s. Qed.

Lemma summary_only_trans (a b c : state) :
  summary_only a b -> summary_only b c -> summary_only a c.
Proof. unfold summary_only. intros H1 H2. rewrite H2, H1. reflexivity. Qed.

Lemma only_default_flags_refl (s : state) : only_default_flags s s.
Proof.
  intros uid. destruct (dict_get uid (user_summary s)); auto.
  repeat split.
Qed.

Lemma only_default_flags_trans (a b c : state) :
  only_default_flags a b -> only_default_flags b c -> only_default_flags a c.
Proof.
  intros Hab Hbc uid. specialize (Hab uid). specialize (Hbc uid).
  destruct (dict_get uid (user_summary a)) as [ra|],
           (dict_get uid (user_summary b)) as [rb|],
           (dict_get uid (user_summary c)) as [rc|]; try tauto.
  unfold off_default_same in *.
  destruct Hab as (A1 & A2 & A3 & A4 & A5), Hbc as (B1 & B2 & B3 & B4 & B5).
  repeat split; congruence.
Qed.

Lemma default_scan_frame_step (k : string) (c : value) :
  preserves default_scan_frame (default_commit_step k c).
Proof.
  intros s. pose proof (default_commit_step_exact k c s) as H.
  split; [eapply updates_summary_only; eassumption|].
  destruct H as [->|(uid & r & r' & _ & Hget & [F ->] & ->)].
  - apply only_default_flags_refl.
  - intros u. simpl. destruct (string_dec uid u) as [<-|Hne].
    + rewrite Hget, dict_get_set_same. repeat split.
    + rewrite dict_get_set_other by assumption.
      destruct (dict_get u (user_summary s)); auto. repeat split.
Qed.

Lemma default_scan_frame_loop (k : string) (b : body) :
  preserves default_scan_frame
    (when (truthy b) (for_each (py_iter b) (default_commit_step k))).
Proof.
  assert (Hr : forall s, default_scan_frame s s).
  { intros s. split; [apply summary_only_refl|apply only_default_flags_refl]. }
  assert (Ht : forall a b c, default_scan_frame a b -> default_scan_frame b c ->
                             default_scan_frame a c).
  { intros x y z [A1 A2] [B1 B2].
    split; [eapply summary_only_trans|eapply only_default_flags_trans]; eassumption. }
  apply preserves_when; auto. apply preserves_for_each; auto.
  intros c. apply default_scan_frame_step.
Qed.

Lemma summary_only_fields (s s' : state) :
  summary_only s s' ->
  tick s' = tick s /\ trace s' = trace s /\ cache s' = cache s /\
  user_ids s' = user_ids s /\ repo_audit s' = repo_audit s.
Proof.
  intros H. repeat split.
  - exact (f_equal tick H).
  - exact (f_equal trace H).
  - exact (f_equal cache H).
  - exact (f_equal user_ids H).
  - exact (f_equal repo_audit H).
Qed.

(** The first half of a repository visit, when it gets as far as the
    answer to the branch-list request. *)
Lemma repo_begin_spec w auth org repo s repo_name repo_key since_30 branches s1 :
  repo_begin w auth org repo s = Ok (repo_name, repo_key, since_30, branches) s1 ->
  exists default_branch b1 t1 t2,
    repo_key = org ++ "/" ++ py_str w repo_name /\
    Forall quiet t1 /\ Forall quiet t2 /\
    trace s1 =
      (trace s
       ++ (EGet (commits_url w org repo_name default_branch
                   (utcnow_minus_days w (tick s) 60 ++ "Z")) :: t1 ++ [EReturn b1])
       ++ (EGet (branches_url w org repo_name) :: t2 ++ [EReturn branches]))%list /\
    tick s1 = S (S (tick s)) /\
    cache s1 = (if dict_mem repo_key (cache s) then cache s
                else dict_set repo_key (VObj []) (cache s)) /\
    repo_audit s1 = (repo_audit s ++ [mkAudit repo_key default_branch])%list /\
    user_ids s1 = user_ids s /\
    only_default_flags s s1.
Proof.
  unfold repo_begin. destruct repo as [| |members]; try discriminate.
  unfold py_get at 1 2 3. unfold get_member. unfold bind at 1 2 3.
  unfold ret at 1 2 3.
  set (name := match dict_get "name" members with Some x => x | None => VNull end).
  set (dbranch :=
         match dict_get "default_branch" members with Some x => x | None => VNull end).
  unfold cache_touch, since_days, modify, gets, bind.
  set (sa := with_repo_audit _ _).
  destruct (github_request_spec w
              (commits_url w org name dbranch (utcnow_minus_days w (tick sa) 60 ++ "Z"))
              auth sa) as (b1 & t1 & E1 & Q1 & _).
  rewrite E1.
  set (sb := with_io _ _ sa) in *.
  pose proof (default_scan_frame_loop (org ++ "/" ++ py_str w name) b1 sb) as [F1 F2].
  destruct (when (truthy b1) _ sb) as [[] sc|e sc|sc]; try discriminate.
  simpl in F1, F2.
  destruct (github_request_spec w (branches_url w org name) auth sc)
    as (b2 & t2 & E2 & Q2 & _).
  rewrite E2. unfold ret. intros H. inversion H; subst; clear H.
  exists dbranch, b1, t1, t2.
  apply summary_only_fields in F1. destruct F1 as (Ft & Fr & Fc & Fu & Fa).
  assert (Hsa : tick sa = tick s /\ trace sa = trace s /\ user_ids sa = user_ids s /\
                user_summary sa = user_summary s /\
                cache sa = (if dict_mem (org ++ "/" ++ py_str w name) (cache s)
                            then cache s
                            else dict_set (org ++ "/" ++ py_str w name) (VObj []) (cache s)) /\
                repo_audit sa =
                  (repo_audit s ++ [mkAudit (org ++ "/" ++ py_str w name) dbranch])%list).
  { subst sa. destruct (dict_mem _ (cache s)); simpl; repeat split. }
  destruct Hsa as (A1 & A2 & A3 & A4 & A5 & A6).
  clearbody sa.
  split; [reflexivity|]. split; [assumption|]. split; [assumption|].
  simpl. rewrite Ft, Fr, Fc, Fu, Fa. subst sb. simpl.
  rewrite A1, A2, A3, A5, A6.
  split; [repeat (rewrite <- app_assoc; simpl); reflexivity|].
  do 4 (split; [reflexivity|]).
  intros uid. specialize (F2 uid). simpl in F2. rewrite A4 in F2. exact F2.
Qed.

Lemma fetch_views (u : string) (t : list event) (b : body) :
  Forall quiet t ->
  requests (EGet u :: t ++ [EReturn b]) = [u] /\
  saves (EGet u :: t ++ [EReturn b]) = [].
Proof.
  intros Q. apply quiet_views in Q. destruct Q as (Q1 & Q2 & _).
  simpl. rewrite requests_app, saves_app, Q1, Q2. now split.
Qed.

Lemma cache_file_after_app (f : cache_file) (t t' : list event) :
  saves t' = [] -> cache_file_after f (t ++ t') = cache_file_after f t.
Proof.
  unfold cache_file_after. rewrite fold_left_app.
  generalize (fold_left
                (fun f0 e => match e with ESaveCache c => FileJson c | _ => f0 end) t f).
  induction t' as [|e t' IH]; intros f0 H; simpl; auto.
  destruct e; simpl in H; try discriminate; now apply IH.
Qed.

Lemma cache_file_after_save (f : cache_file) (t : list event) (c : dict value) :
  cache_file_after f (t ++ [ESaveCache c]) = FileJson c.
Proof. unfold cache_file_after. now rewrite fold_left_app. Qed.

(** C3.  When the branch-list request of a repository yields nothing
    ([None] or an empty payload), the visit ends right there: the state
    after [process_repo] is the state in which that answer arrived.  The
    visit made two requests (default-branch commits, branch list) and no
    other, the cache file was not written, [user_ids] is as before, and no
    record changed outside the default-branch flag and its source. *)
Theorem no_branches_skips_the_rest w auth org repo s
    repo_name repo_key since_30 branches s1 :
  repo_begin w auth org repo s = Ok (repo_name, repo_key, since_30, branches) s1 ->
  truthy branches = false ->
  process_repo w auth org repo s = Ok Next s1 /\
  (exists default_branch since_60,
     requests (trace s1) =
       (requests (trace s)
        ++ [commits_url w org repo_name default_branch since_60;
            branches_url w org repo_name])%list) /\
  saves (trace s1) = saves (trace s) /\
  (forall f, cache_file_after f (trace s1) = cache_file_after f (trace s)) /\
  user_ids s1 = user_ids s /\
  only_default_flags s s1.
Proof.
  intros Hb Hf.
  destruct (repo_begin_spec _ _ _ _ _ _ _ _ _ _ Hb)
    as (db & b1 & t1 & t2 & _ & Q1 & Q2 & Ht & _ & _ & _ & Hu & Hd).
  destruct (fetch_views (commits_url w org repo_name db
                           (utcnow_minus_days w (tick s) 60 ++ "Z")) t1 b1 Q1)
    as [R1 S1].
  destruct (fetch_views (branches_url w org repo_name) t2 branches Q2) as [R2 S2].
  split; [|split; [|split; [|split; [|split]]]]; auto.
  - unfold process_repo, bind. rewrite Hb, Hf. reflexivity.
  - exists db, (utcnow_minus_days w (tick s) 60 ++ "Z").
    rewrite Ht, !requests_app, R1, R2. reflexivity.
  - rewrite Ht, !saves_app, S1, S2. now rewrite app_nil_r.
  - intros f. rewrite Ht. apply cache_file_after_app.
    now rewrite saves_app, S1, S2.
Qed.

Lemma no_branches_skips_the_rest_witness :
  let w := Mock.no_branches in
  let s := loaded [] ["alice"] in
  let repo := Mock.repo_item "site" "main" in
  exists s1,
    repo_begin w "token t" "acme" repo s
      = Ok (VStr "site", "acme/site", "2026-10-05T12:00:00Z", py_None) s1 /\
    truthy py_None = false /\
    process_repo w "token t" "acme" repo s = Ok Next s1 /\
    saves (trace s1) = [] /\
    user_ids s1 = ["alice"].
Proof.
  intros w s repo. eexists.
  assert (Hb : repo_begin w "token t" "acme" repo s
               = Ok (VStr "site", "acme/site", "2026-10-05T12:00:00Z", py_None)
                    (final_state (repo_begin w "token t" "acme" repo s)))
    by (vm_compute; reflexivity).
  pose proof (no_branches_skips_the_rest _ _ _ _ _ _ _ _ _ _ Hb eq_refl)
    as (H1 & _ & H3 & _ & H5 & _).
  split; [exact Hb|]. split; [reflexivity|]. split; [exact H1|].
  split; [exact H3|exact H5].
Defined.

Lemma scans_frame_refl (s : state) : scans_frame s s.
Proof. repeat split. exists []. now rewrite app_nil_r. Qed.

Lemma scans_frame_trans (a b c : state) :
  scans_frame a b -> scans_frame b c -> scans_frame a c.
Proof.
  intros (A1 & A2 & t & A3) (B1 & B2 & t' & B3).
  split; [congruence|]. split; [congruence|].
  exists (t ++ t')%list. now rewrite B3, A3, app_assoc.
Qed.

Lemma scans_frame_io (s : state) (n : nat) (t : list event) :
  scans_frame s (with_io n (trace s ++ t) s).
Proof. repeat split. now exists t. Qed.

Lemma scans_frame_record (s s' : state) : record_update s s' -> scans_frame s s'.
Proof.
  intros H. apply updates_summary_only, summary_only_fields in H.
  destruct H as (_ & Ht & Hc & _ & Ha). repeat split; auto.
  exists []. now rewrite app_nil_r.
Qed.

Ltac scans_frame_kit :=
  first [ exact scans_frame_refl | exact scans_frame_trans
        | record_relation scans_frame_record
        | intros; unfold emit; apply scans_frame_io
        | intros; exact I ].

Lemma scans_frame_branches_recent w auth org repo_name repo_key since_30 branches :
  preserves scans_frame
    (scan_branches_recent w auth org repo_name repo_key since_30 branches).
Proof.
  apply preserves_scan_branches_recent with (get_ok := fun _ => True);
    scans_frame_kit.
Qed.

Lemma scans_frame_events w auth org repo_name repo_key :
  preserves scans_frame (scan_events w auth org repo_name repo_key).
Proof.
  apply preserves_scan_events with (get_ok := fun _ => True); scans_frame_kit.
Qed.

Lemma scans_frame_fallback w auth org repo_name branches :
  preserves scans_frame (scan_fallback w auth org repo_name branches).
Proof.
  apply preserves_scan_fallback with (get_ok := fun _ => True); scans_frame_kit.
Qed.

(** The second half of a repository visit, when it completes. *)
Lemma repo_finish_ok w auth org repo_name repo_key since_30 branches s1 c s' :
  repo_finish w auth org repo_name repo_key since_30 branches s1 = Ok c s' ->
  exists s3,
    scans_frame s1 s3 /\
    s' = with_user_ids (filter (missing_some (user_summary s3)) (user_ids s3))
           (emit (ESaveCache (cache s3)) s3) /\
    c = match user_ids s' with [] => Break | _ => Next end.
Proof.
  unfold repo_finish, bind.
  pose proof (scans_frame_branches_recent w auth org repo_name repo_key since_30
                branches s1) as P1.
  destruct (scan_branches_recent _ _ _ _ _ _ _ s1) as [[] sa|e sa|sa];
    try discriminate. simpl in P1.
  pose proof (scans_frame_events w auth org repo_name repo_key sa) as P2.
  destruct (scan_events _ _ _ _ _ sa) as [[] sb|e sb|sb]; try discriminate.
  simpl in P2.
  pose proof (scans_frame_fallback w auth org repo_name branches sb) as P3.
  destruct (scan_fallback _ _ _ _ _ sb) as [[] s3|e s3|s3]; try discriminate.
  simpl in P3.
  unfold save_progress, modify.
  destruct (narrow_user_ids_spec (emit (ESaveCache (cache s3)) s3)) as [H|[e H]];
    rewrite H; [|discriminate].
  unfold gets, ret. intros Hr. exists s3.
  split; [eauto using scans_frame_trans|].
  simpl in Hr. simpl.
  destruct (filter _ _) eqn:Ef; inversion Hr; subst; simpl; rewrite ?Ef; auto.
Qed.

Lemma dict_mem_touch (k : string) (c : dict value) :
  dict_mem k (if dict_mem k c then c else dict_set k (VObj []) c) = true.
Proof.
  destruct (dict_mem k c) eqn:E; auto.
  unfold dict_mem. now rewrite dict_get_set_same.
Qed.

(** C2, as the code has it.  When the branch list of a repository is
    fetched non-empty and the visit completes, the last thing the visit
    does to the outside world is to write the cache: the file then holds
    the mapping, which has the repository's key, and the audit list has
    gained the repository's entry. *)
Theorem checkpoint_saved_when_branches_listed w auth org repo s
    repo_name repo_key since_30 branches s1 c s' :
  repo_begin w auth org repo s = Ok (repo_name, repo_key, since_30, branches) s1 ->
  truthy branches = true ->
  process_repo w auth org repo s = Ok c s' ->
  (exists t, trace s' = (trace s ++ t ++ [ESaveCache (cache s')])%list) /\
  dict_mem repo_key (cache s') = true /\
  (forall f, cache_file_after f (trace s') = FileJson (cache s')) /\
  (exists default_branch,
     repo_audit s' = (repo_audit s ++ [mkAudit repo_key default_branch])%list).
Proof.
  intros Hb Ht Hp.
  unfold process_repo, bind in Hp. rewrite Hb, Ht in Hp. simpl in Hp.
  destruct (repo_begin_spec _ _ _ _ _ _ _ _ _ _ Hb)
    as (db & b1 & t1 & t2 & Hk & _ & _ & Htr & _ & Hc & Ha & _ & _).
  destruct (repo_finish_ok _ _ _ _ _ _ _ _ _ _ Hp) as (s3 & (Fc & Fa & t & Ft) & -> & _).
  simpl. rewrite Fc, Fa.
  assert (Htrace : (trace s3 ++ [ESaveCache (cache s1)])%list =
                   (trace s ++ (((EGet (commits_url w org repo_name db
                       (utcnow_minus_days w (tick s) 60 ++ "Z")) :: t1 ++ [EReturn b1])
                      ++ EGet (branches_url w org repo_name) :: t2 ++ [EReturn branches])
                      ++ t) ++ [ESaveCache (cache s1)])%list).
  { rewrite Ft, Htr. now rewrite <- !app_assoc. }
  split; [|split; [|split]].
  - eexists. exact Htrace.
  - rewrite Hc. apply dict_mem_touch.
  - intros f. apply cache_file_after_save.
  - now exists db.
Qed.

Lemma checkpoint_saved_when_branches_listed_witness :
  let w := Mock.two_orgs in
  let s := loaded [] ["alice"] in
  let repo := Mock.repo_item "site" "main" in
  exists s1 s',
    repo_begin w "token t" "acme" repo s
      = Ok (VStr "site", "acme/site", "2026-10-05T12:00:00Z",
            BArr [Mock.branch_item "main"]) s1 /\
    truthy (BArr [Mock.branch_item "main"]) = true /\
    process_repo w "token t" "acme" repo s = Ok Break s' /\
    dict_mem "acme/site" (cache s') = true /\
    cache_file_after NoFile (trace s') = FileJson (cache s').
Proof.
  intros w s repo. eexists. eexists.
  assert (Hb : repo_begin w "token t" "acme" repo s
               = Ok (VStr "site", "acme/site", "2026-10-05T12:00:00Z",
                     BArr [Mock.branch_item "main"])
                    (final_state (repo_begin w "token t" "acme" repo s)))
    by (vm_compute; reflexivity).
  assert (Hp : process_repo w "token t" "acme" repo s
               = Ok Break (final_state (process_repo w "token t" "acme" repo s)))
    by (vm_compute; reflexivity).
  pose proof (checkpoint_saved_when_branches_listed _ _ _ _ _ _ _ _ _ _ _ _
                Hb eq_refl Hp) as (_ & H2 & H3 & _).
  split; [exact Hb|]. split; [reflexivity|]. split; [exact Hp|].
  split; [exact H2|exact (H3 NoFile)].
Defined.

(** C2 as stated fails: a repository whose branch list cannot be fetched is
    visited (its audit entry is recorded) and the cache file is not
    written. *)
Lemma visited_without_save :
  ~ (forall w auth org repo s c s',
       process_repo w auth org repo s = Ok c s' ->
       exists t1 t2,
         trace s' = (trace s ++ t1 ++ ESaveCache (cache s') :: t2)%list).
Proof.
  intros H.
  destruct (H Mock.no_branches "token t" "acme" (Mock.repo_item "site" "main")
              (loaded [] ["alice"]) Next
              (final_state (process_repo Mock.no_branches "token t" "acme"
                              (Mock.repo_item "site" "main") (loaded [] ["alice"]))))
    as (t1 & t2 & E).
  - vm_compute. reflexivity.
  - apply (f_equal saves) in E. rewrite !saves_app in E.
    change (saves (trace (loaded [] ["alice"]))) with (@nil (dict value)) in E.
    match type of E with ?l = _ => assert (E0 : l = []) by (vm_compute; reflexivity) end.
    rewrite E0 in E. simpl in E.
    destruct (saves t1); discriminate E.
Qed.

(** * The fallback scan (C9) *)

Lemma login_of_pure (item : value) (member : string) (s : state) :
  login_of item member s =
    match author_login item member with
    | Some a => Ok a s
    | None => Raise AttributeError s
    end.
Proof.
  unfold login_of, author_login, bind, py_get.
  destruct (get_member item member (VObj [])) as [a|]; [|reflexivity].
  unfold ret. destruct (get_member a "login" VNull); reflexivity.
Qed.

Lemma records_related_same (P : string -> user_record -> user_record -> Prop)
    (s s' : state) :
  user_summary s' = user_summary s ->
  (forall uid r, dict_get uid (user_summary s) = Some r -> P uid r r) ->
  records_related P s s'.
Proof.
  intros E H uid. rewrite E.
  destruct (dict_get uid (user_summary s)) eqn:G; auto.
Qed.

Lemma records_related_set (P : string -> user_record -> user_record -> Prop)
    (s : state) (x : string) (rx rx' : user_record) :
  dict_get x (user_summary s) = Some rx ->
  P x rx rx' ->
  (forall uid r, uid <> x -> dict_get uid (user_summary s) = Some r -> P uid r r) ->
  records_related P s (with_user_summary (dict_set x rx' (user_summary s)) s).
Proof.
  intros G Hx Ho uid. simpl.
  destruct (string_dec x uid) as [<-|Hne].
  - now rewrite G, dict_get_set_same.
  - rewrite dict_get_set_other by assumption.
    destruct (dict_get uid (user_summary s)) eqn:G'; auto.
Qed.

Lemma eqb_neq_false (x y : string) : x <> y -> String.eqb x y = false.
Proof. intros H. now apply String.eqb_neq. Qed.

Lemma fallback_step_ok (c : value) (s s' : state) :
  fallback_step c s = Ok tt s' ->
  summary_only s s' /\
  records_related (fun uid r r' => r' = push_one (user_ids s) uid r c) s s'.
Proof.
  unfold fallback_step. unfold bind at 1. rewrite login_of_pure.
  unfold push_one.
  destruct (author_login c "author") as [a|]; cbv beta iota;
    [|intros H; discriminate H].
  unfold commit_date, bind, py_get.
  destruct (get_member c "commit" (VObj [])) as [c1|]; cbv beta iota;
    [|intros H; discriminate H].
  unfold ret at 1.
  destruct (get_member c1 "author" (VObj [])) as [ca|]; cbv beta iota;
    [|intros H; discriminate H].
  unfold ret at 1.
  destruct (get_member ca "date" VNull) as [d|]; cbv beta iota;
    [|intros H; discriminate H].
  unfold ret, still_lacks, bind, gets, summary_get, summary_update, modify, py_gt.
  assert (Hsame : forall P : string -> user_record -> user_record -> Prop,
            (forall uid r, dict_get uid (user_summary s) = Some r -> P uid r r) ->
            summary_only s s /\ records_related P s s).
  { intros P HP. split; [apply summary_only_refl|now apply records_related_same]. }
  destruct a as [|x|m]; simpl.
  - intros H; inversion H; subst. now apply Hsame.
  - destruct (existsb (String.eqb x) (user_ids s)) eqn:Ein.
    2:{ intros H; inversion H; subst. apply Hsame. intros uid r _.
        destruct (String.eqb x uid) eqn:E; auto.
        apply String.eqb_eq in E. subst. now rewrite Ein. }
    destruct (dict_get x (user_summary s)) as [rx|] eqn:Gx; [|discriminate].
    simpl. destruct (any_commit rx) eqn:Ea; simpl.
    { intros H; inversion H; subst. apply Hsame. intros uid r G.
      destruct (String.eqb x uid) eqn:E; auto.
      apply String.eqb_eq in E. subst. rewrite Gx in G. inversion G; subst.
      now rewrite Ea, andb_false_r. }
    rewrite Gx.
    assert (Hupd : summary_only s
                     (with_user_summary (dict_set x (set_last_push_date d rx)
                                           (user_summary s)) s)) by reflexivity.
    assert (Hother : forall uid r, uid <> x ->
              dict_get uid (user_summary s) = Some r ->
              r = (if (x =? uid) && existsb (String.eqb uid) (user_ids s)
                      && negb (any_commit r) && later d (last_push_date r)
                   then set_last_push_date d r else r)).
    { intros uid r Hne _. rewrite eqb_neq_false; auto. }
    unfold later.
    destruct (value_truthy (last_push_date rx)) eqn:Et; simpl.
    + destruct d as [|dx|]; try discriminate.
      destruct (last_push_date rx) as [|y|] eqn:El; try discriminate.
      destruct (y <? dx) eqn:Elt; simpl; unfold bind, summary_get; rewrite ?Gx.
      * intros H; inversion H; subst. split; auto.
        apply records_related_set with rx; auto.
        now rewrite String.eqb_refl, Ein, Ea, El, Et, Elt.
      * intros H; inversion H; subst. apply Hsame. intros uid r G.
        destruct (String.eqb x uid) eqn:E; auto.
        apply String.eqb_eq in E. subst. rewrite Gx in G. inversion G; subst.
        now rewrite Ein, Ea, El, Et, Elt.
    + unfold bind, summary_get. rewrite Gx.
      intros H; inversion H; subst. split; auto.
      apply records_related_set with rx; auto.
      now rewrite String.eqb_refl, Ein, Ea, Et.
  - intros H; inversion H; subst. now apply Hsame.
Qed.

Lemma records_related_compose
    (P Q T : string -> user_record -> user_record -> Prop) (s1 s2 s3 : state) :
  records_related P s1 s2 -> records_related Q s2 s3 ->
  (forall uid a b c, P uid a b -> Q uid b c -> T uid a c) ->
  records_related T s1 s3.
Proof.
  intros H12 H23 HT uid. specialize (H12 uid). specialize (H23 uid).
  destruct (dict_get uid (user_summary s1)), (dict_get uid (user_summary s2)),
           (dict_get uid (user_summary s3)); try tauto.
  eapply HT; eassumption.
Qed.

Lemma fallback_loop_ok (cs : list value) (s s' : state) :
  for_each cs fallback_step s = Ok tt s' ->
  summary_only s s' /\
  records_related
    (fun uid r r' => r' = fold_left (push_one (user_ids s) uid) cs r) s s'.
Proof.
  revert s. induction cs as [|c cs IH]; intros s; simpl.
  - intros H. inversion H; subst. split; [apply summary_only_refl|].
    apply records_related_same; auto.
  - unfold bind.
    destruct (fallback_step c s) as [[] s1|e s1|s1] eqn:E; try discriminate.
    intros H. apply fallback_step_ok in E. destruct E as [F1 R1].
    apply IH in H. destruct H as [F2 R2].
    split; [eapply summary_only_trans; eassumption|].
    apply summary_only_fields in F1. destruct F1 as (_ & _ & _ & Fu & _).
    rewrite Fu in R2.
    eapply records_related_compose; [exact R1|exact R2|].
    intros uid a b c0 -> ->. reflexivity.
Qed.

Lemma for_each_ok {A} (R : state -> state -> Prop) (xs : list A) (f : A -> M unit) :
  (forall s, R s s) ->
  (forall a b c, R a b -> R b c -> R a c) ->
  (forall x s s', f x s = Ok tt s' -> R s s') ->
  forall s s', for_each xs f s = Ok tt s' -> R s s'.
Proof.
  intros Hr Ht Hf. induction xs as [|x xs IH]; intros s s'; simpl.
  - intros H. inversion H; subst. apply Hr.
  - unfold bind. destruct (f x s) as [[] s1|e s1|s1] eqn:E; try discriminate.
    intros H. eapply Ht; [eapply Hf; exact E|now apply IH].
Qed.

Lemma fallback_fold_refl (s : state) : fallback_fold s s.
Proof.
  split; auto. exists []. split; [now rewrite app_nil_r|].
  apply records_related_same; auto.
Qed.

Lemma fallback_fold_trans (a b c : state) :
  fallback_fold a b -> fallback_fold b c -> fallback_fold a c.
Proof.
  intros (U1 & t1 & T1 & R1) (U2 & t2 & T2 & R2).
  split; [congruence|]. exists (t1 ++ t2)%list.
  split; [now rewrite T2, T1, app_assoc|].
  rewrite U1 in R2.
  eapply records_related_compose; [exact R1|exact R2|].
  intros uid x y z -> ->. now rewrite observed_app, fold_left_app.
Qed.

Lemma scan_fallback_ok w auth org repo_name branches s s' :
  scan_fallback w auth org repo_name branches s = Ok tt s' ->
  fallback_fold s s'.
Proof.
  unfold scan_fallback, since_days. unfold bind at 1. unfold gets.
  generalize (utcnow_minus_days w (tick s) 90 ++ "Z"). intros since_90.
  revert s s'.
  apply for_each_ok;
    [apply fallback_fold_refl|apply fallback_fold_trans|].
  intros branch s s'. unfold bind at 1.
  destruct (py_get branch "name" VNull s) as [name s0|e s0|s0] eqn:En;
    try discriminate.
  assert (s0 = s) as ->.
  { unfold py_get in En. destruct (get_member _ _ _); inversion En; auto. }
  unfold bind.
  set (url := commits_url w org repo_name name _).
  destruct (github_request_spec w url auth s) as (b & t & E & Q & _).
  rewrite E. set (s1 := with_io _ _ s) in *.
  apply quiet_views in Q. destruct Q as (_ & _ & Qo).
  assert (Ho : observed (EGet url :: t ++ [EReturn b])
               = if truthy b then py_iter b else []).
  { simpl. rewrite observed_app, Qo. simpl. now rewrite app_nil_r. }
  unfold when. destruct (truthy b) eqn:Et.
  - intros H. apply fallback_loop_ok in H. destruct H as [F Rr].
    apply summary_only_fields in F. destruct F as (_ & Ftr & _ & Fu & _).
    split; [exact Fu|]. exists (EGet url :: t ++ [EReturn b]).
    split; [exact Ftr|]. rewrite Ho. exact Rr.
  - intros H. inversion H; subst. split; [reflexivity|].
    exists (EGet url :: t ++ [EReturn b]). split; [reflexivity|].
    rewrite Ho. apply records_related_same; auto.
Qed.

(** ** The order of timestamps *)

Lemma ltb_leb (x y : string) : String.ltb x y = true -> String.leb x y = true.
Proof.
  unfold String.ltb, String.leb. destruct (String.compare x y); auto; discriminate.
Qed.

Lemma not_ltb_leb (x y : string) : String.ltb x y = false -> String.leb y x = true.
Proof.
  unfold String.ltb, String.leb. rewrite (String.compare_antisym x y).
  destruct (String.compare y x); simpl; auto; discriminate.
Qed.

Lemma leb_refl (x : string) : String.leb x x = true.
Proof.
  destruct (String.leb_total x x); assumption.
Qed.

Lemma leb_cases (x y : string) :
  String.leb x y = true <-> x = y \/ String_as_OT.lt x y.
Proof.
  unfold String.leb. split.
  - destruct (String.compare x y) eqn:E; try discriminate; intros _.
    + left. now apply String.compare_eq_iff.
    + right. now apply String_as_OT.cmp_lt.
  - intros [->|H].
    + apply leb_refl.
    + apply String_as_OT.cmp_lt in H. unfold String_as_OT.cmp in H. now rewrite H.
Qed.

Lemma leb_trans (x y z : string) :
  String.leb x y = true -> String.leb y z = true -> String.leb x z = true.
Proof.
  rewrite !leb_cases. intros [->|H1] [->|H2]; auto.
  right. eapply String_as_OT.lt_trans; eassumption.
Qed.

Lemma value_le_trans (a b c : value) :
  value_le a b -> value_le b c -> value_le a c.
Proof.
  destruct a, b, c; simpl; try tauto. apply leb_trans.
Qed.

Lemma value_le_refl_timestamp (v : value) :
  v = VNull \/ timestamp v -> value_le v v.
Proof.
  intros [->|(x & -> & _)]; simpl; auto. apply leb_refl.
Qed.

Lemma keep_later_step (prev d : value) :
  timestamp d -> prev = VNull \/ timestamp prev ->
  timestamp (keep_later prev d) /\
  value_le prev (keep_later prev d) /\ value_le d (keep_later prev d).
Proof.
  intros (x & -> & Hx) [->|(y & -> & Hy)]; unfold keep_later, later; simpl.
  - repeat split; [exists x; auto|apply leb_refl].
  - apply String.eqb_neq in Hy. rewrite Hy. simpl.
    destruct (String.ltb y x) eqn:E.
    + repeat split; [exists x; split; auto; now apply String.eqb_neq
                    |now apply ltb_leb|apply leb_refl].
    + repeat split; [exists y; split; auto; now apply String.eqb_neq
                    |apply leb_refl|now apply not_ltb_leb].
Qed.

Lemma keep_later_latest (prev : value) (ds : list value) :
  latest_of prev ds (fold_left keep_later ds prev).
Proof.
  split; [intros ->; reflexivity|]. split.
  - revert prev. induction ds as [|d ds IH]; intros prev; simpl; auto.
    destruct (IH (keep_later prev d)) as [H|H]; auto.
    unfold keep_later in H at 1. destruct (later d prev); auto.
  - revert prev. induction ds as [|d ds IH]; intros prev Hds Hp x Hx; simpl.
    + destruct Hx as [<-|[]]. now apply value_le_refl_timestamp.
    + inversion Hds as [|? ? Hd Hds']; subst.
      destruct (keep_later_step prev d Hd Hp) as (Ht & Hle1 & Hle2).
      assert (Hacc : forall y, In y (keep_later prev d :: ds) ->
                               value_le y (fold_left keep_later ds (keep_later prev d)))
        by (apply IH; auto).
      destruct Hx as [<-|[<-|Hx]].
      * eapply value_le_trans; [exact Hle1|]. apply Hacc. now left.
      * eapply value_le_trans; [exact Hle2|]. apply Hacc. now left.
      * apply Hacc. now right.
Qed.

Lemma same_flags_refl (r : user_record) : same_flags r r.
Proof. repeat split. Qed.

Lemma fold_push_one (ids : list string) (uid : string) (cs : list value)
    (r : user_record) :
  In uid ids -> any_commit r = false ->
  same_flags r (fold_left (push_one ids uid) cs r) /\
  last_push_date (fold_left (push_one ids uid) cs r)
    = fold_left keep_later (dates_by uid cs) (last_push_date r).
Proof.
  intros Hin. apply existsb_eqb_In in Hin.
  revert r. induction cs as [|c cs IH]; intros r Ha; simpl.
  - split; auto using same_flags_refl.
  - unfold dates_by. simpl. fold (dates_by uid cs).
    unfold push_one at 2 4.
    destruct (author_login c "author") as [[|a|]|]; try (now apply IH).
    destruct (commit_date c) as [d|]; try (now apply IH).
    destruct (String.eqb a uid); simpl; try (now apply IH).
    rewrite Hin, Ha. simpl. unfold keep_later at 2.
    destruct (later d (last_push_date r)); try (now apply IH).
    destruct (IH (set_last_push_date d r) Ha) as [F L].
    split; [|exact L].
    destruct F as (F1 & F2 & F3 & F4 & F5 & F6). repeat split; assumption.
Qed.

(** ** What the fallback scan leaves alone, whatever its outcome *)

Lemma fallback_frame_same (s s' : state) :
  user_ids s' = user_ids s -> user_summary s' = user_summary s ->
  fallback_frame s s'.
Proof.
  intros U E. split; auto. apply records_related_same; auto.
  intros uid r _. split; auto using same_flags_refl.
Qed.

Lemma fallback_frame_trans (a b c : state) :
  fallback_frame a b -> fallback_frame b c -> fallback_frame a c.
Proof.
  intros [U1 R1] [U2 R2]. split; [congruence|].
  rewrite U1 in R2.
  eapply records_related_compose; [exact R1|exact R2|].
  intros uid x y z [F1 K1] [F2 K2].
  destruct F1 as (A1 & A2 & A3 & A4 & A5 & A6).
  destruct F2 as (B1 & B2 & B3 & B4 & B5 & B6).
  split; [repeat split; congruence|].
  intros H. rewrite K2; [now apply K1|].
  destruct H as [H|H]; [left; congruence|now right].
Qed.

Lemma fallback_frame_step (c : value) : preserves fallback_frame (fallback_step c).
Proof.
  intros s.
  destruct (fallback_step_exact c s) as [->|(uid & r & r' & Hin & G & [Ha [d ->]] & ->)].
  - now apply fallback_frame_same.
  - split; [reflexivity|].
    apply records_related_set with r; auto.
    + split; [repeat split|]. intros [H|H]; [congruence|contradiction].
    + intros u ru _ _. split; auto using same_flags_refl.
Qed.

Lemma fallback_frame_scan w auth org repo_name branches :
  preserves fallback_frame (scan_fallback w auth org repo_name branches).
Proof.
  apply preserves_scan_fallback with (get_ok := fun _ => True);
    first [ intros; now apply fallback_frame_same
          | exact fallback_frame_trans
          | exact fallback_frame_step
          | intros; exact I ].
Qed.

(** ** Completion *)

Lemma for_each_total {A} (I : state -> Prop) (P : A -> Prop) (xs : list A)
    (f : A -> M unit) :
  (forall x s, P x -> I s -> exists s', f x s = Ok tt s' /\ I s') ->
  Forall P xs ->
  forall s, I s -> exists s', for_each xs f s = Ok tt s' /\ I s'.
Proof.
  intros Hf. induction 1 as [|x xs Hx _ IH]; intros s Hs; simpl.
  - now exists s.
  - unfold bind. destruct (Hf x s Hx Hs) as (s1 & E & H1). rewrite E.
    now apply IH.
Qed.

Lemma fallback_step_total (c : value) (s : state) :
  wf_commit c -> fallback_ready s ->
  exists s', fallback_step c s = Ok tt s'.
Proof.
  intros [[a Ha] [text Hd]] [Hkeys Hdates].
  unfold fallback_step. unfold bind at 1. rewrite login_of_pure, Ha.
  cbv beta iota. unfold commit_date in Hd. unfold bind, py_get.
  destruct (get_member c "commit" (VObj [])) as [c1|]; [|discriminate].
  unfold ret at 1.
  destruct (get_member c1 "author" (VObj [])) as [ca|]; [|discriminate].
  unfold ret at 1. rewrite Hd.
  unfold still_lacks, bind, gets, summary_get, summary_update, modify, py_gt, ret.
  destruct a as [|x|m]; simpl; eauto.
  destruct (existsb (String.eqb x) (user_ids s)) eqn:Ein; eauto.
  apply existsb_eqb_In, Hkeys in Ein. unfold dict_mem in Ein.
  destruct (dict_get x (user_summary s)) as [rx|] eqn:Gx; [|discriminate].
  simpl. destruct (any_commit rx); simpl; eauto.
  rewrite Gx.
  destruct (Hdates x rx Gx) as [El|[y El]]; rewrite El; simpl.
  - unfold bind, summary_get. rewrite Gx. eauto.
  - destruct (negb (String.eqb y "")); simpl;
      [destruct (String.ltb y text)|]; unfold bind, summary_get;
      rewrite ?Gx; eauto.
Qed.

Lemma fallback_step_ready (c : value) (s s' : state) :
  wf_commit c -> fallback_ready s -> fallback_step c s = Ok tt s' ->
  fallback_ready s'.
Proof.
  intros [_ [text Hd]] [Hkeys Hdates] E.
  apply fallback_step_ok in E. destruct E as [F Rr].
  apply summary_only_fields in F. destruct F as (_ & _ & _ & U & _).
  split.
  - intros uid Hin. rewrite U in Hin. specialize (Hkeys uid Hin).
    specialize (Rr uid). unfold dict_mem in *.
    destruct (dict_get uid (user_summary s)); [|discriminate].
    destruct (dict_get uid (user_summary s')); [reflexivity|contradiction].
  - intros uid r' G. specialize (Rr uid). rewrite G in Rr.
    destruct (dict_get uid (user_summary s)) as [r|] eqn:G0; [|contradiction].
    subst r'. unfold push_one. rewrite Hd.
    destruct (author_login c "author") as [[|a|]|]; eauto.
    destruct (_ && _); [right; now exists text|eauto].
Qed.

Lemma scan_fallback_total w auth org repo_name branches s :
  Forall is_object (py_iter branches) ->
  answers_commits w org repo_name ->
  fallback_ready s ->
  exists s', scan_fallback w auth org repo_name branches s = Ok tt s'.
Proof.
  intros Hb Hw Hs.
  unfold scan_fallback, since_days. unfold bind at 1. unfold gets.
  generalize (utcnow_minus_days w (tick s) 90 ++ "Z"). intros since_90.
  destruct (for_each_total fallback_ready is_object (py_iter branches)
              (fun branch =>
                 branch_name <- py_get branch "name" VNull ;;
                 commits <- github_request w
                   (commits_url w org repo_name branch_name since_90) auth ;;
                 when (truthy commits) (for_each (py_iter commits) fallback_step)))
    with (s := s) as (s' & E & _); auto; [|eauto].
  clear s Hs Hb. intros branch s [m ->] Hs.
  unfold bind at 1. unfold py_get, get_member, ret. unfold bind.
  set (url := commits_url w org repo_name _ since_90).
  destruct (github_request_spec w url auth s) as (b & t & E & _ & Hp & _).
  rewrite E. set (s1 := with_io _ _ s).
  assert (H1 : fallback_ready s1) by exact Hs.
  unfold when. destruct (truthy b) eqn:Et; [|eauto].
  assert (Hwf : Forall wf_commit (py_iter b)).
  { specialize (Hw (tick s) (match dict_get "name" m with
                              | Some x => x | None => VNull end) since_90 auth).
    fold url in Hw.
    destruct (parsed_payload w (tick s) url auth) as [p|].
    - destruct Hp as [-> _]. now apply Hw.
    - destruct Hp as [-> _]. discriminate. }
  apply (for_each_total fallback_ready wf_commit); auto.
  intros c s2 Hc H2. destruct (fallback_step_total c s2 Hc H2) as (s3 & E3).
  exists s3. split; auto. eapply fallback_step_ready; eassumption.
Qed.

(** ** The requests of the fallback scan and what they hand back *)

Lemma handed_back_app w auth n (u1 u2 : list string) :
  handed_back w auth n (u1 ++ u2) =
    (handed_back w auth n u1 ++ handed_back w auth (n + List.length u1) u2)%list.
Proof.
  revert n. induction u1 as [|u u1 IH]; intros n; simpl.
  - now rewrite Nat.add_0_r.
  - rewrite IH, <- app_assoc.
    now replace (S n + List.length u1) with (n + S (List.length u1)) by lia.
Qed.

Lemma fetched_in_a_row_nothing w auth (s s' : state) :
  trace s' = trace s -> tick s' = tick s -> fetched_in_a_row w auth [] s s'.
Proof.
  intros Ht Hn. split; [simpl; lia|]. exists []. now rewrite app_nil_r.
Qed.

Lemma fetched_in_a_row_app w auth (u1 u2 : list string) (a b c : state) :
  fetched_in_a_row w auth u1 a b -> fetched_in_a_row w auth u2 b c ->
  fetched_in_a_row w auth (u1 ++ u2) a c.
Proof.
  intros [T1 (t1 & E1 & R1 & O1)] [T2 (t2 & E2 & R2 & O2)]. split.
  - rewrite length_app. lia.
  - exists (t1 ++ t2)%list. split; [now rewrite E2, E1, app_assoc|].
    rewrite requests_app, observed_app, handed_back_app, R1, R2, O1, O2.
    now rewrite T1.
Qed.

Lemma fetched_in_a_row_one w auth url s b s1 :
  github_request w url auth s = Ok b s1 ->
  b = answer w (tick s) url auth /\ fetched_in_a_row w auth [url] s s1.
Proof.
  intros E.
  destruct (github_request_spec w url auth s) as (b' & t & E' & Q & Hp & _).
  rewrite E in E'. inversion E'; subst.
  assert (Hb : b' = answer w (tick s) url auth).
  { unfold answer. destruct (parsed_payload w (tick s) url auth); tauto. }
  split; [exact Hb|]. split; [simpl; lia|].
  exists (EGet url :: t ++ [EReturn b']). split; [reflexivity|].
  destruct (fetch_views url t b' Q) as [Hr _]. split; [exact Hr|].
  destruct (quiet_views t Q) as (_ & _ & Ho).
  simpl. rewrite observed_app, Ho. simpl. rewrite !app_nil_r. now rewrite <- Hb.
Qed.

Lemma fallback_steps_fetch_nothing w auth (cs : list value) (s s' : state) :
  for_each cs fallback_step s = Ok tt s' -> fetched_in_a_row w auth [] s s'.
Proof.
  revert s. induction cs as [|c cs IH]; intros s; simpl.
  - intros H. inversion H; subst. now apply fetched_in_a_row_nothing.
  - unfold bind. destruct (fallback_step c s) as [[] s1|e s1|s1] eqn:E;
      try discriminate.
    intros H. apply IH in H.
    assert (H1 : fetched_in_a_row w auth [] s s1).
    { pose proof (fallback_step_exact c s) as U. rewrite E in U. simpl in U.
      destruct U as [->|(uid & r & r' & _ & _ & _ & ->)];
        now apply fetched_in_a_row_nothing. }
    exact (fetched_in_a_row_app w auth [] [] s s1 s' H1 H).
Qed.

Lemma scan_fallback_fetches w auth org repo_name branches s s' :
  scan_fallback w auth org repo_name branches s = Ok tt s' ->
  fetched_in_a_row w auth (fallback_urls w org repo_name branches (tick s)) s s'.
Proof.
  unfold scan_fallback, since_days, fallback_urls. unfold bind at 1. unfold gets.
  generalize (utcnow_minus_days w (tick s) 90 ++ "Z"). intros since_90.
  revert s s'. induction (py_iter branches) as [|branch bs IH]; intros s s'; simpl.
  - intros H. inversion H; subst. now apply fetched_in_a_row_nothing.
  - unfold bind at 1.
    destruct ((branch_name <- py_get branch "name" VNull ;;
               commits <- github_request w
                 (commits_url w org repo_name branch_name since_90) auth ;;
               when (truthy commits) (for_each (py_iter commits) fallback_step)) s)
      as [[] s1|e s1|s1] eqn:E; try discriminate.
    intros H. apply IH in H.
    assert (H1 : fetched_in_a_row w auth
                   [commits_url w org repo_name (member branch "name") since_90] s s1).
    { revert E. unfold bind at 1. unfold py_get, member.
      destruct (get_member branch "name" VNull) as [bn|]; [|discriminate].
      unfold ret at 1. unfold bind.
      destruct (github_request w (commits_url w org repo_name bn since_90) auth s)
        as [b s0|e s0|s0] eqn:Eg; try discriminate.
      apply fetched_in_a_row_one in Eg. destruct Eg as [_ F1].
      unfold when. destruct (truthy b).
      - intros E. apply (fallback_steps_fetch_nothing w auth) in E.
        exact (fetched_in_a_row_app w auth [_] [] s s0 s1 F1 E).
      - intros E. inversion E; subst.
        rewrite <- (app_nil_r [_]).
        apply (fetched_in_a_row_app w auth [_] [] s s1 s1 F1).
        now apply fetched_in_a_row_nothing. }
    exact (fetched_in_a_row_app w auth [_] _ s s1 s' H1 H).
Qed.

(** C9.  The fallback scan changes no flag and no source, and leaves alone
    the record of every user who has a recent commit or is not active,
    whatever its outcome.  When it completes it has asked, for every branch
    of the list in order, for the commits of that branch since 90 days
    before its start, and for nothing else; and the last-push date of
    every active user without a recent commit is the latest among its
    previous value and the dates of the commits by that user handed back
    for those requests: unchanged when there is none, one of those values,
    and at or above each of them when they are timestamps.  It completes
    whenever the branches are objects and the commits handed out have
    their dates. *)
Theorem fallback_scan_keeps_latest w auth org repo_name branches s :
  fallback_frame s (final_state (scan_fallback w auth org repo_name branches s)) /\
  (forall s',
     scan_fallback w auth org repo_name branches s = Ok tt s' ->
     let urls := fallback_urls w org repo_name branches (tick s) in
     requests (trace s') = (requests (trace s) ++ urls)%list /\
     forall uid r r',
       dict_get uid (user_summary s) = Some r ->
       dict_get uid (user_summary s') = Some r' ->
       In uid (user_ids s) -> any_commit r = false ->
       latest_of (last_push_date r)
                 (dates_by uid (handed_back w auth (tick s) urls))
                 (last_push_date r')) /\
  (Forall is_object (py_iter branches) ->
   answers_commits w org repo_name ->
   fallback_ready s ->
   exists s', scan_fallback w auth org repo_name branches s = Ok tt s').
Proof.
  split; [apply fallback_frame_scan|]. split; [|apply scan_fallback_total].
  intros s' E urls.
  pose proof (scan_fallback_fetches w auth org repo_name branches s s' E)
    as [_ (t & Ht & Hr & Ho)].
  fold urls in Hr, Ho.
  apply scan_fallback_ok in E. destruct E as (_ & t' & Ht' & Rr).
  assert (t' = t) as ->.
  { rewrite Ht in Ht'. now apply app_inv_head in Ht'. }
  split; [now rewrite Ht, requests_app, Hr|].
  intros uid r r' G G' Hin Ha. specialize (Rr uid). rewrite G, G' in Rr.
  subst r'. rewrite Ho.
  destruct (fold_push_one (user_ids s) uid (handed_back w auth (tick s) urls) r Hin Ha)
    as [_ L].
  rewrite L. apply keep_later_latest.
Qed.

(** * The report (C10) *)

Lemma dict_get_None {V} (k : string) (d : dict V) :
  dict_get k d = None <-> ~ In k (map fst d).
Proof.
  induction d as [|[k' v] d IH]; simpl; [tauto|].
  destruct (String.eqb k k') eqn:E.
  - apply String.eqb_eq in E. subst. split; [discriminate|tauto].
  - apply String.eqb_neq in E. rewrite IH. split.
    + intros H [H'|H']; [congruence|contradiction].
    + intros H H'. apply H. now right.
Qed.

Lemma dict_set_keys_new {V} (k : string) (v : V) (d : dict V) :
  dict_get k d = None -> map fst (dict_set k v d) = (map fst d ++ [k])%list.
Proof.
  induction d as [|[k' v'] d IH]; simpl; auto.
  destruct (String.eqb k k'); [discriminate|]. intros H. simpl. now rewrite IH.
Qed.

Lemma dict_get_In {V} (k : string) (v : V) (d : dict V) :
  NoDup (map fst d) -> (In (k, v) d <-> dict_get k d = Some v).
Proof.
  induction d as [|[k' v'] d IH]; simpl; intros Hnd.
  - split; [tauto|discriminate].
  - inversion Hnd as [|? ? Hnot Hnd']; subst.
    destruct (String.eqb k k') eqn:E.
    + apply String.eqb_eq in E. subst k'. split.
      * intros [H|H]; [congruence|].
        exfalso. apply Hnot. change k with (fst (k, v)). now apply in_map.
      * intros H. left. congruence.
    + apply String.eqb_neq in E. rewrite <- IH by assumption.
      split; [intros [H|H]; [congruence|assumption]|auto].
Qed.

Lemma dict_get_Some_In {V} (k : string) (v : V) (d : dict V) :
  dict_get k d = Some v -> In k (map fst d).
Proof.
  intros G. destruct (in_dec string_dec k (map fst d)) as [H|H]; auto.
  apply dict_get_None in H. congruence.
Qed.

Lemma NoDup_snoc {A} (l : list A) (x : A) :
  NoDup l -> ~ In x l -> NoDup (l ++ [x]).
Proof.
  induction 1 as [|y l Hy Hl IH]; simpl; intros Hx.
  - constructor; auto. constructor.
  - constructor.
    + rewrite in_app_iff. simpl. intros [H|[H|[]]]; auto.
    + apply IH. tauto.
Qed.

Lemma init_keys (uids : list string) (acc : dict user_record) :
  NoDup (map fst acc) ->
  let d := fold_left (fun d uid => dict_set uid initial_record d) uids acc in
  NoDup (map fst d) /\
  (forall k, In k (map fst d) <-> In k (map fst acc) \/ In k uids) /\
  (NoDup (map fst acc ++ uids) -> map fst d = (map fst acc ++ uids)%list).
Proof.
  revert acc. induction uids as [|u us IH]; intros acc Hnd; simpl.
  - split; auto. split; [tauto|]. now rewrite app_nil_r.
  - destruct (dict_get u acc) as [r|] eqn:G.
    + pose proof (dict_set_keys u initial_record r acc G) as E.
      pose proof (dict_get_Some_In _ _ _ G) as Hin.
      destruct (IH (dict_set u initial_record acc)) as (N & I & O);
        [now rewrite E|].
      rewrite E in I, O. split; auto. split.
      * intros k. rewrite I. split; [tauto|].
        intros [H|[<-|H]]; auto.
      * intros Hall. exfalso. apply NoDup_remove_2 in Hall. apply Hall.
        apply in_or_app. now left.
    + pose proof (dict_set_keys_new u initial_record acc G) as E.
      apply dict_get_None in G.
      destruct (IH (dict_set u initial_record acc)) as (N & I & O);
        [rewrite E; now apply NoDup_snoc|].
      rewrite E in I, O. split; auto. split.
      * intros k. rewrite I, in_app_iff. simpl. tauto.
      * intros Hall. rewrite <- app_assoc in O. simpl in O. now apply O.
Qed.

Lemma init_user_summary_keys (uids : list string) :
  NoDup (map fst (init_user_summary uids)) /\
  (forall k, In k (map fst (init_user_summary uids)) <-> In k uids) /\
  (NoDup uids -> map fst (init_user_summary uids) = uids).
Proof.
  destruct (init_keys uids [] (NoDup_nil _)) as (N & I & O).
  split; auto. split; auto.
  intros k. rewrite (I k). simpl. tauto.
Qed.

(** ** The tracked users stay the same *)

Lemma same_keys_same (s s' : state) :
  user_summary s' = user_summary s -> same_keys s s'.
Proof. unfold same_keys. now intros ->. Qed.

Lemma same_keys_trans (a b c : state) :
  same_keys a b -> same_keys b c -> same_keys a c.
Proof. unfold same_keys. congruence. Qed.

Lemma same_keys_record (s s' : state) : record_update s s' -> same_keys s s'.
Proof.
  intros [->|(uid & r & r' & _ & G & _ & ->)]; unfold same_keys; auto.
  simpl. eapply dict_set_keys. exact G.
Qed.

Lemma same_keys_scan_orgs fuel w auth orgs :
  preserves same_keys (scan_orgs fuel w auth orgs).
Proof.
  apply preserves_scan_orgs with (get_ok := fun _ => True);
    first [ exact same_keys_trans
          | record_relation same_keys_record
          | intros; now apply same_keys_same
          | intros; exact I ].
Qed.

Lemma summary_rows_ids (us : dict user_record) :
  map row_user_id (summary_rows us) = map fst us.
Proof. unfold summary_rows. rewrite map_map. reflexivity. Qed.

Lemma summary_rows_In (us : dict user_record) (row : summary_row) :
  NoDup (map fst us) ->
  (In row (summary_rows us) <->
   exists r, dict_get (row_user_id row) us = Some r /\
             row = row_of (row_user_id row) r).
Proof.
  intros Hnd. unfold summary_rows. rewrite in_map_iff. split.
  - intros ([k r] & <- & Hin). apply dict_get_In in Hin; auto.
    exists r. simpl. split; auto.
  - intros (r & G & E). exists (row_user_id row, r). split.
    + rewrite E. reflexivity.
    + now apply dict_get_In.
Qed.

(** C10.  When the organization loop ends without exception, the run ends
    by writing the report.  Its Summary table is made from the final
    [user_summary]: one row per distinct identifier of the original
    [user_ids] (also those no longer active), in dict order (the order of
    [user_ids] when it has no duplicates), each row holding that user's
    flags, last-push date and sources as they are; its RepoAudit table is
    the audit list as it is. *)
Theorem report_is_the_final_tables fuel w file token orgs uids c s1 :
  initial_cache file = Some c ->
  scan_orgs fuel w ("token " ++ token) orgs (loaded c uids) = Ok tt s1 ->
  let rows := summary_rows (user_summary s1) in
  check_user_activity fuel w file token orgs uids
    = Ok tt (emit (EWriteReport rows (repo_audit s1)) s1) /\
  NoDup (map row_user_id rows) /\
  (forall uid, In uid uids <-> In uid (map row_user_id rows)) /\
  (NoDup uids -> map row_user_id rows = uids) /\
  (forall row,
     In row rows <->
     exists r, dict_get (row_user_id row) (user_summary s1) = Some r /\
               row = row_of (row_user_id row) r).
Proof.
  intros Hc Hscan rows.
  pose proof (same_keys_scan_orgs fuel w ("token " ++ token) orgs (loaded c uids))
    as K.
  rewrite Hscan in K. unfold same_keys in K. simpl in K.
  destruct (init_user_summary_keys uids) as (N & I & O).
  rewrite <- K in N, I, O.
  split; [|split; [|split; [|split]]].
  - rewrite check_user_activity_unfold.
    destruct file; simpl in Hc; inversion Hc; subst;
      unfold bind; rewrite Hscan; reflexivity.
  - unfold rows. now rewrite summary_rows_ids.
  - intros uid. unfold rows. rewrite summary_rows_ids. symmetry. apply I.
  - intros Hnd. unfold rows. rewrite summary_rows_ids. now apply O.
  - intros row. now apply summary_rows_In.
Qed.

(** * The page loop (C7) and early termination (C1) *)

Lemma truthy_len (b : body) :
  truthy b = true -> exists n, py_len b = ret (S n).
Proof.
  destruct b as [[|x l]|[|x|[|kv m]]]; simpl; try discriminate.
  - intros _. now exists (List.length l).
  - destruct x as [|c x]; [discriminate|]. intros _. now exists (String.length x).
  - intros _. now exists (List.length m).
Qed.

(** One turn of the loop. *)
Lemma page_loop_turn fuel w auth org page s :
  page_loop (S fuel) w auth org page s =
    match github_request w (page_url org page) auth s with
    | Ok b s1 =>
        if truthy b then
          match for_repos (process_repo w auth org) (py_iter b) s1 with
          | Ok _ s2 =>
              match user_ids s2 with
              | [] => Ok tt s2
              | _ => page_loop fuel w auth org (page + 1) s2
              end
          | Raise e s2 => Raise e s2
          | OutOfFuel s2 => OutOfFuel s2
          end
        else Ok tt s1
    | Raise e s1 => Raise e s1
    | OutOfFuel s1 => OutOfFuel s1
    end.
Proof.
  simpl. unfold bind at 1.
  destruct (github_request w (page_url org page) auth s) as [b s1|e s1|s1]; auto.
  destruct (truthy b) eqn:Et; simpl; auto.
  destruct (truthy_len b Et) as [n ->]. unfold bind, ret, gets. simpl.
  destruct (for_repos _ _ s1) as [[] s2|e s2|s2]; auto.
  now destruct (user_ids s2).
Qed.



(** ** Page requests in the trace *)

Lemma prefix_append (p x : string) : String.prefix p (p ++ x) = true.
Proof.
  induction p as [|c p IH].
  - now destruct x.
  - change (String.prefix (String c p) (String c (p ++ x)) = true). simpl.
    destruct (ascii_dec c c); [exact IH|contradiction].
Qed.

Lemma append_assoc (a b c : string) : (a ++ b) ++ c = a ++ b ++ c.
Proof.
  induction a as [|x a IH]; [reflexivity|].
  change (String x ((a ++ b) ++ c) = String x (a ++ b ++ c)). now rewrite IH.
Qed.

Lemma page_url_is_page_request (org : string) (page : nat) :
  String.prefix (repos_url org ++ "&page=") (page_url org page) = true.
Proof.
  unfold page_url. rewrite <- append_assoc. apply prefix_append.
Qed.

Lemma repo_url_is_no_page_request (org rest : string) :
  String.prefix (repos_url org ++ "&page=") (GITHUB_API ++ "/repos/" ++ rest) = false.
Proof. reflexivity. Qed.

Lemma page_requests_app (org : string) (t1 t2 : list event) :
  page_requests org (t1 ++ t2) = (page_requests org t1 ++ page_requests org t2)%list.
Proof. unfold page_requests. now rewrite requests_app, filter_app. Qed.

Lemma same_page_requests_emit (org : string) (s : state) (e : event) :
  (forall u, e <> EGet u) -> same_page_requests org s (emit e s).
Proof.
  intros H. unfold same_page_requests. simpl. rewrite page_requests_app.
  destruct e; try (now rewrite app_nil_r). now destruct (H url).
Qed.

Lemma same_page_requests_get (org : string) (s : state) (url : string) :
  String.prefix (repos_url org ++ "&page=") url = false ->
  same_page_requests org s (with_io (S (tick s)) (trace s ++ [EGet url]) s).
Proof.
  intros H. unfold same_page_requests. simpl. rewrite page_requests_app.
  unfold page_requests at 2. simpl. rewrite H. now rewrite app_nil_r.
Qed.

Lemma same_page_requests_trace (org : string) (s s' : state) :
  trace s' = trace s -> same_page_requests org s s'.
Proof. unfold same_page_requests. now intros ->. Qed.

Lemma same_page_requests_record (org : string) (s s' : state) :
  record_update s s' -> same_page_requests org s s'.
Proof.
  intros H. apply updates_summary_only, summary_only_fields in H.
  apply same_page_requests_trace. tauto.
Qed.

Lemma same_page_requests_batch w auth org (repos : list value) :
  preserves (same_page_requests org)
    (for_repos (process_repo w auth org) repos).
Proof.
  assert (Hr : forall s, same_page_requests org s s) by reflexivity.
  assert (Ht : forall a b c, same_page_requests org a b ->
                 same_page_requests org b c -> same_page_requests org a c)
    by (unfold same_page_requests; congruence).
  apply preserves_for_repos; auto. intros repo.
  apply preserves_process_repo
    with (get_ok := fun u => String.prefix (repos_url org ++ "&page=") u = false);
    first [ exact Hr | exact Ht
          | exact (same_page_requests_emit org)
          | exact (same_page_requests_get org)
          | record_relation (same_page_requests_record org)
          | exact (repo_url_is_no_page_request org)
          | intros; now apply same_page_requests_trace ].
Qed.




(** C1 at a failing input: two organizations, alice alone is tracked and is
    fully satisfied by the only repository of the first organization.  The
    page loop of that organization stops there, and yet the run goes on to
    request the first page of the second organization and to scan its
    repository. *)
Theorem run_goes_on_after_the_set_empties :
  let w := Mock.two_orgs in
  let s1 := final_state (page_loop 5 w "token t" "acme" 1 (loaded [] ["alice"])) in
  let s2 := final_state
              (check_user_activity 5 w NoFile "t" ["acme"; "beta"] ["alice"]) in
  user_ids s1 = [] /\
  map audit_repo (repo_audit s1) = ["acme/site"] /\
  requests (trace s2) =
    (requests (trace s1)
     ++ [page_url "beta" 1;
         (Mock.api ++ "/repos/beta/tool/commits?sha=main&since=2026-09-05T12:00:00Z&per_page=100")%string;
         (Mock.api ++ "/repos/beta/tool/branches?per_page=100")%string;
         (Mock.api ++ "/repos/beta/tool/commits?sha=main&since=2026-10-05T12:00:00Z&per_page=100")%string;
         (Mock.api ++ "/repos/beta/tool/events")%string;
         (Mock.api ++ "/repos/beta/tool/commits?sha=main&since=2026-08-06T12:00:00Z&per_page=100")%string])%list /\
  map audit_repo (repo_audit s2) = ["acme/site"; "beta/tool"].
Proof. vm_compute. repeat split. Qed.

(** * Qualifying observations (C5) *)











(** * Concrete runs *)

Lemma report_is_the_final_tables_witness :
  let w := Mock.two_orgs in
  exists s1,
    initial_cache NoFile = Some [] /\
    scan_orgs 5 w ("token " ++ "t") ["acme"; "beta"] (loaded [] ["alice"]) = Ok tt s1 /\
    check_user_activity 5 w NoFile "t" ["acme"; "beta"] ["alice"]
      = Ok tt (emit (EWriteReport (summary_rows (user_summary s1)) (repo_audit s1)) s1) /\
    map row_user_id (summary_rows (user_summary s1)) = ["alice"].
Proof.
  intros w. eexists.
  assert (Hscan : scan_orgs 5 w ("token " ++ "t") ["acme"; "beta"] (loaded [] ["alice"])
                  = Ok tt (final_state
                             (scan_orgs 5 w ("token " ++ "t") ["acme"; "beta"]
                                (loaded [] ["alice"]))))
    by (vm_compute; reflexivity).
  pose proof (report_is_the_final_tables 5 w NoFile "t" ["acme"; "beta"] ["alice"]
                [] _ eq_refl Hscan) as (H1 & _ & _ & H4 & _).
  split; [reflexivity|]. split; [exact Hscan|]. split; [exact H1|].
  apply H4. repeat constructor; simpl; tauto.
Defined.

(** bob's commits of the last 90 days sit on two branches; the scan leaves
    him the latest of their dates, and alice the date of her only one. *)
Example fallback_scan_over_two_branches :
  let branches := BArr [Mock.branch_item "main"; Mock.branch_item "dev"] in
  exists s',
    scan_fallback Mock.old_commits "token t" "acme" (VStr "site") branches
      (loaded [] ["alice"; "bob"]) = Ok tt s' /\
    option_map last_push_date (dict_get "bob" (user_summary s'))
      = Some (VStr "2026-09-01T08:00:00Z") /\
    option_map last_push_date (dict_get "alice" (user_summary s'))
      = Some (VStr "2026-09-30T10:00:00Z") /\
    option_map any_commit (dict_get "bob" (user_summary s')) = Some false.
Proof. eexists. vm_compute. repeat split. Qed.

(** * Further properties: edge behaviour of the fetcher *)

(** X1.  The guard has one possible effect, a single sleep: it sleeps only
    for a 403 answer whose remaining quota reads zero and whose reset epoch
    reads as an integer, for [reset - now + 1] seconds, a length that is
    not negative and fits the clock.  When it raises it has done nothing,
    and the exception tells why: [KeyError] (with the lower-cased name)
    for a missing reset header, [OverflowError] for a length that does not
    fit the clock, [ValueError] for a header that is no integer or a reset
    more than a second in the past. *)
Theorem rate_limit_guard_cases (w : world) (r : response) (s : state) :
  match rate_limit_guard w r s with
  | Ok _ s' =>
      s' = s \/
      exists reset,
        status_code r = 403%Z /\
        x_ratelimit_remaining r = Some (HInt 0) /\
        x_ratelimit_reset r = Some (HInt reset) /\
        (0 <= reset - time_time w (tick s) + 1 <= SLEEP_MAX)%Z /\
        s' = emit (ESleep (reset - time_time w (tick s) + 1)) s
  | Raise e s' =>
      s' = s /\ status_code r = 403%Z /\
      match e with
      | KeyError key =>
          key = "x-ratelimit-reset" /\
          x_ratelimit_remaining r = Some (HInt 0) /\ x_ratelimit_reset r = None
      | OverflowError =>
          exists reset,
            x_ratelimit_remaining r = Some (HInt 0) /\
            x_ratelimit_reset r = Some (HInt reset) /\
            (SLEEP_MAX < reset - time_time w (tick s) + 1 \/
             reset - time_time w (tick s) + 1 < - SLEEP_MAX)%Z
      | ValueError =>
          x_ratelimit_remaining r = Some HNotInt \/
          x_ratelimit_remaining r = Some (HInt 0) /\
          (x_ratelimit_reset r = Some HNotInt \/
           exists reset,
             x_ratelimit_reset r = Some (HInt reset) /\
             (- SLEEP_MAX <= reset - time_time w (tick s) + 1 < 0)%Z)
      | _ => False
      end
  | OutOfFuel _ => False
  end.
Proof.
  unfold rate_limit_guard, bind, header_lookup, py_int, gets, time_sleep, ret, raise.
  destruct (status_code r =? 403)%Z eqn:E403; simpl; [|now left].
  apply Z.eqb_eq in E403.
  destruct (x_ratelimit_remaining r) as [[z|]|]; simpl; [| |now left].
  2:{ split; [reflexivity|]. split; [exact E403|]. now left. }
  destruct (z =? 0)%Z eqn:Ez; simpl; [|now left].
  apply Z.eqb_eq in Ez. subst z.
  destruct (x_ratelimit_reset r) as [[reset|]|]; simpl.
  2:{ split; [reflexivity|]. split; [exact E403|]. right.
      split; [reflexivity|]. now left. }
  2:{ split; [reflexivity|]. split; [exact E403|]. auto. }
  set (nap := (reset - time_time w (tick s) + 1)%Z).
  destruct (SLEEP_MAX <? nap)%Z eqn:Ebig; simpl.
  { apply Z.ltb_lt in Ebig. split; [reflexivity|]. split; [exact E403|].
    exists reset. auto. }
  destruct (nap <? -9223372036)%Z eqn:Esmall; simpl.
  { apply Z.ltb_lt in Esmall. split; [reflexivity|]. split; [exact E403|].
    exists reset. auto. }
  apply Z.ltb_ge in Ebig, Esmall.
  destruct (nap <? 0)%Z eqn:Eneg; simpl.
  - apply Z.ltb_lt in Eneg. split; [reflexivity|]. split; [exact E403|].
    right. split; [reflexivity|]. right. exists reset. split; [reflexivity|].
    split; assumption.
  - apply Z.ltb_ge in Eneg. right. exists reset.
    split; [exact E403|]. split; [reflexivity|]. split; [reflexivity|].
    split; [split; assumption|reflexivity].
Qed.

(** X2.  A throttled request is not issued a second time.  For a 403 answer
    with no quota left the fetcher issues the one request and hands back
    [None], whatever the reset epoch: when the length of the sleep is fine
    it sleeps, and the same answer then fails the status check, so it logs
    the 403; when the length does not fit the clock, or is negative, it
    does not sleep and logs that error instead. *)
Theorem throttled_request_is_not_retried w url auth s r reset :
  session_get w (tick s) url auth = GetResponse r ->
  status_code r = 403%Z ->
  x_ratelimit_remaining r = Some (HInt 0) ->
  x_ratelimit_reset r = Some (HInt reset) ->
  let nap := (reset - time_time w (S (tick s)) + 1)%Z in
  let tail e := [ELogError (failure_line w (S (tick s)) url e); EReturn py_None] in
  github_request w url auth s =
    Ok py_None
       (with_io (S (tick s))
          (trace s ++ EGet url ::
             (if (SLEEP_MAX <? nap)%Z || (nap <? - SLEEP_MAX)%Z
              then tail OverflowError
              else if (nap <? 0)%Z then tail ValueError
              else ESleep nap :: tail (HTTPError 403)))
          s).
Proof.
  intros Hget H403 Hrem Hreset nap tail.
  unfold github_request, try_except, bind, http_get. rewrite Hget.
  unfold rate_limit_guard, bind, header_lookup, py_int, gets, time_sleep,
    raise_for_status, http_error, log_error, modify, ret, raise.
  rewrite H403, Hrem, Hreset. simpl. fold nap.
  destruct ((SLEEP_MAX <? nap)%Z || (nap <? -9223372036)%Z); simpl.
  { unfold emit, with_io, failure_line, tail. simpl. now rewrite <- !app_assoc. }
  destruct (nap <? 0)%Z; simpl;
    unfold emit, with_io, failure_line, tail; simpl; now rewrite <- !app_assoc.
Qed.

Lemma throttled_request_is_not_retried_witness :
  let url := "https://api.github.com/orgs/acme/repos?per_page=100&type=all&page=1" in
  let w := Probe.throttling url 1005 in
  github_request w url "token t" start =
    Ok py_None
       (with_io 1
          [EGet url; ESleep 6;
           ELogError (failure_line w 1 url (HTTPError 403));
           EReturn py_None]
          start).
Proof.
  intros url w.
  exact (throttled_request_is_not_retried w url "token t" start
           (Mock.throttled_answer 1005) 1005 eq_refl eq_refl eq_refl eq_refl).
Defined.

(** * Further properties: items without a usable author *)

Lemma still_lacks_stranger (flag : user_record -> bool) (a : value) (s : state) :
  py_in a (user_ids s) = false -> still_lacks flag a s = Ok false s.
Proof. intros H. unfold still_lacks, bind, gets. now rewrite H. Qed.

(** X3.  An item whose author member is null (or anything but an object)
    makes every scan raise [AttributeError] on the spot, whereas an item
    with no author member at all has the login [None], and an item whose
    author is not an active user is passed over by the three flag scans
    without a trace.  The same holds for the actor of an event. *)
Theorem null_author_raises_missing_author_is_skipped (w : world) :
  (forall m, dict_get "author" m = Some VNull ->
             author_login (VObj m) "author" = None) /\
  (forall m, dict_get "author" m = None ->
             author_login (VObj m) "author" = Some VNull) /\
  (forall k b c ev s,
     author_login c "author" = None ->
     author_login ev "actor" = None ->
     default_commit_step k c s = Raise AttributeError s /\
     any_commit_step w k b c s = Raise AttributeError s /\
     fallback_step c s = Raise AttributeError s /\
     event_step w k ev s = Raise AttributeError s) /\
  (forall k b c ev s a a',
     author_login c "author" = Some a -> py_in a (user_ids s) = false ->
     author_login ev "actor" = Some a' -> py_in a' (user_ids s) = false ->
     default_commit_step k c s = Ok tt s /\
     any_commit_step w k b c s = Ok tt s /\
     event_step w k ev s = Ok tt s).
Proof.
  split; [|split; [|split]].
  - intros m H. unfold author_login, get_member. now rewrite H.
  - intros m H. unfold author_login, get_member. now rewrite H.
  - intros k b c ev s Hc He.
    unfold default_commit_step, any_commit_step, fallback_step, event_step.
    unfold bind. rewrite !login_of_pure, Hc, He. auto.
  - intros k b c ev s a a' Hc Ha He Ha'.
    unfold default_commit_step, any_commit_step, event_step.
    unfold bind. rewrite !login_of_pure, Hc, He.
    rewrite !(still_lacks_stranger _ a s Ha), !(still_lacks_stranger _ a' s Ha').
    auto.
Qed.

(** * Further properties: how the run starts *)

(** X4.  The summary the run starts with has one record per distinct
    identifier of [user_ids] (keyed in the order of [user_ids] itself when
    it has no duplicates), and every record is blank: no flag, no source,
    no last-push date. *)
Theorem user_summary_starts_blank (uids : list string) :
  NoDup (map fst (init_user_summary uids)) /\
  (forall uid, In uid (map fst (init_user_summary uids)) <-> In uid uids) /\
  (NoDup uids -> map fst (init_user_summary uids) = uids) /\
  (forall uid r, In (uid, r) (init_user_summary uids) -> r = initial_record) /\
  (forall uid, In uid uids ->
     dict_get uid (init_user_summary uids) = Some initial_record).
Proof.
  destruct (init_user_summary_keys uids) as (N & I & O).
  split; auto. split; auto. split; auto. split.
  - intros uid r Hin. apply dict_get_In in Hin; auto.
    eapply init_user_summary_records; eassumption.
  - intros uid Hin. apply I in Hin.
    destruct (dict_get uid (init_user_summary uids)) as [r|] eqn:G.
    + apply init_user_summary_records in G. now subst.
    + apply dict_get_None in G. contradiction.
Qed.


(** * Further properties: the run as a sequence of elementary moves *)

Section Moves.
Variables (w : world) (auth : string).


Lemma reach_trans (a b c : state) :
  reach w auth a b -> reach w auth b c -> reach w auth a c.
Proof.
  intros Hab Hbc. induction Hbc as [s|s1 s2 s3 H12 IH Hs].
  - exact Hab.
  - exact (reach_step _ _ _ (IH Hab) Hs).
Qed.

Lemma reach_one (s s' : state) : step w auth s s' -> reach w auth s s'.
Proof. intros H. eapply reach_step; [apply reach_refl|exact H]. Qed.

Lemma step_ids_tracked (s s' : state) :
  step w auth s s' -> ids_tracked s -> ids_tracked s'.
Proof.
  intros H I. destruct H as [s url t b _|s k b|s s' H|s|s]; try exact I.
  - destruct H as [->|(uid & r & r' & _ & G & _ & ->)]; auto.
    intros u Hu. specialize (I u Hu). unfold dict_mem in *. simpl in *.
    destruct (string_dec uid u) as [<-|Hne].
    + now rewrite dict_get_set_same.
    + now rewrite dict_get_set_other.
  - intros u Hu. simpl in Hu. apply filter_In in Hu. apply I. tauto.
Qed.

Lemma reach_ids_tracked (s s' : state) :
  reach w auth s s' -> ids_tracked s -> ids_tracked s'.
Proof. induction 1; eauto using step_ids_tracked. Qed.

(** ** Commands are judged piece by piece *)

Lemma judged_ret (F : Prop) {A} (a : A) : judged w auth F (ret a).
Proof. intros s _. split; [apply reach_refl|exact I]. Qed.

Lemma judged_gets (F : Prop) {A} (f : state -> A) : judged w auth F (gets f).
Proof. intros s _. split; [apply reach_refl|exact I]. Qed.

Lemma judged_raise (F : Prop) {A} (e : exn) :
  payload_exn e -> judged w auth F (@raise A e).
Proof. intros He s _. split; [apply reach_refl|exact He]. Qed.

Lemma judged_modify (F : Prop) (f : state -> state) :
  (forall s, reach w auth s (f s)) -> judged w auth F (modify f).
Proof. intros H s _. split; [apply H|exact I]. Qed.

Lemma judged_weaken (F : Prop) {A} (m : M A) :
  judged w auth False m -> judged w auth F m.
Proof.
  intros H s Hs. destruct (H s Hs) as [Hr He]. split; auto.
  destruct (m s); simpl in *; auto. contradiction.
Qed.

Lemma judged_bind (F : Prop) {A B} (m : M A) (k : A -> M B) :
  judged w auth F m -> (forall a, judged w auth F (k a)) -> judged w auth F (bind m k).
Proof.
  intros Hm Hk s Hs. unfold bind. destruct (Hm s Hs) as [Hr He].
  destruct (m s) as [a s1|e s1|s1]; simpl in *; auto.
  destruct (Hk a s1 (reach_ids_tracked _ _ Hr Hs)) as [Hr' He'].
  split; [eapply reach_trans; eassumption|exact He'].
Qed.

Lemma judged_when (F : Prop) (b : bool) (m : M unit) :
  judged w auth F m -> judged w auth F (when b m).
Proof. destruct b; simpl; auto using judged_ret. Qed.

Lemma judged_for_each (F : Prop) {A} (xs : list A) (f : A -> M unit) :
  (forall x, judged w auth F (f x)) -> judged w auth F (for_each xs f).
Proof.
  intros Hf. induction xs as [|x xs IH]; simpl.
  - apply judged_ret.
  - apply judged_bind; auto.
Qed.

Lemma judged_for_repos (F : Prop) (f : value -> M control) (repos : list value) :
  (forall x, judged w auth F (f x)) -> judged w auth F (for_repos f repos).
Proof.
  intros Hf. induction repos as [|x xs IH]; simpl.
  - apply judged_ret.
  - apply judged_bind; auto. intros [|]; auto using judged_ret.
Qed.

Lemma judged_py_get (F : Prop) (v : value) (k : string) (d : value) :
  judged w auth F (py_get v k d).
Proof.
  unfold py_get. destruct (get_member v k d).
  - apply judged_ret.
  - apply judged_raise. now left.
Qed.

Lemma judged_py_len (F : Prop) (b : body) : judged w auth F (py_len b).
Proof.
  destruct b as [|[| |]]; simpl; try apply judged_ret.
  apply judged_raise. now right.
Qed.

(** ** The fetcher *)

Lemma judged_github_request (F : Prop) url :
  judged w auth F (github_request w url auth).
Proof.
  intros s _. destruct (github_request_spec w url auth s) as (b & t & E & Q & Hp & _).
  rewrite E. split; [|exact I]. simpl.
  apply reach_one, step_fetch. now split.
Qed.

Lemma judged_seq_assoc (F : Prop) {A B C} (m1 : M A) (m2 : M B) (k : B -> M C) :
  judged w auth F (m1 ;;; m2) -> (forall b, judged w auth F (k b)) ->
  judged w auth F (m1 ;;; (b <- m2 ;; k b)).
Proof.
  intros H Hk s Hs.
  pose proof (judged_bind F (m1 ;;; m2) k H Hk s Hs) as G.
  replace ((m1 ;;; (b <- m2 ;; k b)) s) with ((b <- (m1 ;;; m2) ;; k b) s); auto.
  unfold bind. destruct (m1 s); reflexivity.
Qed.

(** ** The match sites *)

Lemma tracked_lookup (s : state) (uid : string) :
  ids_tracked s -> existsb (String.eqb uid) (user_ids s) = true ->
  dict_get uid (user_summary s) <> None.
Proof.
  intros I H. apply existsb_eqb_In in H. specialize (I uid H).
  unfold dict_mem in I. destruct (dict_get uid (user_summary s)); congruence.
Qed.

Ltac payload_case :=
  simpl in *;
  match goal with
  | |- True => exact I
  | |- payload_exn AttributeError => now left
  | |- payload_exn TypeError => now right
  | H : False |- _ => destruct H
  | I : ids_tracked ?s, H : existsb _ (user_ids ?s) = true,
    G : dict_get _ (user_summary ?s) = None |- _ =>
      exfalso; exact (tracked_lookup _ _ I H G)
  | G : dict_get ?u (dict_set ?u _ _) = None |- _ =>
      rewrite dict_get_set_same in G; discriminate G
  | _ => discriminate
  | _ => congruence
  end.

Ltac step_raises :=
  intros I; unfold raises_payload; unfold_step; unfold py_in;
  crush_step; payload_case.

Lemma default_commit_step_raises k c s :
  ids_tracked s -> raises_payload False (default_commit_step k c s).
Proof. step_raises. Qed.

Lemma any_commit_step_raises k b c s :
  ids_tracked s -> raises_payload False (any_commit_step w k b c s).
Proof. step_raises. Qed.

Lemma event_step_raises k e s :
  ids_tracked s -> raises_payload False (event_step w k e s).
Proof. step_raises. Qed.

Lemma fallback_step_raises c s :
  ids_tracked s -> raises_payload False (fallback_step c s).
Proof. step_raises. Qed.

Lemma judged_default_commit_step F k c :
  k <> "" -> judged w auth F (default_commit_step k c).
Proof.
  intros Hk. apply judged_weaken. intros s I. split.
  - apply reach_one, step_record, default_commit_step_update, Hk.
  - now apply default_commit_step_raises.
Qed.

Lemma judged_any_commit_step F k b c : judged w auth F (any_commit_step w k b c).
Proof.
  apply judged_weaken. intros s I. split.
  - apply reach_one, step_record, any_commit_step_update.
  - now apply any_commit_step_raises.
Qed.

Lemma judged_event_step F k e : judged w auth F (event_step w k e).
Proof.
  apply judged_weaken. intros s I. split.
  - apply reach_one, step_record, event_step_update.
  - now apply event_step_raises.
Qed.

Lemma judged_fallback_step F c : judged w auth F (fallback_step c).
Proof.
  apply judged_weaken. intros s I. split.
  - apply reach_one, step_record, fallback_step_update.
  - now apply fallback_step_raises.
Qed.

(** ** One repository, one page, one organization, all of them *)

Lemma judged_visit F k b :
  judged w auth F (cache_touch k ;;;
            modify (fun s => with_repo_audit (repo_audit s ++ [mkAudit k b]) s)).
Proof.
  intros s _. split; [|exact I].
  unfold cache_touch, bind, modify. cbn [final_state].
  assert (E : (if dict_mem k (cache s) then s
               else with_cache (dict_set k (VObj []) (cache s)) s)
              = with_cache (touch k (cache s)) s).
  { unfold touch. destruct (dict_mem k (cache s)); auto. now destruct s. }
  rewrite E. exact (reach_one _ _ (step_visit s k b)).
Qed.

Lemma judged_save_progress F : judged w auth F save_progress.
Proof. apply judged_modify. intros s. apply reach_one, step_save. Qed.

Lemma still_missing_tracked (uids : list string) (s : state) :
  (forall uid, In uid uids -> dict_mem uid (user_summary s) = true) ->
  still_missing uids s = Ok (filter (missing_some (user_summary s)) uids) s.
Proof.
  induction uids as [|u us IH]; intros H; simpl.
  - reflexivity.
  - unfold bind, summary_get, missing_some.
    pose proof (H u (or_introl eq_refl)) as Hu. unfold dict_mem in Hu.
    destruct (dict_get u (user_summary s)) as [r|] eqn:E; [|discriminate Hu].
    rewrite IH by (intros; apply H; now right).
    unfold ret, missing_some. now destruct (all_three r).
Qed.

Lemma narrow_user_ids_tracked (s : state) :
  ids_tracked s ->
  narrow_user_ids s =
    Ok tt (with_user_ids (filter (missing_some (user_summary s)) (user_ids s)) s).
Proof.
  intros I. unfold narrow_user_ids, bind, gets.
  now rewrite (still_missing_tracked _ _ I).
Qed.

Lemma judged_narrow_user_ids F : judged w auth F narrow_user_ids.
Proof.
  intros s I. rewrite (narrow_user_ids_tracked s I).
  split; [|exact Logic.I]. apply reach_one, step_narrow.
Qed.

Ltac judge :=
  repeat first
    [ apply judged_ret | apply judged_gets | apply judged_py_get
    | apply judged_github_request
    | apply judged_save_progress | apply judged_narrow_user_ids
    | apply judged_any_commit_step | apply judged_event_step
    | apply judged_fallback_step
    | apply judged_default_commit_step; apply append_nonempty
    | apply judged_when | apply judged_for_each
    | apply judged_bind
    | match goal with |- forall _, _ => intro end ].

Lemma judged_scan_branches_recent F org name k since branches :
  judged w auth F (scan_branches_recent w auth org name k since branches).
Proof. unfold scan_branches_recent. judge. Qed.

Lemma judged_scan_events F org name k :
  judged w auth F (scan_events w auth org name k).
Proof. unfold scan_events. judge. Qed.

Lemma judged_scan_fallback F org name branches :
  judged w auth F (scan_fallback w auth org name branches).
Proof. unfold scan_fallback, since_days. judge. Qed.

Lemma judged_repo_begin F org repo : judged w auth F (repo_begin w auth org repo).
Proof.
  unfold repo_begin, since_days.
  do 3 (apply judged_bind; [apply judged_py_get|intros ?]).
  apply judged_seq_assoc; [apply judged_visit|intros _]. judge.
Qed.

Lemma judged_repo_finish F org name k since branches :
  judged w auth F (repo_finish w auth org name k since branches).
Proof.
  unfold repo_finish.
  apply judged_bind; [apply judged_scan_branches_recent|intros _].
  apply judged_bind; [apply judged_scan_events|intros _].
  apply judged_bind; [apply judged_scan_fallback|intros _].
  apply judged_bind; [apply judged_save_progress|intros _].
  apply judged_bind; [apply judged_narrow_user_ids|intros _].
  apply judged_bind; [apply judged_gets|intros [|u us]]; apply judged_ret.
Qed.

Lemma judged_process_repo F org repo : judged w auth F (process_repo w auth org repo).
Proof.
  unfold process_repo. apply judged_bind; [apply judged_repo_begin|].
  intros [[[name k] since] branches].
  destruct (negb (truthy branches)); [apply judged_ret|apply judged_repo_finish].
Qed.

Lemma judged_batch F org repos :
  judged w auth F (for_repos (process_repo w auth org) repos).
Proof. apply judged_for_repos. intros x. apply judged_process_repo. Qed.

Lemma judged_page_loop fuel org page :
  judged w auth True (page_loop fuel w auth org page).
Proof.
  revert page. induction fuel as [|fuel IH]; intros page.
  - intros s _. split; [apply reach_refl|exact I].
  - simpl. apply judged_bind; [apply judged_github_request|intros repos].
    destruct (negb (truthy repos)); [apply judged_ret|].
    apply judged_bind; [apply judged_py_len|intros n].
    destruct (Nat.eqb n 0); [apply judged_ret|].
    apply judged_bind; [apply judged_batch|intros _].
    apply judged_bind; [apply judged_gets|intros [|u us]];
      [apply judged_ret|apply IH].
Qed.

Lemma judged_scan_orgs fuel orgs : judged w auth True (scan_orgs fuel w auth orgs).
Proof. apply judged_for_each. intros org. apply judged_page_loop. Qed.

End Moves.
(** * Further properties: the page loop with nobody left to track *)

Lemma only_narrows_batch w auth org (repos : list value) :
  preserves only_narrows (for_repos (process_repo w auth org) repos).
Proof.
  apply preserves_for_repos.
  - intros s. apply only_narrows_same; reflexivity.
  - apply only_narrows_trans.
  - intros repo. apply only_narrows_process_repo.
Qed.

(** X5.  With an empty active-user set the page loop of an organization
    still asks for its first page and hands the batch to the repository
    loop, but it ends after that single turn whatever the remote side
    answers: it never asks for a second page and never runs out of fuel. *)
Theorem empty_set_costs_one_page fuel w auth org page s :
  user_ids s = [] ->
  let r := page_loop (S fuel) w auth org page s in
  (forall s', r <> OutOfFuel s') /\
  user_ids (final_state r) = [] /\
  page_requests org (trace (final_state r))
    = (page_requests org (trace s) ++ [page_url org page])%list.
Proof.
  intros Hu r. subst r. rewrite page_loop_turn.
  destruct (github_request_spec w (page_url org page) auth s) as (b & t & E & Q & _).
  rewrite E. set (s1 := with_io _ _ s).
  assert (H1 : page_requests org (trace s1)
               = (page_requests org (trace s) ++ [page_url org page])%list).
  { subst s1. unfold with_io, trace at 1. rewrite page_requests_app. f_equal.
    unfold page_requests.
    destruct (fetch_views (page_url org page) t b Q) as [-> _].
    cbn [filter]. now rewrite page_url_is_page_request. }
  destruct (truthy b).
  2:{ split; [discriminate|]. split; [exact Hu|exact H1]. }
  pose proof (same_page_requests_batch w auth org (py_iter b) s1) as H2.
  pose proof (only_narrows_batch w auth org (py_iter b) s1) as [[keep H3] _].
  unfold same_page_requests in H2.
  change (user_ids s1) with (user_ids s) in H3. rewrite Hu in H3. simpl in H3.
  destruct (for_repos _ _ s1) as [[] s2|e s2|s2] eqn:Ef;
    cbn [final_state] in H2, H3.
  - rewrite H3. cbn [final_state].
    split; [discriminate|]. split; [exact H3|]. now rewrite H2, H1.
  - cbn [final_state]. split; [discriminate|]. split; [exact H3|].
    now rewrite H2, H1.
  - exfalso.
    assert (I1 : ids_tracked s1).
    { intros uid Hin. change (user_ids s1) with (user_ids s) in Hin.
      rewrite Hu in Hin. destruct Hin. }
    pose proof (proj2 (judged_batch w auth False org (py_iter b) s1 I1)) as G.
    rewrite Ef in G. exact G.
Qed.

Lemma empty_set_costs_one_page_witness :
  let s := loaded [] [] in
  let r := page_loop 1 Mock.two_orgs "token t" "acme" 1 s in
  user_ids s = [] /\
  (forall s', r <> OutOfFuel s') /\
  user_ids (final_state r) = [] /\
  page_requests "acme" (trace (final_state r))
    = (page_requests "acme" (trace s) ++ [page_url "acme" 1])%list.
Proof.
  split; [reflexivity|].
  exact (empty_set_costs_one_page 0 Mock.two_orgs "token t" "acme" 1 (loaded [] [])
           eq_refl).
Defined.

(** * Further properties: what a whole run does to the cache, the audit
      list and the report *)

Lemma visited_app (ks1 ks2 : list string) (c : dict value) :
  visited (ks1 ++ ks2) c = visited ks2 (visited ks1 c).
Proof. unfold visited. apply fold_left_app. Qed.

Lemma scan_event_later c0 a x e : scan_event c0 a e -> scan_event c0 (a ++ [x]) e.
Proof.
  destruct e; simpl; auto.
  intros (a1 & a2 & -> & ->). exists a1, (a2 ++ [x])%list.
  now rewrite app_assoc.
Qed.

Lemma moved_refl (s : state) : moved s s.
Proof.
  exists [], []. rewrite !app_nil_r. repeat split; auto.
Qed.

Lemma step_moved w auth (s s1 s2 : state) :
  moved s s1 -> step w auth s1 s2 -> moved s s2.
Proof.
  intros (t & a & Ht & Ha & Hc & Hf) H.
  destruct H as [s1 url t1 b [Q _]|s1 k b|s1 s2 H|s1|s1].
  - exists (t ++ EGet url :: t1 ++ [EReturn b])%list, a. simpl.
    rewrite Ht, app_assoc. repeat split; auto.
    apply Forall_app. split; auto. constructor; [exact I|].
    apply Forall_app. split; [|repeat constructor].
    eapply Forall_impl; [|exact Q].
    intros [] He; simpl in *; auto; contradiction.
  - exists t, (a ++ [mkAudit k b])%list. simpl. rewrite Ha, app_assoc.
    repeat split; auto.
    + rewrite map_app, visited_app, <- Hc. reflexivity.
    + eapply Forall_impl; [|exact Hf]. intros e. apply scan_event_later.
  - exists t, a.
    destruct H as [->|(uid & r & r' & _ & _ & _ & ->)]; repeat split; auto.
  - exists (t ++ [ESaveCache (cache s1)])%list, a. simpl. rewrite Ht, app_assoc.
    repeat split; auto. apply Forall_app. split; auto.
    constructor; [|constructor]. simpl. exists a, []. now rewrite app_nil_r.
  - exists t, a. repeat split; auto.
Qed.

Lemma reach_moved w auth (s s' : state) : reach w auth s s' -> moved s s'.
Proof.
  induction 1 as [s|s s1 s2 _ IH Hs]; [apply moved_refl|].
  eapply step_moved; eauto.
Qed.

Lemma loaded_tracked (c : dict value) (uids : list string) :
  ids_tracked (loaded c uids).
Proof.
  intros uid Hin. simpl in *.
  destruct (init_user_summary_keys uids) as (_ & K & _).
  apply K in Hin. unfold dict_mem.
  destruct (dict_get uid (init_user_summary uids)) eqn:E; auto.
  apply dict_get_None in E. contradiction.
Qed.

(** A run that could read the cache ends in one of three ways after the
    organization loop. *)
Lemma run_shape fuel w file token orgs uids c :
  initial_cache file = Some c ->
  exists s1,
    reach w ("token " ++ token) (loaded c uids) s1 /\
    run_ends (check_user_activity fuel w file token orgs uids) s1.
Proof.
  intros Hc. rewrite check_user_activity_unfold.
  assert (G : exists s1,
    reach w ("token " ++ token) (loaded c uids) s1 /\
    run_ends ((scan_orgs fuel w ("token " ++ token) orgs ;;; write_report)
                (loaded c uids)) s1).
  { destruct (judged_scan_orgs w ("token " ++ token) fuel orgs (loaded c uids)
                (loaded_tracked c uids)) as [Hr He].
    unfold bind, run_ends.
    destruct (scan_orgs fuel w ("token " ++ token) orgs (loaded c uids))
      as [[] s1|e s1|s1]; exists s1; simpl in *; split; auto.
    right. left. now exists e. }
  destruct file; simpl in Hc; inversion Hc; subst; exact G.
Qed.

Lemma reports_app (t u : list event) : reports (t ++ u) = (reports t ++ reports u)%list.
Proof. unfold reports. apply flat_map_app. Qed.

Lemma scan_events_views c0 a (t : list event) :
  Forall (scan_event c0 a) t ->
  reports t = [] /\
  forall c, In c (saves t) ->
    exists a1 a2, a = (a1 ++ a2)%list /\ c = visited (map audit_repo a1) c0.
Proof.
  induction 1 as [|e t He _ [IH1 IH2]]; simpl.
  - split; auto. intros c [].
  - destruct e; simpl in *; auto; try contradiction.
    split; auto. intros c' [<-|Hin]; auto.
Qed.

(** X6.  A run of [check_user_activity] that ends with an exception ends
    with one of three: [JSONDecodeError], only when the cache file is
    unreadable, and then before anything was requested or written;
    otherwise [AttributeError] or [TypeError], the two exceptions a payload
    of unexpected shape provokes.  No transport or HTTP error, no missing
    key and no bad header value ever ends a run. *)
Theorem a_run_fails_only_on_bad_input fuel w file token orgs uids e s :
  check_user_activity fuel w file token orgs uids = Raise e s ->
  (file = FileCorrupt /\ e = JSONDecodeError /\ s = start) \/
  (file <> FileCorrupt /\ (e = AttributeError \/ e = TypeError)).
Proof.
  intros H. destruct (initial_cache file) as [c|] eqn:Hc.
  - right. split; [intros ->; discriminate Hc|].
    destruct (run_shape fuel w file token orgs uids c Hc) as (s1 & _ & Hr).
    rewrite H in Hr. destruct Hr as [Hr|[(e' & He & Hr)|Hr]]; try discriminate Hr.
    inversion Hr; subst. exact He.
  - left. destruct file; try discriminate Hc.
    rewrite check_user_activity_unfold in H. inversion H. auto.
Qed.

Lemma a_run_fails_only_on_bad_input_witness :
  exists s,
    check_user_activity 5 Probe.orphan NoFile "t" ["acme"] ["alice"]
      = Raise AttributeError s /\
    ((NoFile = FileCorrupt /\ AttributeError = JSONDecodeError /\ s = start) \/
     (NoFile <> FileCorrupt /\
      (AttributeError = AttributeError \/ AttributeError = TypeError))).
Proof.
  eexists. split.
  - vm_compute. reflexivity.
  - eapply (a_run_fails_only_on_bad_input 5 Probe.orphan NoFile "t" ["acme"] ["alice"]).
    vm_compute. reflexivity.
Defined.

(** X7.  The report is written at most once and only as the very last
    thing: a run that returns has written the report of its final tables
    as the last event and none before; a run that ends with an exception
    (or whose page loop is cut off) has written no report at all, whatever
    it has saved to the cache file. *)
Theorem report_is_written_last_or_not_at_all fuel w file token orgs uids :
  match check_user_activity fuel w file token orgs uids with
  | Ok _ s =>
      exists t,
        trace s = (t ++ [EWriteReport (summary_rows (user_summary s)) (repo_audit s)])%list /\
        reports t = []
  | Raise _ s | OutOfFuel s => reports (trace s) = []
  end.
Proof.
  destruct (initial_cache file) as [c|] eqn:Hc.
  - destruct (run_shape fuel w file token orgs uids c Hc) as (s1 & Hr & He).
    apply reach_moved in Hr. destruct Hr as (t & a & Ht & _ & _ & Hf).
    simpl in Ht. apply scan_events_views in Hf. destruct Hf as [Hf _].
    destruct He as [->|[(e & _ & ->)| ->]].
    + exists (trace s1). split; [reflexivity|]. now rewrite Ht.
    + now rewrite Ht.
    + now rewrite Ht.
  - destruct file; try discriminate Hc.
    rewrite check_user_activity_unfold. reflexivity.
Qed.

Lemma touch_lookup (k k' : string) (c : dict value) :
  dict_get k (touch k' c) =
    match dict_get k c with
    | Some v => Some v
    | None => if String.eqb k k' then Some (VObj []) else None
    end.
Proof.
  unfold touch, dict_mem. destruct (dict_get k' c) as [v'|] eqn:E'.
  - destruct (dict_get k c) eqn:E; auto.
    destruct (String.eqb_spec k k') as [->|Hne]; auto. congruence.
  - destruct (String.eqb_spec k k') as [->|Hne].
    + now rewrite dict_get_set_same, E'.
    + rewrite dict_get_set_other by congruence. now destruct (dict_get k c).
Qed.

Lemma visited_lookup (ks : list string) (k : string) (c : dict value) :
  dict_get k (visited ks c) =
    match dict_get k c with
    | Some v => Some v
    | None => if existsb (String.eqb k) ks then Some (VObj []) else None
    end.
Proof.
  revert c. induction ks as [|k' ks IH]; intros c.
  - simpl. now destruct (dict_get k c).
  - change (visited (k' :: ks) c) with (visited ks (touch k' c)).
    rewrite IH, touch_lookup. simpl.
    destruct (dict_get k c); auto. now destruct (String.eqb k k').
Qed.

Lemma run_cache_shape fuel w file token orgs uids c0 :
  initial_cache file = Some c0 ->
  let s := final_state (check_user_activity fuel w file token orgs uids) in
  cache s = visited (map audit_repo (repo_audit s)) c0 /\
  forall c, In c (saves (trace s)) ->
    exists a1 a2,
      repo_audit s = (a1 ++ a2)%list /\ c = visited (map audit_repo a1) c0.
Proof.
  intros Hc s.
  destruct (run_shape fuel w file token orgs uids c0 Hc) as (s1 & Hr & He).
  apply reach_moved in Hr. destruct Hr as (t & a & Ht & Ha & Hk & Hf).
  simpl in Ht, Ha, Hk. apply scan_events_views in Hf. destruct Hf as [_ Hf].
  assert (G : cache s = cache s1 /\ repo_audit s = repo_audit s1 /\
              saves (trace s) = saves (trace s1)).
  { subst s. destruct He as [->|[(e & _ & ->)| ->]]; simpl; auto.
    repeat split. rewrite saves_app. simpl. apply app_nil_r. }
  destruct G as (-> & -> & ->). rewrite Ha, Hk, Ht. auto.
Qed.

(** X8.  The cache is a function of what the run was given and of the
    audit list: at the end of a run that could read the cache file, the
    cache is what was loaded (the empty dict without a file), with the
    repositories of the audit list visited in order, each adding an empty
    entry under its key unless the key is there.  Every version saved to
    the cache file is the same for a first part of the audit list. *)
Theorem cache_follows_the_audit_list fuel w file token orgs uids c0 :
  initial_cache file = Some c0 ->
  let s := final_state (check_user_activity fuel w file token orgs uids) in
  cache s = visited (map audit_repo (repo_audit s)) c0 /\
  forall c, In c (saves (trace s)) ->
    exists a1 a2,
      repo_audit s = (a1 ++ a2)%list /\ c = visited (map audit_repo a1) c0.
Proof. apply run_cache_shape. Qed.

Lemma cache_follows_the_audit_list_witness :
  let s := final_state
             (check_user_activity 5 Mock.two_orgs NoFile "t" ["acme"; "beta"] ["alice"]) in
  initial_cache NoFile = Some [] /\
  cache s = visited (map audit_repo (repo_audit s)) [] /\
  forall c, In c (saves (trace s)) ->
    exists a1 a2,
      repo_audit s = (a1 ++ a2)%list /\ c = visited (map audit_repo a1) [].
Proof.
  split; [reflexivity|].
  exact (cache_follows_the_audit_list 5 Mock.two_orgs NoFile "t" ["acme"; "beta"]
           ["alice"] [] eq_refl).
Defined.

(** X9.  A run never drops or changes an entry of the cache file: every
    version it saves, and the cache it ends with, holds each loaded entry
    with the value it had, and besides those only empty entries under the
    keys of audited repositories.  At the end every audited repository
    has an entry. *)
Theorem loaded_entries_survive fuel w file token orgs uids c0 :
  initial_cache file = Some c0 ->
  let s := final_state (check_user_activity fuel w file token orgs uids) in
  (forall c, c = cache s \/ In c (saves (trace s)) ->
     (forall k v, dict_get k c0 = Some v -> dict_get k c = Some v) /\
     (forall k v, dict_get k c = Some v ->
        dict_get k c0 = Some v \/
        (v = VObj [] /\ In k (map audit_repo (repo_audit s))))) /\
  (forall e, In e (repo_audit s) -> dict_mem (audit_repo e) (cache s) = true).
Proof.
  intros Hc s.
  destruct (run_cache_shape fuel w file token orgs uids c0 Hc) as [Hk Hs].
  fold s in Hk, Hs.
  assert (G : forall c, c = cache s \/ In c (saves (trace s)) ->
            exists a1 a2, repo_audit s = (a1 ++ a2)%list /\
                          c = visited (map audit_repo a1) c0).
  { intros c [->|Hin]; auto. exists (repo_audit s), []. now rewrite app_nil_r. }
  split.
  - intros c Hin. destruct (G c Hin) as (a1 & a2 & Ea & ->). split.
    + intros k v E. now rewrite visited_lookup, E.
    + intros k v. rewrite visited_lookup.
      destruct (dict_get k c0); auto.
      destruct (existsb (String.eqb k) (map audit_repo a1)) eqn:Ex; [|discriminate].
      intros E. inversion E. right. split; auto.
      apply existsb_eqb_In in Ex. rewrite Ea, map_app. apply in_or_app. now left.
  - intros e Hin. rewrite Hk. unfold dict_mem. rewrite visited_lookup.
    destruct (dict_get (audit_repo e) c0); auto.
    assert (Ex : existsb (String.eqb (audit_repo e)) (map audit_repo (repo_audit s)) = true).
    { apply existsb_exists. exists (audit_repo e). split.
      - now apply in_map.
      - apply String.eqb_refl. }
    now rewrite Ex.
Qed.

Lemma loaded_entries_survive_witness :
  let c0 := [("acme/site", VObj [("seen", VStr "2026-10-01")])] in
  let s := final_state
             (check_user_activity 5 Mock.two_orgs (FileJson c0) "t" ["acme"; "beta"]
                ["alice"; "bob"]) in
  initial_cache (FileJson c0) = Some c0 /\
  (forall c, c = cache s \/ In c (saves (trace s)) ->
     (forall k v, dict_get k c0 = Some v -> dict_get k c = Some v) /\
     (forall k v, dict_get k c = Some v ->
        dict_get k c0 = Some v \/
        (v = VObj [] /\ In k (map audit_repo (repo_audit s))))) /\
  (forall e, In e (repo_audit s) -> dict_mem (audit_repo e) (cache s) = true).
Proof.
  split; [reflexivity|].
  exact (loaded_entries_survive 5 Mock.two_orgs
           (FileJson [("acme/site", VObj [("seen", VStr "2026-10-01")])]) "t"
           ["acme"; "beta"] ["alice"; "bob"] _ eq_refl).
Defined.

(** * Further properties: the cache has no say in a run *)

Lemma blind_eq (s s' : state) :
  blind s = blind s' <->
  tick s = tick s' /\ map blind_event (trace s) = map blind_event (trace s') /\
  user_summary s = user_summary s' /\ user_ids s = user_ids s' /\
  repo_audit s = repo_audit s'.
Proof.
  unfold blind. split.
  - intros H. inversion H. auto.
  - intros (-> & -> & -> & -> & ->). reflexivity.
Qed.

Ltac blind_prim :=
  let H := fresh in
  intros [n t c us ids a] [n' t' c' us' ids' a'] H;
  apply blind_eq in H; simpl in H;
  destruct H as (? & ? & ? & ? & ?); subst.

Ltac blind_done := simpl; unfold blind; simpl; congruence.

Lemma oblivious_ret {A} (a : A) : oblivious (ret a).
Proof. intros s s' H. simpl. now rewrite H. Qed.

Lemma oblivious_raise {A} (e : exn) : oblivious (@raise A e).
Proof. intros s s' H. simpl. now rewrite H. Qed.

Lemma oblivious_gets {A} (f : state -> A) :
  (forall s s', blind s = blind s' -> f s = f s') -> oblivious (gets f).
Proof. intros Hf s s' H. unfold gets. simpl. now rewrite H, (Hf s s' H). Qed.

Lemma oblivious_modify (f : state -> state) :
  (forall s s', blind s = blind s' -> blind (f s) = blind (f s')) ->
  oblivious (modify f).
Proof. intros Hf s s' H. unfold modify. simpl. now rewrite (Hf s s' H). Qed.

Lemma oblivious_bind {A B} (m : M A) (k : A -> M B) :
  oblivious m -> (forall a, oblivious (k a)) -> oblivious (bind m k).
Proof.
  intros Hm Hk s s' H. specialize (Hm s s' H). unfold bind.
  destruct (m s) as [a s1|e s1|s1], (m s') as [a' s1'|e' s1'|s1'];
    simpl in Hm; try discriminate Hm; try (simpl; congruence).
  assert (Ea : a = a') by congruence. subst a'.
  apply Hk. congruence.
Qed.

Lemma oblivious_try_except {A} (m : M A) (h : exn -> M A) :
  oblivious m -> (forall e, oblivious (h e)) -> oblivious (try_except m h).
Proof.
  intros Hm Hh s s' H. specialize (Hm s s' H). unfold try_except.
  destruct (m s) as [a s1|e s1|s1], (m s') as [a' s1'|e' s1'|s1'];
    simpl in Hm; try discriminate Hm; try (simpl; congruence).
  assert (Ee : e = e') by congruence. subst e'.
  apply Hh. congruence.
Qed.

Lemma oblivious_when (b : bool) (m : M unit) : oblivious m -> oblivious (when b m).
Proof. destruct b; simpl; auto using oblivious_ret. Qed.

Lemma oblivious_for_each {A} (xs : list A) (f : A -> M unit) :
  (forall x, oblivious (f x)) -> oblivious (for_each xs f).
Proof.
  intros Hf. induction xs as [|x xs IH]; simpl.
  - apply oblivious_ret.
  - apply oblivious_bind; auto.
Qed.

Lemma oblivious_for_repos (f : value -> M control) (repos : list value) :
  (forall x, oblivious (f x)) -> oblivious (for_repos f repos).
Proof.
  intros Hf. induction repos as [|x xs IH]; simpl.
  - apply oblivious_ret.
  - apply oblivious_bind; auto. intros [|]; auto using oblivious_ret.
Qed.

Lemma oblivious_emit (f : state -> event) :
  (forall s s', blind s = blind s' -> blind_event (f s) = blind_event (f s')) ->
  oblivious (modify (fun s => emit (f s) s)).
Proof.
  intros Hf. apply oblivious_modify. intros s s' H.
  pose proof (Hf s s' H) as He. revert He. generalize (f s), (f s').
  revert s s' H. blind_prim. intros e e' He. unfold emit, blind. simpl.
  rewrite !map_app. simpl. congruence.
Qed.

(** ** The fetcher *)

Lemma oblivious_log_error w msg : oblivious (log_error w msg).
Proof.
  apply (oblivious_emit
           (fun s => ELogError (utcnow_isoformat w (tick s) ++ " - " ++ msg ++ newline))).
  intros s s' H. apply blind_eq in H. now destruct H as (-> & _).
Qed.

Lemma oblivious_time_sleep z : oblivious (time_sleep z).
Proof.
  unfold time_sleep. destruct (_ || _); [apply (@oblivious_raise unit)|].
  destruct (z <? 0)%Z.
  - apply (@oblivious_raise unit).
  - apply (oblivious_emit (fun _ => ESleep z)). reflexivity.
Qed.

Lemma oblivious_http_get w url auth : oblivious (http_get w url auth).
Proof.
  blind_prim. unfold http_get. simpl.
  destruct (session_get w n' url auth); simpl; unfold blind; simpl;
    rewrite !map_app; congruence.
Qed.

Lemma oblivious_py_int h : oblivious (py_int h).
Proof. destruct h; [apply oblivious_ret|apply oblivious_raise]. Qed.

Lemma oblivious_header_lookup name h : oblivious (header_lookup name h).
Proof. destruct h; [apply oblivious_ret|apply oblivious_raise]. Qed.

Lemma oblivious_rate_limit_guard w r : oblivious (rate_limit_guard w r).
Proof.
  unfold rate_limit_guard.
  destruct (_ && _); [|apply oblivious_ret].
  apply oblivious_bind; [apply oblivious_header_lookup|intros h].
  apply oblivious_bind; [apply oblivious_py_int|intros remaining].
  destruct (remaining =? 0)%Z; [|apply oblivious_ret].
  apply oblivious_bind; [apply oblivious_header_lookup|intros h'].
  apply oblivious_bind; [apply oblivious_py_int|intros reset].
  apply oblivious_bind; [|intros now; apply oblivious_time_sleep].
  apply oblivious_gets. intros s s' H. apply blind_eq in H.
  now destruct H as (-> & _).
Qed.

Lemma oblivious_github_request w url auth : oblivious (github_request w url auth).
Proof.
  unfold github_request.
  apply oblivious_bind.
  - apply oblivious_try_except.
    + apply oblivious_bind; [apply oblivious_http_get|intros r].
      apply oblivious_bind; [apply oblivious_rate_limit_guard|intros _].
      apply oblivious_bind.
      * unfold raise_for_status.
        destruct (http_error r); [apply oblivious_raise|apply oblivious_ret].
      * intros _. unfold response_json.
        destruct (json r); [apply oblivious_ret|apply oblivious_raise].
    + intros e. apply oblivious_bind.
      { apply oblivious_gets. intros s s' H. apply blind_eq in H.
        now destruct H as (-> & _). }
      intros n. apply oblivious_bind; [apply oblivious_log_error|intros _].
      apply oblivious_ret.
  - intros payload. apply oblivious_bind; [|intros _; apply oblivious_ret].
    apply (oblivious_emit (fun _ => EReturn payload)). reflexivity.
Qed.

(** ** The match sites and the loops *)

Lemma oblivious_py_get v k d : oblivious (py_get v k d).
Proof.
  unfold py_get. destruct (get_member v k d);
    [apply oblivious_ret|apply oblivious_raise].
Qed.

Lemma oblivious_py_gt a b : oblivious (py_gt a b).
Proof.
  destruct a, b; simpl; try apply oblivious_raise; apply oblivious_ret.
Qed.

Lemma oblivious_py_len b : oblivious (py_len b).
Proof.
  destruct b as [|[| |]]; simpl; try apply oblivious_ret; apply oblivious_raise.
Qed.

Lemma oblivious_summary_get key : oblivious (summary_get key).
Proof.
  blind_prim. unfold summary_get.
  destruct key as [|uid|m]; simpl; unfold blind; simpl; try congruence.
  destruct (dict_get uid us'); simpl; unfold blind; simpl; congruence.
Qed.

Lemma oblivious_summary_update key f : oblivious (summary_update key f).
Proof.
  unfold summary_update.
  apply oblivious_bind; [apply oblivious_summary_get|intros r].
  destruct key; try apply oblivious_ret.
  apply oblivious_modify. blind_prim; blind_done.
Qed.

Lemma oblivious_user_ids : oblivious (gets user_ids).
Proof.
  apply oblivious_gets. intros s s' H. apply blind_eq in H. tauto.
Qed.

Lemma oblivious_still_lacks flag who : oblivious (still_lacks flag who).
Proof.
  unfold still_lacks.
  apply oblivious_bind; [apply oblivious_user_ids|intros uids].
  destruct (py_in who uids); [|apply oblivious_ret].
  apply oblivious_bind; [apply oblivious_summary_get|intros r].
  apply oblivious_ret.
Qed.

Lemma oblivious_since_days w d : oblivious (since_days w d).
Proof.
  apply oblivious_gets. intros s s' H. apply blind_eq in H.
  now destruct H as (-> & _).
Qed.

Ltac forget :=
  repeat first
    [ apply oblivious_ret | apply oblivious_raise
    | apply oblivious_py_get | apply oblivious_py_gt | apply oblivious_py_len
    | apply oblivious_github_request | apply oblivious_since_days
    | apply oblivious_summary_get | apply oblivious_summary_update
    | apply oblivious_still_lacks | apply oblivious_user_ids
    | apply oblivious_when | apply oblivious_for_each
    | apply oblivious_bind
    | match goal with
      | |- forall _, _ => intro
      | |- oblivious (if ?b then _ else _) => destruct b
      end ].

Lemma oblivious_login_of item member : oblivious (login_of item member).
Proof. unfold login_of. forget. Qed.

Lemma oblivious_default_commit_step k c : oblivious (default_commit_step k c).
Proof.
  unfold default_commit_step.
  apply oblivious_bind; [apply oblivious_login_of|intros author]. forget.
Qed.

Lemma oblivious_any_commit_step w k b c : oblivious (any_commit_step w k b c).
Proof.
  unfold any_commit_step.
  apply oblivious_bind; [apply oblivious_login_of|intros author]. forget.
Qed.

Lemma oblivious_event_step w k e : oblivious (event_step w k e).
Proof.
  unfold event_step.
  apply oblivious_bind; [apply oblivious_login_of|intros actor]. forget.
Qed.

Lemma oblivious_fallback_step c : oblivious (fallback_step c).
Proof.
  unfold fallback_step.
  apply oblivious_bind; [apply oblivious_login_of|intros author]. forget.
Qed.

Lemma oblivious_cache_touch k : oblivious (cache_touch k).
Proof.
  apply oblivious_modify. blind_prim. cbn [cache].
  destruct (dict_mem k c), (dict_mem k c'); blind_done.
Qed.

Lemma oblivious_save_progress : oblivious save_progress.
Proof.
  apply (oblivious_emit (fun s => ESaveCache (cache s))). reflexivity.
Qed.

Lemma oblivious_still_missing uids : oblivious (still_missing uids).
Proof.
  induction uids as [|u us IH]; simpl; [apply oblivious_ret|].
  apply oblivious_bind; [apply oblivious_summary_get|intros r].
  apply oblivious_bind; [apply IH|intros kept]. apply oblivious_ret.
Qed.

Lemma oblivious_narrow_user_ids : oblivious narrow_user_ids.
Proof.
  unfold narrow_user_ids.
  apply oblivious_bind; [apply oblivious_user_ids|intros uids].
  apply oblivious_bind; [apply oblivious_still_missing|intros kept].
  apply oblivious_modify. blind_prim; blind_done.
Qed.

Lemma oblivious_repo_begin w auth org repo : oblivious (repo_begin w auth org repo).
Proof.
  unfold repo_begin.
  apply oblivious_bind; [apply oblivious_py_get|intros repo_name].
  apply oblivious_bind; [apply oblivious_py_get|intros full_name].
  apply oblivious_bind; [apply oblivious_py_get|intros default_branch].
  apply oblivious_bind; [apply oblivious_cache_touch|intros _].
  apply oblivious_bind; [apply oblivious_modify; blind_prim; blind_done|intros _].
  apply oblivious_bind; [apply oblivious_since_days|intros since_60].
  apply oblivious_bind; [apply oblivious_github_request|intros commits].
  apply oblivious_bind.
  { apply oblivious_when, oblivious_for_each. intros c.
    apply oblivious_default_commit_step. }
  intros _. forget.
Qed.

Lemma oblivious_repo_finish w auth org name k since branches :
  oblivious (repo_finish w auth org name k since branches).
Proof.
  unfold repo_finish.
  apply oblivious_bind.
  { unfold scan_branches_recent. apply oblivious_for_each. intros branch.
    apply oblivious_bind; [apply oblivious_py_get|intros bn].
    apply oblivious_bind; [apply oblivious_github_request|intros commits].
    apply oblivious_when, oblivious_for_each. intros c.
    apply oblivious_any_commit_step. }
  intros _. apply oblivious_bind.
  { unfold scan_events.
    apply oblivious_bind; [apply oblivious_github_request|intros events].
    apply oblivious_when, oblivious_for_each. intros e.
    apply oblivious_event_step. }
  intros _. apply oblivious_bind.
  { unfold scan_fallback.
    apply oblivious_bind; [apply oblivious_since_days|intros since_90].
    apply oblivious_for_each. intros branch.
    apply oblivious_bind; [apply oblivious_py_get|intros bn].
    apply oblivious_bind; [apply oblivious_github_request|intros commits].
    apply oblivious_when, oblivious_for_each. intros c.
    apply oblivious_fallback_step. }
  intros _.
  apply oblivious_bind; [apply oblivious_save_progress|intros _].
  apply oblivious_bind; [apply oblivious_narrow_user_ids|intros _].
  apply oblivious_bind; [apply oblivious_user_ids|intros [|u us]];
    apply oblivious_ret.
Qed.

Lemma oblivious_process_repo w auth org repo : oblivious (process_repo w auth org repo).
Proof.
  unfold process_repo. apply oblivious_bind; [apply oblivious_repo_begin|].
  intros [[[name k] since] branches].
  destruct (negb (truthy branches));
    [apply oblivious_ret|apply oblivious_repo_finish].
Qed.

Lemma oblivious_page_loop fuel w auth org page :
  oblivious (page_loop fuel w auth org page).
Proof.
  revert page. induction fuel as [|fuel IH]; intros page.
  - intros s s' H. simpl. now rewrite H.
  - simpl. apply oblivious_bind; [apply oblivious_github_request|intros repos].
    destruct (negb (truthy repos)); [apply oblivious_ret|].
    apply oblivious_bind; [apply oblivious_py_len|intros n].
    destruct (Nat.eqb n 0); [apply oblivious_ret|].
    apply oblivious_bind.
    { apply oblivious_for_repos. intros x. apply oblivious_process_repo. }
    intros _.
    apply oblivious_bind; [apply oblivious_user_ids|intros [|u us]];
      [apply oblivious_ret|apply IH].
Qed.

Lemma oblivious_scan_orgs fuel w auth orgs : oblivious (scan_orgs fuel w auth orgs).
Proof. apply oblivious_for_each. intros org. apply oblivious_page_loop. Qed.

Lemma oblivious_write_report : oblivious write_report.
Proof.
  apply (oblivious_emit
           (fun s => EWriteReport (summary_rows (user_summary s)) (repo_audit s))).
  intros s s' H. apply blind_eq in H.
  now destruct H as (_ & _ & -> & _ & ->).
Qed.

Lemma blind_views (s s' : state) :
  blind s = blind s' ->
  requests (trace s) = requests (trace s') /\
  sleeps (trace s) = sleeps (trace s') /\
  error_log (trace s) = error_log (trace s') /\
  reports (trace s) = reports (trace s') /\
  length (saves (trace s)) = length (saves (trace s')).
Proof.
  intros H. apply blind_eq in H. destruct H as (_ & H & _).
  generalize dependent (trace s'). induction (trace s) as [|e t IH];
    intros [|e' t'] H; simpl in H; try discriminate H.
  - repeat split.
  - inversion H as [[He Ht]]. destruct (IH t' Ht) as (R & S & L & P & N).
    destruct e, e'; simpl in He; inversion He; subst; simpl;
      rewrite ?R, ?S, ?L, ?P, ?N; repeat split.
Qed.

(** X10.  The contents of the cache file have no say in a run.  Two runs
    that differ only in the (readable) cache file they find end alike, with
    the same result or exception, after the same requests, sleeps and log
    lines and as many saves, with the same summary, active users and audit
    list, and the same report if one is written: the cache never spares a
    request. *)
Theorem cache_contents_do_not_matter fuel w file file' token orgs uids c c' :
  initial_cache file = Some c ->
  initial_cache file' = Some c' ->
  let r := check_user_activity fuel w file token orgs uids in
  let r' := check_user_activity fuel w file' token orgs uids in
  blind_result r = blind_result r' /\
  requests (trace (final_state r)) = requests (trace (final_state r')) /\
  sleeps (trace (final_state r)) = sleeps (trace (final_state r')) /\
  error_log (trace (final_state r)) = error_log (trace (final_state r')) /\
  reports (trace (final_state r)) = reports (trace (final_state r')) /\
  length (saves (trace (final_state r))) = length (saves (trace (final_state r'))).
Proof.
  intros Hc Hc' r r'.
  assert (G : blind_result r = blind_result r').
  { subst r r'. rewrite !check_user_activity_unfold.
    assert (E : blind_result
                  ((scan_orgs fuel w ("token " ++ token) orgs ;;; write_report)
                     (loaded c uids))
                = blind_result
                  ((scan_orgs fuel w ("token " ++ token) orgs ;;; write_report)
                     (loaded c' uids))).
    { apply oblivious_bind;
        [apply oblivious_scan_orgs|intros _; apply oblivious_write_report
        |reflexivity]. }
    destruct file; simpl in Hc; inversion Hc; subst;
      destruct file'; simpl in Hc'; inversion Hc'; subst; exact E. }
  split; [exact G|]. apply blind_views.
  destruct r, r'; simpl in G; try discriminate G; simpl; congruence.
Qed.

Lemma cache_contents_do_not_matter_witness :
  let c' := [("acme/site", VObj [("seen", VStr "2026-10-01")])] in
  let r := check_user_activity 5 Mock.two_orgs NoFile "t" ["acme"; "beta"] ["alice"] in
  let r' := check_user_activity 5 Mock.two_orgs (FileJson c') "t" ["acme"; "beta"]
              ["alice"] in
  initial_cache NoFile = Some [] /\
  initial_cache (FileJson c') = Some c' /\
  blind_result r = blind_result r' /\
  requests (trace (final_state r)) = requests (trace (final_state r')) /\
  sleeps (trace (final_state r)) = sleeps (trace (final_state r')) /\
  error_log (trace (final_state r)) = error_log (trace (final_state r')) /\
  reports (trace (final_state r)) = reports (trace (final_state r')) /\
  length (saves (trace (final_state r))) = length (saves (trace (final_state r'))).
Proof.
  split; [reflexivity|]. split; [reflexivity|].
  exact (cache_contents_do_not_matter 5 Mock.two_orgs NoFile
           (FileJson [("acme/site", VObj [("seen", VStr "2026-10-01")])]) "t"
           ["acme"; "beta"] ["alice"] [] _ eq_refl eq_refl).
Defined.

(** * Further properties: a run comes to an end *)

Lemma judged_bind_post w auth (F : Prop) {A B} (m : M A) (k : A -> M B)
    (Q : A -> Prop) :
  judged w auth F m ->
  (forall s a s', m s = Ok a s' -> Q a) ->
  (forall a, Q a -> judged w auth F (k a)) ->
  judged w auth F (bind m k).
Proof.
  intros Hm HQ Hk s Hs. unfold bind. destruct (Hm s Hs) as [Hr He].
  destruct (m s) as [a s1|e s1|s1] eqn:E; simpl in *; auto.
  destruct (Hk a (HQ s a s1 E) s1 (reach_ids_tracked _ _ _ _ Hr Hs)) as [Hr' He'].
  split; [eapply reach_trans; eassumption|exact He'].
Qed.

Lemma last_page_is_empty w auth org last s b s1 :
  listing_ends w auth org last ->
  github_request w (page_url org last) auth s = Ok b s1 ->
  truthy b = false.
Proof.
  intros Hl E.
  destruct (github_request_spec w (page_url org last) auth s) as (b' & t & E' & _ & Hp & _).
  rewrite E in E'. inversion E'; subst b'. specialize (Hl (tick s)).
  destruct (parsed_payload w (tick s) (page_url org last) auth) as [p|].
  - destruct Hp as [-> _]. exact Hl.
  - destruct Hp as [-> _]. reflexivity.
Qed.

Lemma judged_page_loop_fuel w auth org last :
  listing_ends w auth org last ->
  forall fuel page, page <= last < page + fuel ->
    judged w auth False (page_loop fuel w auth org page).
Proof.
  intros Hl. induction fuel as [|fuel IH]; intros page Hp; [lia|].
  simpl.
  apply judged_bind_post with (Q := fun b => page = last -> truthy b = false).
  - apply judged_github_request.
  - intros s b s1 E ->. eapply last_page_is_empty; eassumption.
  - intros repos Hq.
    destruct (truthy repos) eqn:Et; simpl; [|apply judged_ret].
    assert (page <> last) by (intros ->; specialize (Hq eq_refl); discriminate Hq).
    apply judged_bind; [apply judged_py_len|intros n].
    destruct (Nat.eqb n 0); [apply judged_ret|].
    apply judged_bind; [apply judged_batch|intros _].
    apply judged_bind; [apply judged_gets|intros [|u us]];
      [apply judged_ret|apply IH; lia].
Qed.

(** X11.  A run comes to an end as soon as the listings do: when page
    [last] of every organization is empty (or cannot be fetched), no page
    loop makes more than [last] turns, whatever else the remote side
    answers; the run then returns or ends with an exception. *)
Theorem run_ends_when_the_listings_end last w file token orgs uids :
  1 <= last ->
  (forall org, In org orgs -> listing_ends w ("token " ++ token) org last) ->
  forall s, check_user_activity last w file token orgs uids <> OutOfFuel s.
Proof.
  intros Hl He s. rewrite check_user_activity_unfold.
  assert (G : forall c,
    (scan_orgs last w ("token " ++ token) orgs ;;; write_report) (loaded c uids)
      <> OutOfFuel s).
  { intros c.
    assert (J : judged w ("token " ++ token) False
                  (scan_orgs last w ("token " ++ token) orgs)).
    { unfold scan_orgs. clear s. induction orgs as [|org orgs IH]; simpl.
      - apply judged_ret.
      - apply judged_bind.
        + apply judged_page_loop_fuel with (last := last); [|lia].
          apply He. now left.
        + intros _. apply IH. intros o Ho. apply He. now right. }
    destruct (J (loaded c uids) (loaded_tracked c uids)) as [_ Hr].
    unfold bind.
    destruct (scan_orgs last w ("token " ++ token) orgs (loaded c uids));
      simpl in *; try discriminate. contradiction. }
  destruct file; [apply G|apply G|discriminate].
Qed.

Lemma run_ends_when_the_listings_end_witness :
  1 <= 4 /\
  (forall org, In org ["acme"] -> listing_ends Mock.three_pages ("token " ++ "t") org 4) /\
  forall s,
    check_user_activity 4 Mock.three_pages NoFile "t" ["acme"] ["alice"; "bob"]
      <> OutOfFuel s.
Proof.
  assert (H : forall org, In org ["acme"] ->
                listing_ends Mock.three_pages ("token " ++ "t") org 4).
  { intros org [<-|[]] n. vm_compute. reflexivity. }
  split; [lia|]. split; [exact H|].
  exact (run_ends_when_the_listings_end 4 Mock.three_pages NoFile "t" ["acme"]
           ["alice"; "bob"] ltac:(lia) H).
Defined.

(** * Further properties: a run on well-formed answers returns *)

Lemma returns_ret {A} (a : A) (Q : A -> Prop) : Q a -> returns (ret a) Q.
Proof. intros Hq s Hs. now exists a, s. Qed.

Lemma returns_gets {A} (f : state -> A) : returns (gets f) (fun _ => True).
Proof. intros s Hs. now exists (f s), s. Qed.

Lemma returns_bind {A B} (m : M A) (k : A -> M B) (Q : A -> Prop) (Q' : B -> Prop) :
  returns m Q -> (forall a, Q a -> returns (k a) Q') -> returns (bind m k) Q'.
Proof.
  intros Hm Hk s Hs. destruct (Hm s Hs) as (a & s1 & E & H1 & Hq).
  unfold bind. rewrite E. now apply Hk.
Qed.

Lemma returns_for_each {A} (xs : list A) (f : A -> M unit) (P : A -> Prop) :
  (forall x, P x -> returns (f x) (fun _ => True)) ->
  Forall P xs -> returns (for_each xs f) (fun _ => True).
Proof.
  intros Hf. induction 1 as [|x xs Hx _ IH]; simpl.
  - now apply returns_ret.
  - eapply returns_bind; [apply Hf, Hx|]. intros _ _. exact IH.
Qed.

Lemma returns_for_repos (f : value -> M control) (repos : list value) (P : value -> Prop) :
  (forall x, P x -> returns (f x) (fun _ => True)) ->
  Forall P repos -> returns (for_repos f repos) (fun _ => True).
Proof.
  intros Hf. induction 1 as [|x xs Hx _ IH]; simpl.
  - now apply returns_ret.
  - eapply returns_bind; [apply Hf, Hx|]. intros [|] _; auto.
    now apply returns_ret.
Qed.

(** ** Well-formed items *)

Lemma wf_item_parts (item : value) :
  wf_item item = true ->
  exists a act d,
    author_login item "author" = Some a /\
    author_login item "actor" = Some act /\
    commit_date item = Some d /\
    (forall u, a = VStr u -> exists text, d = VStr text).
Proof.
  unfold wf_item.
  destruct (author_login item "author") as [a|]; [|discriminate].
  destruct (author_login item "actor") as [act|];
    [|destruct a; discriminate].
  destruct (commit_date item) as [d|]; [|destruct a; discriminate].
  intros H. exists a, act, d. repeat split; auto.
  intros u ->. destruct d; try discriminate H. eauto.
Qed.

Lemma wf_item_object (item : value) :
  wf_item item = true -> exists m, item = VObj m.
Proof.
  intros H. apply wf_item_parts in H. destruct H as (a & _ & _ & Ha & _).
  unfold author_login in Ha. destruct item; try discriminate Ha. eauto.
Qed.

Lemma wf_items (b : body) :
  wf_body b = true -> truthy b = true ->
  Forall (fun x => wf_item x = true) (py_iter b) /\
  exists n, forall s, py_len b s = Ok n s.
Proof.
  destruct b as [items|v]; simpl.
  - intros H _. split; [apply Forall_forall; now apply forallb_forall|].
    now exists (length items).
  - intros H T. rewrite T in H. discriminate H.
Qed.

Lemma returns_member (item : value) (k : string) (d : value) :
  wf_item item = true -> returns (py_get item k d) (fun _ => True).
Proof.
  intros H. apply wf_item_object in H. destruct H as [m ->].
  unfold py_get. simpl. now apply returns_ret.
Qed.

(** ** The match sites *)

Lemma fallback_ready_same (s s' : state) :
  user_ids s' = user_ids s -> user_summary s' = user_summary s ->
  fallback_ready s -> fallback_ready s'.
Proof. unfold fallback_ready. intros -> ->. auto. Qed.

Lemma fallback_ready_set (s : state) (uid : string) (r' : user_record) :
  fallback_ready s ->
  (last_push_date r' = VNull \/ exists text, last_push_date r' = VStr text) ->
  fallback_ready (with_user_summary (dict_set uid r' (user_summary s)) s).
Proof.
  intros [Hk Hd] Hr. split; simpl.
  - intros u Hu. specialize (Hk u Hu). unfold dict_mem in *.
    destruct (string_dec uid u) as [<-|Hne].
    + now rewrite dict_get_set_same.
    + now rewrite dict_get_set_other.
  - intros u r G. destruct (string_dec uid u) as [<-|Hne].
    + rewrite dict_get_set_same in G. inversion G. now subst.
    + rewrite dict_get_set_other in G by assumption. eauto.
Qed.

Lemma flag_update_ready (P : user_record -> user_record -> Prop) (s s' : state) :
  (forall r r', P r r' -> last_push_date r' = last_push_date r) ->
  updates P s s' -> fallback_ready s -> fallback_ready s'.
Proof.
  intros HP [->|(uid & r & r' & _ & G & Hr & ->)] Hs; auto.
  apply fallback_ready_set; auto.
  rewrite (HP r r' Hr). destruct Hs as [_ Hd]. eauto.
Qed.

Ltac ready_case :=
  simpl in *;
  match goal with
  | |- True => exact I
  | H : False |- _ => destruct H
  | R : fallback_ready ?s, H : existsb _ (user_ids ?s) = true,
    G : dict_get _ (user_summary ?s) = None |- _ =>
      exfalso; exact (tracked_lookup _ _ (proj1 R) H G)
  | G : dict_get ?u (dict_set ?u _ _) = None |- _ =>
      rewrite dict_get_set_same in G; discriminate G
  | _ => discriminate
  | _ => congruence
  end.

Ltac site_returns H :=
  let a := fresh "a" in let act := fresh "act" in let d := fresh "d" in
  let Ha := fresh "Ha" in let Hact := fresh "Hact" in
  let Hd := fresh "Hd" in let Hs := fresh "Hs" in
  apply wf_item_parts in H; destruct H as (a & act & d & Ha & Hact & Hd & Hs);
  unfold author_login, commit_date in Ha, Hact, Hd.

Lemma default_commit_step_clean k c s :
  wf_item c = true -> fallback_ready s ->
  match default_commit_step k c s with Ok _ _ => True | _ => False end.
Proof.
  intros H R. site_returns H. unfold_step. unfold py_in.
  crush_step; ready_case.
Qed.

Lemma any_commit_step_clean w k b c s :
  wf_item c = true -> fallback_ready s ->
  match any_commit_step w k b c s with Ok _ _ => True | _ => False end.
Proof.
  intros H R. site_returns H. unfold_step. unfold py_in.
  crush_step; ready_case.
Qed.

Lemma event_step_clean w k e s :
  wf_item e = true -> fallback_ready s ->
  match event_step w k e s with Ok _ _ => True | _ => False end.
Proof.
  intros H R. site_returns H. unfold_step. unfold py_in.
  crush_step; ready_case.
Qed.

Lemma fallback_step_clean c s :
  wf_item c = true -> fallback_ready s ->
  match fallback_step c s with
  | Ok _ s' => fallback_ready s'
  | _ => False
  end.
Proof.
  intros H R. site_returns H. unfold_step. unfold py_in.
  crush_step; try ready_case.
  all: repeat match goal with
         | H : Some _ = Some _ |- _ => inversion H; subst; clear H
         end.
  all: try match goal with
         | Hs : forall u, VStr ?x = VStr u -> _ |- _ =>
             destruct (Hs x eq_refl) as [text Ht];
             try discriminate Ht; try (inversion Ht; subst)
         end.
  all: try (apply fallback_ready_set; simpl; eauto; fail).
  all: try match goal with
         | G : dict_get _ (user_summary ?s) = Some ?u, R : fallback_ready ?s |- _ =>
             destruct (proj2 R _ _ G) as [E|[y E]]; rewrite E in *;
             simpl in *; try discriminate
         end.
Qed.

Lemma returns_default_commit_step k c :
  wf_item c = true -> returns (default_commit_step k c) (fun _ => True).
Proof.
  intros H s R. pose proof (default_commit_step_clean k c s H R) as C.
  pose proof (default_commit_step_exact k c s) as U.
  destruct (default_commit_step k c s) as [[] s'|e s'|s']; try contradiction.
  exists tt, s'. split; [reflexivity|split; [|exact I]].
  eapply flag_update_ready; [|exact U|exact R]. now intros r r' [_ ->].
Qed.

Lemma returns_any_commit_step w k b c :
  wf_item c = true -> returns (any_commit_step w k b c) (fun _ => True).
Proof.
  intros H s R. pose proof (any_commit_step_clean w k b c s H R) as C.
  pose proof (any_commit_step_exact w k b c s) as U.
  destruct (any_commit_step w k b c s) as [[] s'|e s'|s']; try contradiction.
  exists tt, s'. split; [reflexivity|split; [|exact I]].
  eapply flag_update_ready; [|exact U|exact R]. now intros r r' [_ ->].
Qed.

Lemma returns_event_step w k e :
  wf_item e = true -> returns (event_step w k e) (fun _ => True).
Proof.
  intros H s R. pose proof (event_step_clean w k e s H R) as C.
  pose proof (event_step_exact w k e s) as U.
  destruct (event_step w k e s) as [[] s'|x s'|s']; try contradiction.
  exists tt, s'. split; [reflexivity|split; [|exact I]].
  eapply flag_update_ready; [|exact U|exact R]. now intros r r' [_ [ty ->]].
Qed.

Lemma returns_fallback_step c :
  wf_item c = true -> returns (fallback_step c) (fun _ => True).
Proof.
  intros H s R. pose proof (fallback_step_clean c s H R) as C.
  destruct (fallback_step c s) as [[] s'|e s'|s']; try contradiction.
  now exists tt, s'.
Qed.

(** ** The scans and the loops, against a remote side whose answers are
       well formed *)

Section Digest.
Variables (w : world) (auth : string).
Hypothesis answers : well_formed w auth.

Lemma returns_github_request url :
  returns (github_request w url auth) (fun b => wf_body b = true).
Proof.
  intros s R.
  destruct (github_request_spec w url auth s) as (b & t & E & _ & Hp & _).
  exists b, (with_io (S (tick s)) (trace s ++ EGet url :: t ++ [EReturn b]) s).
  split; [exact E|]. split; [now apply (fallback_ready_same s)|].
  specialize (answers (tick s) url).
  destruct (parsed_payload w (tick s) url auth) as [p|].
  - destruct Hp as [-> _]. now apply answers.
  - destruct Hp as [-> _]. reflexivity.
Qed.

Lemma returns_scan (items : body) (f : value -> M unit) :
  wf_body items = true ->
  (forall x, wf_item x = true -> returns (f x) (fun _ => True)) ->
  returns (when (truthy items) (for_each (py_iter items) f)) (fun _ => True).
Proof.
  intros Hb Hf. destruct (truthy items) eqn:T; simpl.
  - apply returns_for_each with (P := fun x => wf_item x = true); auto.
    now apply wf_items.
  - now apply returns_ret.
Qed.

Lemma returns_since_days d : returns (since_days w d) (fun _ => True).
Proof. apply returns_gets. Qed.

Lemma returns_modify (f : state -> state) :
  (forall s, user_ids (f s) = user_ids s /\ user_summary (f s) = user_summary s) ->
  returns (modify f) (fun _ => True).
Proof.
  intros Hf s R. exists tt, (f s). split; [reflexivity|split; [|exact I]].
  destruct (Hf s). now apply (fallback_ready_same s).
Qed.

Lemma returns_repo_begin org repo :
  wf_item repo = true ->
  returns (repo_begin w auth org repo)
          (fun x => wf_body (snd x) = true).
Proof.
  intros Hr. unfold repo_begin.
  eapply returns_bind; [now apply returns_member|intros repo_name _].
  eapply returns_bind; [now apply returns_member|intros full_name _].
  eapply returns_bind; [now apply returns_member|intros default_branch _].
  eapply returns_bind.
  { apply returns_modify. intros s. simpl.
    now destruct (dict_mem _ (cache s)). }
  intros _ _. eapply returns_bind; [now apply returns_modify|intros _ _].
  eapply returns_bind; [apply returns_since_days|intros since_60 _].
  eapply returns_bind; [apply returns_github_request|intros commits Hc].
  eapply returns_bind.
  { apply returns_scan; auto. intros c. apply returns_default_commit_step. }
  intros _ _. eapply returns_bind; [apply returns_since_days|intros since_30 _].
  eapply returns_bind; [apply returns_github_request|intros branches Hb].
  now apply returns_ret.
Qed.

Lemma returns_narrow_user_ids : returns narrow_user_ids (fun _ => True).
Proof.
  intros s R. rewrite (narrow_user_ids_tracked s (proj1 R)).
  eexists tt, _. split; [reflexivity|]. split; auto.
  destruct R as [Hk Hd]. split; simpl; auto.
  intros uid Hin. apply filter_In in Hin. apply Hk. tauto.
Qed.

Lemma returns_repo_finish org name k since branches :
  wf_body branches = true -> truthy branches = true ->
  returns (repo_finish w auth org name k since branches) (fun _ => True).
Proof.
  intros Hb Tb. destruct (wf_items branches Hb Tb) as [Hi _].
  unfold repo_finish.
  eapply returns_bind.
  { unfold scan_branches_recent.
    apply returns_for_each with (P := fun x => wf_item x = true); auto.
    intros branch Hbr.
    eapply returns_bind; [now apply returns_member|intros bn _].
    eapply returns_bind; [apply returns_github_request|intros commits Hc].
    apply returns_scan; auto. intros c. apply returns_any_commit_step. }
  intros _ _. eapply returns_bind.
  { unfold scan_events.
    eapply returns_bind; [apply returns_github_request|intros events He].
    apply returns_scan; auto. intros e. apply returns_event_step. }
  intros _ _. eapply returns_bind.
  { unfold scan_fallback.
    eapply returns_bind; [apply returns_since_days|intros since_90 _].
    apply returns_for_each with (P := fun x => wf_item x = true); auto.
    intros branch Hbr.
    eapply returns_bind; [now apply returns_member|intros bn _].
    eapply returns_bind; [apply returns_github_request|intros commits Hc].
    apply returns_scan; auto. intros c. apply returns_fallback_step. }
  intros _ _. eapply returns_bind.
  { unfold save_progress. now apply returns_modify. }
  intros _ _. eapply returns_bind; [apply returns_narrow_user_ids|intros _ _].
  eapply returns_bind; [apply returns_gets|intros [|u us] _];
    now apply returns_ret.
Qed.

Lemma returns_process_repo org repo :
  wf_item repo = true ->
  returns (process_repo w auth org repo) (fun _ => True).
Proof.
  intros Hr. unfold process_repo.
  eapply returns_bind; [now apply returns_repo_begin|].
  intros [[[name k] since] branches] Hb. simpl in Hb.
  destruct (truthy branches) eqn:T; simpl.
  - now apply returns_repo_finish.
  - now apply returns_ret.
Qed.

Lemma returns_page_request org page last :
  listing_ends w auth org last ->
  returns (github_request w (page_url org page) auth)
          (fun b => wf_body b = true /\ (page = last -> truthy b = false)).
Proof.
  intros Hl s R.
  destruct (returns_github_request (page_url org page) s R)
    as (b & s1 & E & R1 & Hb).
  exists b, s1. split; [exact E|]. split; [exact R1|]. split; [exact Hb|].
  intros ->. eapply last_page_is_empty; eassumption.
Qed.

Lemma returns_page_loop org last :
  listing_ends w auth org last ->
  forall fuel page, page <= last < page + fuel ->
    returns (page_loop fuel w auth org page) (fun _ => True).
Proof.
  intros Hl. induction fuel as [|fuel IH]; intros page Hp; [lia|].
  simpl.
  eapply returns_bind; [now apply returns_page_request with (last := last)|].
  intros repos [Hb Hq].
  destruct (truthy repos) eqn:T; simpl; [|now apply returns_ret].
  assert (page <> last) by (intros ->; specialize (Hq eq_refl); discriminate Hq).
  destruct (wf_items repos Hb T) as [Hi [n Hn]].
  eapply returns_bind with (Q := fun _ => True).
  { intros s R. exists n, s. now rewrite Hn. }
  intros n' _. destruct (Nat.eqb n' 0); [now apply returns_ret|].
  eapply returns_bind.
  { apply returns_for_repos with (P := fun x => wf_item x = true); auto.
    intros x. apply returns_process_repo. }
  intros _ _. eapply returns_bind; [apply returns_gets|intros [|u us] _].
  - now apply returns_ret.
  - apply IH. lia.
Qed.

Lemma returns_scan_orgs last orgs :
  1 <= last ->
  (forall org, In org orgs -> listing_ends w auth org last) ->
  returns (scan_orgs last w auth orgs) (fun _ => True).
Proof.
  intros Hl He. unfold scan_orgs.
  apply returns_for_each with (P := fun org => listing_ends w auth org last).
  - intros org Ho. apply returns_page_loop with (last := last); [exact Ho|lia].
  - now apply Forall_forall.
Qed.

End Digest.

Lemma loaded_ready (c : dict value) (uids : list string) :
  fallback_ready (loaded c uids).
Proof.
  split; [apply loaded_tracked|].
  intros uid r G. simpl in G. apply init_user_summary_records in G.
  subst r. now left.
Qed.

(** X12.  A run on well-formed answers returns.  When the cache file can
    be read, every payload the remote side hands out is a list of
    well-formed items (or falsy) and page [last] of every organization is
    empty, the run raises nothing and is not cut off: it returns, having
    written exactly one report, that of its final tables. *)
Theorem run_returns_on_well_formed_answers last w file token orgs uids c :
  initial_cache file = Some c ->
  well_formed w ("token " ++ token) ->
  1 <= last ->
  (forall org, In org orgs -> listing_ends w ("token " ++ token) org last) ->
  exists s,
    check_user_activity last w file token orgs uids = Ok tt s /\
    reports (trace s) = [(summary_rows (user_summary s), repo_audit s)].
Proof.
  intros Hc Hw Hl He.
  destruct (returns_scan_orgs w ("token " ++ token) Hw last orgs Hl He
              (loaded c uids) (loaded_ready c uids)) as ([] & s2 & E & _ & _).
  destruct (judged_scan_orgs w ("token " ++ token) last orgs (loaded c uids)
              (loaded_tracked c uids)) as [Hr _].
  rewrite E in Hr. simpl in Hr.
  apply reach_moved in Hr. destruct Hr as (t & a & Ht & _ & _ & Hf).
  apply scan_events_views in Hf. destruct Hf as [Hf _]. simpl in Ht.
  exists (emit (EWriteReport (summary_rows (user_summary s2)) (repo_audit s2)) s2).
  split.
  - rewrite check_user_activity_unfold.
    destruct file; simpl in Hc; inversion Hc; subst;
      unfold bind; rewrite E; reflexivity.
  - simpl. now rewrite reports_app, Ht, Hf.
Qed.

Lemma dict_get_member {V} (k : string) (v : V) (d : dict V) :
  dict_get k d = Some v -> In (k, v) d.
Proof.
  induction d as [|[k' v'] d IH]; simpl; [discriminate|].
  destruct (String.eqb_spec k k') as [->|Hne].
  - intros H. inversion H. now left.
  - intros H. right. auto.
Qed.

Lemma serve_well_formed (table : dict get_result) (auth : string) :
  forallb Probe.digestible (map snd table) = true ->
  well_formed (Mock.serve table) auth.
Proof.
  intros H n url b. unfold parsed_payload, Mock.serve. simpl.
  destruct (dict_get url table) as [r|] eqn:G.
  - apply dict_get_member in G.
    assert (D : Probe.digestible r = true).
    { eapply forallb_forall; [exact H|]. apply in_map_iff. now exists (url, r). }
    destruct r as [e|r]; [discriminate|]. simpl in D.
    destruct (http_error r); [discriminate|].
    destruct (json r) as [p|]; [|discriminate]. intros E. now inversion E; subst.
  - simpl. discriminate.
Qed.

Lemma run_returns_on_well_formed_answers_witness :
  initial_cache NoFile = Some [] /\
  well_formed Mock.three_pages ("token " ++ "t") /\
  1 <= 4 /\
  (forall org, In org ["acme"] -> listing_ends Mock.three_pages ("token " ++ "t") org 4) /\
  exists s,
    check_user_activity 4 Mock.three_pages NoFile "t" ["acme"] ["alice"; "bob"]
      = Ok tt s /\
    reports (trace s) = [(summary_rows (user_summary s), repo_audit s)].
Proof.
  assert (W : well_formed Mock.three_pages ("token " ++ "t")).
  { unfold Mock.three_pages. apply serve_well_formed. vm_compute. reflexivity. }
  assert (H : forall org, In org ["acme"] ->
                listing_ends Mock.three_pages ("token " ++ "t") org 4).
  { intros org [<-|[]] n. vm_compute. reflexivity. }
  split; [reflexivity|]. split; [exact W|]. split; [lia|]. split; [exact H|].
  exact (run_returns_on_well_formed_answers 4 Mock.three_pages NoFile "t" ["acme"]
           ["alice"; "bob"] [] eq_refl W ltac:(lia) H).
Defined.

(** * Further properties: who leaves the active set *)

Lemma step_keeps_records w auth (s s' : state) (uid : string) :
  step w auth s s' ->
  dict_mem uid (user_summary s) = true -> dict_mem uid (user_summary s') = true.
Proof.
  intros H. destruct H as [s url t b _|s k b|s s' H|s|s]; auto.
  destruct H as [->|(u & r & r' & _ & G & _ & ->)]; auto.
  unfold dict_mem. simpl. destruct (string_dec u uid) as [<-|Hne].
  - now rewrite dict_get_set_same.
  - now rewrite dict_get_set_other.
Qed.

Lemma step_dropped_complete w auth (s s' : state) :
  step w auth s s' -> dropped_complete s -> dropped_complete s'.
Proof.
  intros H D. destruct H as [s url t b _|s k b|s s' H|s|s]; try exact D.
  - destruct H as [->|(u & r & r' & Hin & G & _ & ->)]; auto.
    intros uid r0. simpl. destruct (string_dec u uid) as [<-|Hne].
    + now left.
    + rewrite dict_get_set_other by assumption. apply D.
  - intros uid r G. simpl in *. destruct (D uid r G) as [Hin|Ha]; auto.
    unfold missing_some.
    destruct (all_three r) eqn:E; auto.
    left. apply filter_In. split; auto. unfold missing_some. now rewrite G, E.
Qed.

Lemma reach_dropped_complete w auth (s s' : state) :
  reach w auth s s' ->
  dropped_complete s -> dropped_complete s' /\
  forall uid, dict_mem uid (user_summary s) = true ->
              dict_mem uid (user_summary s') = true.
Proof.
  induction 1 as [s|s s1 s2 _ IH Hs]; intros D; [now split|].
  destruct (IH D) as [D1 K1]. split.
  - eapply step_dropped_complete; eauto.
  - intros uid Hu. eapply step_keeps_records; eauto.
Qed.

(** X13.  Nobody is dropped before all three conditions are met: at the
    end of a run that could read the cache file, whatever its outcome,
    every user of the original list who is no longer in [user_ids] has a
    record with all three flags set. *)
Theorem nobody_is_dropped_before_all_three fuel w file token orgs uids c uid :
  initial_cache file = Some c ->
  let s := final_state (check_user_activity fuel w file token orgs uids) in
  In uid uids -> ~ In uid (user_ids s) ->
  exists r,
    dict_get uid (user_summary s) = Some r /\
    default_commit r = true /\ any_commit r = true /\ any_activity r = true.
Proof.
  intros Hc s Hin Hout.
  destruct (run_shape fuel w file token orgs uids c Hc) as (s1 & Hr & He).
  assert (E : user_summary s = user_summary s1 /\ user_ids s = user_ids s1).
  { subst s. destruct He as [->|[(e & _ & ->)| ->]]; simpl; auto. }
  destruct E as [Eu Ei]. rewrite Eu. rewrite Ei in Hout.
  apply reach_dropped_complete in Hr.
  - destruct Hr as [D K].
    specialize (K uid (loaded_tracked c uids uid Hin)). unfold dict_mem in K.
    destruct (dict_get uid (user_summary s1)) as [r|] eqn:G; [|discriminate].
    exists r. split; auto.
    destruct (D uid r G) as [H|H]; [contradiction|].
    now apply all_three_flags.
  - intros u r G. left. simpl in *.
    apply dict_get_Some_In in G.
    destruct (init_user_summary_keys uids) as (_ & K & _). now apply K.
Qed.

Lemma nobody_is_dropped_before_all_three_witness :
  let s := final_state
             (check_user_activity 5 Mock.two_orgs NoFile "t" ["acme"; "beta"]
                ["alice"; "bob"]) in
  initial_cache NoFile = Some [] /\
  In "alice" ["alice"; "bob"] /\ ~ In "alice" (user_ids s) /\
  exists r,
    dict_get "alice" (user_summary s) = Some r /\
    default_commit r = true /\ any_commit r = true /\ any_activity r = true.
Proof.
  assert (H : ~ In "alice"
                (user_ids (final_state
                   (check_user_activity 5 Mock.two_orgs NoFile "t" ["acme"; "beta"]
                      ["alice"; "bob"])))).
  { vm_compute. intros [E|[]]. discriminate E. }
  split; [reflexivity|]. split; [now left|]. split; [exact H|].
  exact (nobody_is_dropped_before_all_three 5 Mock.two_orgs NoFile "t"
           ["acme"; "beta"] ["alice"; "bob"] [] "alice" eq_refl (or_introl eq_refl) H).
Defined.

(** * Further properties: the requests a repository takes *)

Lemma bind_inv {A B} (m : M A) (k : A -> M B) (s s' : state) (b : B) :
  bind m k s = Ok b s' -> exists a s1, m s = Ok a s1 /\ k a s1 = Ok b s'.
Proof.
  unfold bind. destruct (m s) as [a s1|e s1|s1]; try discriminate. eauto.
Qed.

Lemma py_get_inv (v : value) (k : string) (s s' : state) (x : value) :
  py_get v k VNull s = Ok x s' -> s' = s /\ x = member v k.
Proof.
  unfold py_get, member. destruct (get_member v k VNull); [|discriminate].
  intros H. inversion H. auto.
Qed.

Lemma asked_nothing (s s' : state) :
  trace s' = trace s -> tick s' = tick s -> asked [] s s'.
Proof. intros Ht Hn. split; [now rewrite Ht, app_nil_r|simpl; lia]. Qed.

Lemma asked_app (u1 u2 : list string) (a b c : state) :
  asked u1 a b -> asked u2 b c -> asked (u1 ++ u2) a c.
Proof.
  intros [R1 T1] [R2 T2]. split.
  - now rewrite R2, R1, app_assoc.
  - rewrite length_app. lia.
Qed.

Lemma fetch_asked w url auth s b s1 :
  github_request w url auth s = Ok b s1 ->
  b = answer w (tick s) url auth /\ asked [url] s s1.
Proof.
  intros E.
  destruct (github_request_spec w url auth s) as (b' & t & E' & Q & Hp & _).
  rewrite E in E'. inversion E'; subst. split.
  - unfold answer. destruct (parsed_payload w (tick s) url auth); tauto.
  - split; simpl; [|lia]. rewrite requests_app.
    now destruct (fetch_views url t b' Q) as [-> _].
Qed.

Lemma updates_asked (P : user_record -> user_record -> Prop) (s s' : state) :
  updates P s s' -> asked [] s s'.
Proof.
  intros [->|(uid & r & r' & _ & _ & _ & ->)]; now apply asked_nothing.
Qed.

Lemma for_each_asked {A} (xs : list A) (f : A -> M unit) (g : A -> list string) :
  (forall x s s', f x s = Ok tt s' -> asked (g x) s s') ->
  forall s s', for_each xs f s = Ok tt s' -> asked (flat_map g xs) s s'.
Proof.
  intros Hf. induction xs as [|x xs IH]; intros s s' H; simpl in *.
  - inversion H; subst. now apply asked_nothing.
  - apply bind_inv in H. destruct H as ([] & s1 & E1 & E2).
    eapply asked_app; eauto.
Qed.

Lemma site_scan_asked (items : body) (f : value -> M unit) (s s' : state) :
  (forall x s, record_update s (final_state (f x s))) ->
  when (truthy items) (for_each (py_iter items) f) s = Ok tt s' ->
  asked [] s s'.
Proof.
  intros Hf. destruct (truthy items); simpl.
  - intros H.
    apply (for_each_asked (py_iter items) f (fun _ => [])) in H.
    + assert (E : flat_map (fun _ : value => @nil string) (py_iter items) = []).
      { induction (py_iter items); auto. }
      now rewrite E in H.
    + intros x s0 s0' E. specialize (Hf x s0). rewrite E in Hf.
      eapply updates_asked; exact Hf.
  - intros H. inversion H; subst. now apply asked_nothing.
Qed.

Lemma flat_map_single {A B} (f : A -> B) (xs : list A) :
  flat_map (fun x => [f x]) xs = map f xs.
Proof. induction xs; simpl; congruence. Qed.

Lemma branch_scan_asked w auth org name (since : string) (f : value -> value -> M unit)
    (branches : body) (s s' : state) :
  (forall bn x s, record_update s (final_state (f bn x s))) ->
  for_each (py_iter branches) (fun branch =>
    branch_name <- py_get branch "name" VNull ;;
    commits <- github_request w (commits_url w org name branch_name since) auth ;;
    when (truthy commits) (for_each (py_iter commits) (f branch_name))) s = Ok tt s' ->
  asked (map (fun b => commits_url w org name b since)
             (map (fun b => member b "name") (py_iter branches))) s s'.
Proof.
  intros Hf H. rewrite map_map, <- flat_map_single.
  revert s s' H. apply for_each_asked. intros branch s s' H.
  apply bind_inv in H. destruct H as (bn & s1 & E1 & H).
  apply py_get_inv in E1. destruct E1 as [-> ->].
  apply bind_inv in H. destruct H as (commits & s2 & E2 & H).
  apply fetch_asked in E2. destruct E2 as [_ A1].
  apply site_scan_asked in H; [|apply Hf].
  apply (asked_app _ _ _ _ _ A1 H).
Qed.

(** X14.  The requests of a repository follow a fixed schedule.  When the
    processing of a repository returns, it has issued exactly the requests
    of [repo_schedule], in that order: the commits of the default branch
    and the branch list and, unless the branch list came back empty or
    failed, one commit list per branch for the last 30 days, the events,
    and one commit list per branch for the last 90 days.  A repository
    with [n] listed branches thus takes [2 * n + 3] requests, one without
    takes two, and neither depends on who is tracked or on what was found. *)
Theorem requests_of_a_repository w auth org repo s c s' :
  process_repo w auth org repo s = Ok c s' ->
  let branches :=
    answer w (S (tick s)) (branches_url w org (member repo "name")) auth in
  requests (trace s') =
    (requests (trace s) ++ repo_schedule w auth org repo (tick s))%list /\
  List.length (repo_schedule w auth org repo (tick s)) =
    (if truthy branches then 2 * List.length (py_iter branches) + 3 else 2).
Proof.
  intros H branches. split.
  2:{ unfold repo_schedule. cbv zeta. fold branches.
      destruct (truthy branches); [|reflexivity].
      simpl. rewrite !length_app, !length_map. simpl. rewrite !length_map. lia. }
  clear branches.
  enough (A : asked (repo_schedule w auth org repo (tick s)) s s')
    by exact (proj1 A).
  unfold process_repo in H. apply bind_inv in H.
  destruct H as ([[[name k] since_30] branches] & s1 & Hb & H).
  unfold repo_begin in Hb.
  apply bind_inv in Hb. destruct Hb as (name' & s0 & E & Hb).
  apply py_get_inv in E. destruct E as [-> ->].
  apply bind_inv in Hb. destruct Hb as (full' & s0 & E & Hb).
  apply py_get_inv in E. destruct E as [-> ->].
  apply bind_inv in Hb. destruct Hb as (dbranch & s0 & E & Hb).
  apply py_get_inv in E. destruct E as [-> ->].
  apply bind_inv in Hb. destruct Hb as ([] & sa & E & Hb).
  assert (A1 : asked [] s sa).
  { unfold cache_touch, modify in E. inversion E.
    destruct (dict_mem _ (cache s)); now apply asked_nothing. }
  clear E. apply bind_inv in Hb. destruct Hb as ([] & sb & E & Hb).
  assert (A2 : asked [] sa sb).
  { unfold modify in E. inversion E. now apply asked_nothing. }
  clear E. apply bind_inv in Hb. destruct Hb as (since_60 & sb' & E & Hb).
  unfold since_days, gets in E. inversion E; subst sb' since_60. clear E.
  apply bind_inv in Hb. destruct Hb as (commits & sc & E & Hb).
  apply fetch_asked in E. destruct E as [_ A3].
  apply bind_inv in Hb. destruct Hb as ([] & sd & E & Hb).
  apply site_scan_asked in E;
    [|intros x s0; apply default_commit_step_update, append_nonempty].
  apply bind_inv in Hb. destruct Hb as (since' & sd' & E' & Hb).
  unfold since_days, gets in E'. inversion E'; subst sd' since'. clear E'.
  apply bind_inv in Hb. destruct Hb as (branches' & se & E' & Hb).
  apply fetch_asked in E'. destruct E' as [Eb A5].
  unfold ret in Hb. inversion Hb. subst name k since_30 branches' s1. clear Hb.
  pose proof (asked_app _ _ _ _ _ A1 A2) as B1.
  pose proof (asked_app _ _ _ _ _ B1 A3) as B2.
  pose proof (asked_app _ _ _ _ _ B2 E) as B3.
  pose proof (asked_app _ _ _ _ _ B3 A5) as B4.
  assert (Tb : tick sb = tick s) by (destruct B1 as [_ T]; simpl in T; lia).
  assert (Td : tick sd = S (tick s)) by (destruct B3 as [_ T]; simpl in T; lia).
  rewrite Tb in B4. rewrite Td in *. simpl app in B4.
  clear A1 A2 A3 E A5 B1 B2 B3 Tb Td sa sb sc sd commits.
  unfold repo_schedule. cbv zeta. rewrite H4.
  destruct (truthy branches) eqn:T; simpl negb in H; cbv iota in H.
  2:{ unfold ret in H. inversion H; subst. exact B4. }
  assert (Te : tick se = tick s + 2) by (destruct B4 as [_ Te]; exact Te).
  eapply asked_app; [exact B4|]. clear B4.
  unfold repo_finish in H.
  apply bind_inv in H. destruct H as ([] & s1 & E1 & H).
  apply branch_scan_asked in E1; [|intros; apply any_commit_step_update].
  apply bind_inv in H. destruct H as ([] & s2 & E2 & H).
  unfold scan_events in E2.
  apply bind_inv in E2. destruct E2 as (events & s2' & E2 & E2').
  apply fetch_asked in E2. destruct E2 as [_ E2].
  apply site_scan_asked in E2'; [|intros; apply event_step_update].
  apply bind_inv in H. destruct H as ([] & s3 & E3 & H).
  unfold scan_fallback in E3.
  apply bind_inv in E3. destruct E3 as (since_90 & s3' & E3 & E3').
  unfold since_days, gets in E3. inversion E3; subst s3' since_90. clear E3.
  apply (branch_scan_asked w auth org (member repo "name") _ (fun _ => fallback_step))
    in E3'; [|intros; apply fallback_step_update].
  apply bind_inv in H. destruct H as ([] & s4 & E4 & H).
  assert (A4 : asked [] s3 s4).
  { unfold save_progress, modify in E4. inversion E4. split; simpl; [|lia].
    rewrite requests_app. reflexivity. }
  apply bind_inv in H. destruct H as ([] & s5 & E5 & H).
  assert (A5 : asked [] s4 s5).
  { destruct (narrow_user_ids_spec s4) as [E|[e E]]; rewrite E in E5;
      inversion E5. now apply asked_nothing. }
  assert (s' = s5) as ->.
  { unfold bind, gets in H. destruct (user_ids s5); inversion H; auto. }
  assert (T2 : tick s2 = tick s + 3
                 + List.length (map (fun b => member b "name") (py_iter branches))).
  { destruct E1 as [_ T1], E2 as [_ T2], E2' as [_ T2'].
    rewrite length_map in T1. simpl in T2, T2'. lia. }
  rewrite T2 in E3'.
  eapply asked_app; [exact E1|].
  eapply asked_app; [exact (asked_app _ _ _ _ _ E2 E2')|].
  rewrite <- (app_nil_r (map _ _)).
  eapply asked_app; [exact E3'|exact (asked_app _ _ _ _ _ A4 A5)].
Qed.

Lemma requests_of_a_repository_witness :
  let w := Mock.two_orgs in
  let repo := Mock.repo_item "site" "main" in
  let s := loaded [] ["alice"] in
  let branches :=
    answer w (S (tick s)) (branches_url w "acme" (member repo "name")) "token t" in
  exists c s',
    process_repo w "token t" "acme" repo s = Ok c s' /\
    requests (trace s') =
      (requests (trace s) ++ repo_schedule w "token t" "acme" repo (tick s))%list /\
    List.length (repo_schedule w "token t" "acme" repo (tick s)) =
      (if truthy branches then 2 * List.length (py_iter branches) + 3 else 2).
Proof.
  eexists. eexists. split.
  - vm_compute. reflexivity.
  - eapply (requests_of_a_repository Mock.two_orgs "token t" "acme"
              (Mock.repo_item "site" "main") (loaded [] ["alice"])).
    vm_compute. reflexivity.
Defined.

(** * Further properties: the error log against the requests *)

Lemma failed_app w auth n (u1 u2 : list string) :
  failed w auth n (u1 ++ u2) =
    (failed w auth n u1 ++ failed w auth (n + List.length u1) u2)%list.
Proof.
  revert n. induction u1 as [|u u1 IH]; intros n; simpl.
  - now rewrite Nat.add_0_r.
  - rewrite IH. replace (S n + List.length u1) with (n + S (List.length u1)) by lia.
    now destruct (parsed_payload w n u auth).
Qed.

Lemma error_log_more (t1 t2 : list event) :
  error_log (t1 ++ t2) = (error_log t1 ++ error_log t2)%list.
Proof. apply flat_map_app. Qed.

Lemma log_faithful_quiet w auth (s : state) (e : event) :
  requests [e] = [] -> error_log [e] = [] ->
  log_faithful w auth s -> log_faithful w auth (emit e s).
Proof.
  intros Hr He [T L]. unfold log_faithful. simpl.
  now rewrite requests_app, error_log_more, Hr, He, !app_nil_r.
Qed.

Lemma step_log_faithful w auth (s s' : state) :
  step w auth s s' -> log_faithful w auth s -> log_faithful w auth s'.
Proof.
  intros H [T L]. destruct H as [s url t b [Q Hp]|s k b|s s' H|s|s].
  - destruct (fetch_views url t b Q) as [Hr _].
    unfold log_faithful. simpl.
    rewrite requests_app, error_log_more, Hr, length_app, failed_app. simpl.
    split; [lia|]. apply Forall2_app; [exact L|].
    rewrite <- T. simpl.
    assert (E : error_log (t ++ [EReturn b]) = error_log t).
    { rewrite error_log_more. simpl. apply app_nil_r. }
    rewrite E.
    destruct (parsed_payload w (tick s) url auth) as [p|].
    + destruct Hp as [_ ->]. constructor.
    + destruct Hp as [_ [e ->]]. constructor; [|constructor]. now exists e.
  - now split.
  - destruct H as [->|(uid & r & r' & _ & _ & _ & ->)]; now split.
  - now apply log_faithful_quiet.
  - now split.
Qed.

Lemma reach_log_faithful w auth (s s' : state) :
  reach w auth s s' -> log_faithful w auth s -> log_faithful w auth s'.
Proof. induction 1; eauto using step_log_faithful. Qed.

(** X15.  The error log is a faithful record of the failed requests.  At
    the end of a run, whatever its outcome, the log holds exactly one line
    for every request that failed (the transport raised, the status was an
    error, or the body was no JSON), in the order of the requests, each
    naming the locator of its request; a request that went through left no
    line. *)
Theorem error_log_is_faithful fuel w file token orgs uids :
  let s := final_state (check_user_activity fuel w file token orgs uids) in
  Forall2 (reports_failure w) (error_log (trace s))
          (failed w ("token " ++ token) 0 (requests (trace s))).
Proof.
  intros s. destruct (initial_cache file) as [c|] eqn:Hc.
  - destruct (run_shape fuel w file token orgs uids c Hc) as (s1 & Hr & He).
    apply reach_log_faithful in Hr; [|split; [reflexivity|constructor]].
    assert (L : log_faithful w ("token " ++ token) s).
    { subst s. destruct He as [->|[(e & _ & ->)| ->]]; simpl final_state; auto.
      now apply log_faithful_quiet. }
    exact (proj2 L).
  - subst s. destruct file; try discriminate Hc.
    rewrite check_user_activity_unfold. constructor.
Qed.

(** * Further properties: no flag without evidence *)

Lemma evidence_more (t t' : list event) (uid : string) (r : user_record) :
  evidence t uid r -> evidence (t ++ t') uid r.
Proof.
  intros (E1 & E2 & E3 & E4). unfold evidence. rewrite observed_app.
  repeat split.
  - intros H. destruct (E1 H) as (item & Hin & Ha). exists item. split; auto.
    apply in_or_app. now left.
  - intros H. destruct (E2 H) as (item & Hin & Ha). exists item. split; auto.
    apply in_or_app. now left.
  - intros H. destruct (E3 H) as (item & Hin & Ha). exists item. split; auto.
    apply in_or_app. now left.
  - intros H. destruct (E4 H) as (item & Hin & Ha). exists item. split; auto.
    apply in_or_app. now left.
Qed.

Lemma evidenced_more (s s' : state) (t : list event) :
  user_summary s' = user_summary s -> trace s' = (trace s ++ t)%list ->
  evidenced s -> evidenced s'.
Proof.
  intros Hu Ht E uid r G. rewrite Hu in G. rewrite Ht.
  now apply evidence_more, E.
Qed.

(** ** Commands keep the evidence *)

Lemma keeps_same {A} (known : list value) (m : M A) :
  (forall s, final_state (m s) = s) -> keeps known m.
Proof.
  intros H s E _. rewrite H. split; auto. exists []. now rewrite app_nil_r.
Qed.

Lemma keeps_ret {A} (known : list value) (a : A) : keeps known (ret a).
Proof. now apply keeps_same. Qed.

Lemma keeps_gets {A} (known : list value) (f : state -> A) : keeps known (gets f).
Proof. now apply keeps_same. Qed.

Lemma keeps_py_get (known : list value) v k d : keeps known (py_get v k d).
Proof.
  apply keeps_same. intros s. unfold py_get. now destruct (get_member v k d).
Qed.

Lemma keeps_py_len (known : list value) b : keeps known (py_len b).
Proof. apply keeps_same. intros s. now destruct b as [|[| |]]. Qed.

Lemma keeps_modify (known : list value) (f : state -> state) :
  (forall s, user_summary (f s) = user_summary s /\
             exists t, trace (f s) = (trace s ++ t)%list) ->
  keeps known (modify f).
Proof.
  intros H s E _. destruct (H s) as [Hu [t Ht]]. simpl. split; [|now exists t].
  now apply (evidenced_more s _ t).
Qed.

Lemma keeps_bind {A B} (known : list value) (m : M A) (k : A -> M B) :
  keeps known m -> (forall a, keeps known (k a)) -> keeps known (bind m k).
Proof.
  intros Hm Hk s E K. unfold bind. destruct (Hm s E K) as [E1 [t1 T1]].
  destruct (m s) as [a s1|e s1|s1]; simpl in *; try (split; eauto; fail).
  destruct (Hk a s1 E1) as [E2 [t2 T2]].
  - rewrite T1, observed_app. intros x Hx. apply in_or_app. left. now apply K.
  - split; auto. exists (t1 ++ t2)%list. now rewrite T2, T1, app_assoc.
Qed.

Lemma keeps_for_each {A} (known : list value) (xs : list A) (f : A -> M unit) :
  (forall x, In x xs -> keeps known (f x)) -> keeps known (for_each xs f).
Proof.
  induction xs as [|x xs IH]; intros Hf; simpl.
  - apply keeps_ret.
  - apply keeps_bind; [apply Hf; now left|intros _].
    apply IH. intros y Hy. apply Hf. now right.
Qed.

Lemma keeps_for_repos (known : list value) (f : value -> M control) (repos : list value) :
  (forall x, keeps known (f x)) -> keeps known (for_repos f repos).
Proof.
  intros Hf. induction repos as [|x xs IH]; simpl.
  - apply keeps_ret.
  - apply keeps_bind; auto. intros [|]; auto using keeps_ret.
Qed.

(** A fetch adds the items of its payload to what is known. *)
Lemma keeps_fetch {B} (known : list value) w url auth (k : body -> M B) :
  (forall b, keeps (if truthy b then py_iter b else []) (k b)) ->
  keeps known (bind (github_request w url auth) k).
Proof.
  intros Hk s E K. unfold bind.
  destruct (github_request_spec w url auth s) as (b & t & Eq & Q & _).
  rewrite Eq. set (s1 := with_io _ _ s).
  assert (T1 : trace s1 = (trace s ++ EGet url :: t ++ [EReturn b])%list)
    by reflexivity.
  destruct (Hk b s1) as [E2 [t2 T2]].
  - now apply (evidenced_more s s1 (EGet url :: t ++ [EReturn b])).
  - rewrite T1, observed_app. intros x Hx. apply in_or_app. right.
    simpl. rewrite observed_app. apply in_or_app. right. simpl.
    rewrite app_nil_r. exact Hx.
  - split; auto. exists ((EGet url :: t ++ [EReturn b]) ++ t2)%list.
    now rewrite T2, T1, app_assoc.
Qed.

Lemma evidenced_state (s s' : state) (uid : string) (r' : user_record) :
  user_summary s' = dict_set uid r' (user_summary s) -> trace s' = trace s ->
  evidenced s -> evidence (trace s) uid r' -> evidenced s'.
Proof.
  intros Hu Ht E Hr u r. rewrite Hu, Ht. destruct (string_dec uid u) as [<-|Hne].
  - rewrite dict_get_set_same. intros G. inversion G. now subst.
  - rewrite dict_get_set_other by assumption. apply E.
Qed.

Ltac site_leaf :=
  repeat match goal with
         | H : Some _ = Some _ |- _ => inversion H; subst; clear H
         | H : dict_get ?u (dict_set ?u _ _) = _ |- _ =>
             rewrite dict_get_set_same in H
         end;
  try discriminate;
  try (eapply evidenced_state;
       [simpl; rewrite ?dict_set_set; reflexivity|reflexivity|assumption|]).

Ltac by_item item :=
  exists item; split; [assumption|];
  unfold author_login, commit_date, get_member;
  repeat match goal with
         | H : dict_get _ _ = _ |- _ => rewrite H
         end; auto.

Lemma keeps_default_commit_step known k c :
  In c known -> keeps known (default_commit_step k c).
Proof.
  intros Hc s E K. split.
  2:{ destruct (default_commit_step_exact k c s)
        as [->|(uid & r & r' & _ & _ & _ & ->)]; exists []; now rewrite app_nil_r. }
  apply K in Hc.
  unfold_step. unfold py_in. crush_step; try assumption; site_leaf.
  match goal with
  | G : dict_get ?u (user_summary s) = Some ?r |- _ =>
      destruct (E u r G) as (E1 & E2 & E3 & E4)
  end.
  repeat split; simpl; auto. intros _. by_item (VObj members).
Qed.

Ltac site_evidence E s :=
  match goal with
  | G : dict_get ?u (user_summary s) = Some ?r |- _ =>
      let E1 := fresh "E1" in let E2 := fresh "E2" in
      let E3 := fresh "E3" in let E4 := fresh "E4" in
      destruct (E u r G) as (E1 & E2 & E3 & E4)
  end.

Lemma keeps_any_commit_step known w k b c :
  In c known -> keeps known (any_commit_step w k b c).
Proof.
  intros Hc s E K. split.
  2:{ destruct (any_commit_step_exact w k b c s)
        as [->|(uid & r & r' & _ & _ & _ & ->)]; exists []; now rewrite app_nil_r. }
  apply K in Hc.
  unfold_step. unfold py_in. crush_step; try assumption; site_leaf.
  site_evidence E s.
  repeat split; simpl; auto. intros _. by_item (VObj members).
Qed.

Lemma keeps_event_step known w k e :
  In e known -> keeps known (event_step w k e).
Proof.
  intros Hc s E K. split.
  2:{ destruct (event_step_exact w k e s)
        as [->|(uid & r & r' & _ & _ & _ & ->)]; exists []; now rewrite app_nil_r. }
  apply K in Hc.
  unfold_step. unfold py_in. crush_step; try assumption; site_leaf.
  all: site_evidence E s.
  all: repeat split; simpl; auto; intros _; by_item (VObj members).
Qed.

Lemma keeps_fallback_step known c :
  In c known -> keeps known (fallback_step c).
Proof.
  intros Hc s E K. split.
  2:{ destruct (fallback_step_exact c s)
        as [->|(uid & r & r' & _ & _ & _ & ->)]; exists []; now rewrite app_nil_r. }
  apply K in Hc.
  unfold_step. unfold py_in. crush_step; try assumption; site_leaf.
  all: site_evidence E s.
  all: repeat split; simpl; auto; intros _; by_item (VObj members).
Qed.

Lemma keeps_site_scan (items : body) (f : value -> M unit) :
  (forall known x, In x known -> keeps known (f x)) ->
  keeps (if truthy items then py_iter items else [])
        (when (truthy items) (for_each (py_iter items) f)).
Proof.
  intros Hf. destruct (truthy items); simpl; [|apply keeps_ret].
  apply keeps_for_each. intros x Hx. now apply Hf.
Qed.

Lemma keeps_branch_scan known w auth (url : value -> string) (f : value -> value -> M unit)
    (branches : list value) :
  (forall bn known x, In x known -> keeps known (f bn x)) ->
  keeps known
    (for_each branches (fun branch =>
       branch_name <- py_get branch "name" VNull ;;
       commits <- github_request w (url branch_name) auth ;;
       when (truthy commits) (for_each (py_iter commits) (f branch_name)))).
Proof.
  intros Hf. apply keeps_for_each. intros branch _.
  apply keeps_bind; [apply keeps_py_get|intros bn].
  apply keeps_fetch. intros commits. apply keeps_site_scan. apply Hf.
Qed.

Lemma keeps_narrow_user_ids known : keeps known narrow_user_ids.
Proof.
  intros s E _. destruct (narrow_user_ids_spec s) as [H|[e H]]; rewrite H; simpl.
  - split; [|exists []; now rewrite app_nil_r].
    now apply (evidenced_more s _ []); [| rewrite app_nil_r|].
  - split; auto. exists []. now rewrite app_nil_r.
Qed.

Lemma keeps_process_repo known w auth org repo :
  keeps known (process_repo w auth org repo).
Proof.
  unfold process_repo. apply keeps_bind.
  - unfold repo_begin.
    apply keeps_bind; [apply keeps_py_get|intros repo_name].
    apply keeps_bind; [apply keeps_py_get|intros full_name].
    apply keeps_bind; [apply keeps_py_get|intros default_branch].
    apply keeps_bind.
    { apply keeps_modify. intros s.
      destruct (dict_mem _ (cache s)); split; auto;
        exists []; now rewrite app_nil_r. }
    intros _. apply keeps_bind.
    { apply keeps_modify. intros s. split; auto.
      exists []. now rewrite app_nil_r. }
    intros _. apply keeps_bind; [apply keeps_gets|intros since_60].
    apply keeps_fetch. intros commits.
    apply keeps_bind.
    { apply keeps_site_scan. intros kn x. apply keeps_default_commit_step. }
    intros _. apply keeps_bind; [apply keeps_gets|intros since_30].
    apply keeps_fetch. intros branches. apply keeps_ret.
  - intros [[[name k] since] branches].
    destruct (negb (truthy branches)); [apply keeps_ret|].
    unfold repo_finish.
    apply keeps_bind.
    { apply (keeps_branch_scan known w auth
               (fun bn => commits_url w org name bn since)
               (fun bn => any_commit_step w k bn)).
      intros bn kn x. apply keeps_any_commit_step. }
    intros _. apply keeps_bind.
    { unfold scan_events. apply keeps_fetch. intros events.
      apply keeps_site_scan. intros kn x. apply keeps_event_step. }
    intros _. apply keeps_bind.
    { unfold scan_fallback.
      apply keeps_bind; [apply keeps_gets|intros since_90].
      apply (keeps_branch_scan known w auth
               (fun bn => commits_url w org name bn since_90)
               (fun _ => fallback_step)).
      intros bn kn x. apply keeps_fallback_step. }
    intros _. apply keeps_bind.
    { apply keeps_modify. intros s. split; auto. now eexists. }
    intros _. apply keeps_bind; [apply keeps_narrow_user_ids|intros _].
    apply keeps_bind; [apply keeps_gets|intros [|u us]]; apply keeps_ret.
Qed.

Lemma keeps_page_loop known fuel w auth org page :
  keeps known (page_loop fuel w auth org page).
Proof.
  revert known page. induction fuel as [|fuel IH]; intros known page.
  - now apply keeps_same.
  - simpl. apply keeps_fetch. intros repos.
    destruct (negb (truthy repos)); [apply keeps_ret|].
    apply keeps_bind; [apply keeps_py_len|intros n].
    destruct (Nat.eqb n 0); [apply keeps_ret|].
    apply keeps_bind.
    { apply keeps_for_repos. intros x. apply keeps_process_repo. }
    intros _. apply keeps_bind; [apply keeps_gets|intros [|u us]];
      [apply keeps_ret|apply IH].
Qed.

Lemma keeps_scan_orgs fuel w auth orgs : keeps [] (scan_orgs fuel w auth orgs).
Proof. apply keeps_for_each. intros org _. apply keeps_page_loop. Qed.

(** X16.  No flag without evidence.  At the end of a run, whatever its
    outcome, every flag that is set in a user's record is backed by an
    item of a payload the run was handed: a commit whose author login is
    the user for the two commit flags, an event whose actor login is the
    user for the activity flag; and a last-push date other than [None] is
    the commit date of a handed-back commit authored by the user. *)
Theorem no_flag_without_evidence fuel w file token orgs uids uid r :
  let s := final_state (check_user_activity fuel w file token orgs uids) in
  dict_get uid (user_summary s) = Some r ->
  evidence (trace s) uid r.
Proof.
  intros s. subst s. rewrite check_user_activity_unfold.
  assert (G : forall c,
    let s := final_state
      ((scan_orgs fuel w ("token " ++ token) orgs ;;; write_report) (loaded c uids)) in
    dict_get uid (user_summary s) = Some r -> evidence (trace s) uid r).
  { intros c.
    assert (K : keeps []
      (scan_orgs fuel w ("token " ++ token) orgs ;;; write_report)).
    { apply keeps_bind; [apply keeps_scan_orgs|intros _].
      apply keeps_modify. intros s. split; auto. now eexists. }
    destruct (K (loaded c uids)) as [E _].
    - intros u ru H. simpl in H. apply init_user_summary_records in H. subst ru.
      repeat split; simpl; try discriminate. intros H0. now contradiction H0.
    - intros x [].
    - intros s. apply E. }
  destruct file; [apply G|apply G|discriminate].
Qed.

Lemma no_flag_without_evidence_witness :
  let s := final_state
             (check_user_activity 5 Mock.two_orgs NoFile "t" ["acme"; "beta"]
                ["alice"; "bob"]) in
  exists r,
    dict_get "alice" (user_summary s) = Some r /\
    default_commit r = true /\
    evidence (trace s) "alice" r.
Proof.
  eexists. split; [vm_compute; reflexivity|]. split; [reflexivity|].
  eapply (no_flag_without_evidence 5 Mock.two_orgs NoFile "t" ["acme"; "beta"]
            ["alice"; "bob"] "alice").
  vm_compute. reflexivity.
Defined.

(** * Further properties: the second emptiness test *)

(** X17.  The test [len(repos) == 0] of the page loop never ends the loop:
    whenever a payload that passed [if not repos] has a length at all, the
    length is positive.  So one turn of the loop does what it would do
    with the length taken (it may raise) and not looked at: it stops on a
    falsy payload and otherwise hands the batch to the repository loop. *)
Theorem second_emptiness_test_is_dead fuel w auth org page s :
  (forall b s0,
     truthy b = true ->
     match py_len b s0 with
     | Ok n _ => n <> 0
     | Raise _ _ | OutOfFuel _ => True
     end) /\
  page_loop (S fuel) w auth org page s =
    (repos <- github_request w (page_url org page) auth ;;
     if negb (truthy repos) then ret tt
     else
       py_len repos ;;;
       for_repos (process_repo w auth org) (py_iter repos) ;;;
       uids <- gets user_ids ;;
       match uids with
       | [] => ret tt
       | _ => page_loop fuel w auth org (page + 1)
       end) s.
Proof.
  assert (L : forall b s0,
             truthy b = true ->
             match py_len b s0 with
             | Ok n _ => n <> 0
             | Raise _ _ | OutOfFuel _ => True
             end).
  { intros b s0 T. destruct (truthy_len b T) as [n E]. rewrite E.
    simpl. discriminate. }
  split; [exact L|].
  simpl. unfold bind at 1 5.
  destruct (github_request w (page_url org page) auth s) as [b s1|e s1|s1]; auto.
  destruct (truthy b) eqn:T; [|reflexivity].
  simpl. unfold bind at 1 4. specialize (L b s1 T).
  destruct (py_len b s1) as [n s2|e s2|s2]; auto.
  apply Nat.eqb_neq in L. now rewrite L.
Qed.
